(** * llm-extract: candidate detection, repair and orchestration

    A shallow embedding of [llm_extract/extractor.py], [ai_extract/repair.py],
    [ai_extract/types.py] and [llm_extract/parser.py], followed by the
    properties of the specification that were checked against it.

    Conventions of the embedding.
    - A Python [str] is a list of Unicode code points ([text := list N]).
    - A Python [float] is a binary64 primitive float; the literals of the
      source are written as they are and rounded as Python rounds them.
    - An exception is an explicit result ([Raise]); [ValueError] is what the
      dataclasses raise from [__post_init__].
    - [re] patterns are regular-expression syntax trees run by a backtracking
      matcher that follows the priority order of Python's engine.
    - [orjson.loads] is the strict decoder the package imports; the theorems
      are stated for an arbitrary decoder [loads], and a small reference
      decoder ([Json.loads]) is used where a closed example needs one. *)

From Stdlib Require Import List String Ascii NArith ZArith Arith Lia Bool.
From Stdlib Require Import Floats Uint63 DecimalString.
From Stdlib Require Import Sorted Permutation.
Import ListNotations.

Set Warnings "-inexact-float,-register-all".
Set Implicit Arguments.

(* ================================================================== *)
(** * Python primitives *)
(* ================================================================== *)

Definition char := N.
Definition text := list char.

Module Py.

(** A text literal.  Rocq string literals cannot hold a double quote, so
    the tilde stands for U+0022 in the literals of this file. *)
Definition chr (a : ascii) : char :=
  if Ascii.eqb a "~"%char then 34%N else N_of_ascii a.

Fixpoint txt (s : string) : text :=
  match s with
  | EmptyString => []
  | String a s' => chr a :: txt s'
  end.

Definition eqc (a b : char) : bool := N.eqb a b.

Fixpoint eqt (a b : text) : bool :=
  match a, b with
  | [], [] => true
  | x :: a', y :: b' => eqc x y && eqt a' b'
  | _, _ => false
  end.

(** [c in s] for a character [c] and a string [s]. *)
Definition mem (c : char) (s : text) : bool := existsb (eqc c) s.

(** [str.isspace] on one code point ([Py_UNICODE_ISSPACE]); it is also
    what [\s] matches in a [str] pattern. *)
Definition isspace (c : char) : bool :=
  ((9 <=? c) && (c <=? 13) || (28 <=? c) && (c <=? 32)
   || (c =? 133) || (c =? 160) || (c =? 5760)
   || (8192 <=? c) && (c <=? 8202)
   || (c =? 8232) || (c =? 8233) || (c =? 8239) || (c =? 8287)
   || (c =? 12288))%N.

(** [str.lstrip()], [str.rstrip()], [str.strip()]. *)
Fixpoint lstrip (s : text) : text :=
  match s with
  | [] => []
  | c :: s' => if isspace c then lstrip s' else s
  end.

Definition rstrip (s : text) : text := rev (lstrip (rev s)).

Definition strip (s : text) : text := rstrip (lstrip s).

(** [s[a:b]] for [0 <= a], [0 <= b]. *)
Definition slice (s : text) (a b : nat) : text := firstn (b - a) (skipn a s).

(** [s[-1]] of a non-empty string. *)
Definition last_char (s : text) : option char :=
  match rev s with
  | [] => None
  | c :: _ => Some c
  end.

(** [s.startswith(p)]. *)
Fixpoint startswith (s p : text) : bool :=
  match p, s with
  | [], _ => true
  | x :: p', y :: s' => eqc x y && startswith s' p'
  | _ :: _, [] => false
  end.

(** [s.replace(c, empty)] for a one-character [c]: every [c] removed. *)
Definition remove_char (c : char) (s : text) : text :=
  filter (fun x => negb (eqc x c)) s.

(** [min(a, b)] and [max(a, b)] on floats: the first argument is kept
    unless the second is strictly better. *)
Definition min (a b : float) : float := if (b <? a)%float then b else a.
Definition max (a b : float) : float := if (a <? b)%float then b else a.

(** [len(s) / 10000]-style true division of a length by a float. *)
Definition float_of_nat (n : nat) : float :=
  PrimFloat.of_uint63 (Uint63.of_Z (Z.of_nat n)).

(** [sorted(l, key=key, reverse=True)]: a stable sort, descending by key;
    elements with equal keys keep their input order.  [lt a b] is [a < b]
    on keys. *)
Section Sorted.
Variables (A K : Type) (lt : K -> K -> bool) (key : A -> K).

Fixpoint insert_desc (x : A) (l : list A) : list A :=
  match l with
  | [] => [x]
  | y :: l' => if lt (key x) (key y) then y :: insert_desc x l' else x :: l
  end.

Fixpoint sorted_desc (l : list A) : list A :=
  match l with
  | [] => []
  | x :: l' => insert_desc x (sorted_desc l')
  end.
End Sorted.

(** [str(n)] for a non-negative integer. *)
Definition str_of_nat (n : nat) : string :=
  NilEmpty.string_of_uint (Nat.to_uint n).

End Py.

(* ================================================================== *)
(** * Exceptions *)
(* ================================================================== *)

Inductive ErrorType :=
| NO_JSON_FOUND
| INVALID_JSON
| TRUNCATED_JSON
| AMBIGUOUS_MULTIPLE
| REPAIR_FAILED.

Record ExtractError := {
  message : string;
  error_type : ErrorType;
  position : option Z
}.

Inductive exception :=
| ValueError (confidence : float)
| ExtractErrorExn (e : ExtractError).

Inductive res (A : Type) :=
| Ret (a : A)
| Raise (e : exception).
Arguments Ret {A} a.
Arguments Raise {A} e.

Definition bind {A B} (m : res A) (f : A -> res B) : res B :=
  match m with
  | Ret a => f a
  | Raise e => Raise e
  end.

Notation "x <- m ;; k" := (bind m (fun x => k))
  (at level 61, m at next level, right associativity).

(* ================================================================== *)
(** * types.py *)
(* ================================================================== *)

Inductive ExtractionMethod :=
| DIRECT_PARSE
| MARKDOWN_FENCE
| BRACE_MATCH
| HEURISTIC.

(** The guard of both [__post_init__] methods: [0.0 <= confidence <= 1.0]. *)
Definition confidence_ok (c : float) : bool :=
  ((0.0 <=? c) && (c <=? 1.0))%float.

Module Candidate.
Record t := mk {
  raw : text;
  start_pos : nat;
  end_pos : nat;
  method : ExtractionMethod;
  confidence : float
}.

(** [Candidate(raw=..., ...)]: the dataclass constructor followed by
    [__post_init__]. *)
Definition new (raw : text) (start_pos end_pos : nat)
    (method : ExtractionMethod) (confidence : float) : res t :=
  if confidence_ok confidence
  then Ret (mk raw start_pos end_pos method confidence)
  else Raise (ValueError confidence).
End Candidate.

(** What [data] holds: one decoded value, or the list built by the
    [all] strategy. *)
Inductive payload (V : Type) :=
| One (v : V)
| Many (vs : list V).
Arguments One {V} v.
Arguments Many {V} vs.

Module ExtractResult.
Record t (V : Type) := mk {
  success : bool;
  data : option (payload V);
  raw_json : option text;
  confidence : float;
  method : option ExtractionMethod;
  repairs_applied : list string;
  candidates_found : nat;
  error : option ExtractError
}.
Arguments mk {V}.
Arguments success {V}.
Arguments data {V}.
Arguments raw_json {V}.
Arguments confidence {V}.
Arguments method {V}.
Arguments repairs_applied {V}.
Arguments candidates_found {V}.
Arguments error {V}.

(** [ExtractResult(success=..., ...)] followed by [__post_init__]; the
    arguments the call leaves out take the dataclass defaults at the call
    site. *)
Definition new {V} (success : bool) (data : option (payload V))
    (raw_json : option text) (confidence : float)
    (method : option ExtractionMethod) (repairs_applied : list string)
    (candidates_found : nat) (error : option ExtractError) : res (t V) :=
  if confidence_ok confidence
  then Ret (mk success data raw_json confidence method repairs_applied
               candidates_found error)
  else Raise (ValueError confidence).
End ExtractResult.

(* ================================================================== *)
(** * The [re] patterns of the package *)
(* ================================================================== *)

Module Re.

Inductive regex :=
| Eps
| Chr (p : char -> bool)
| Cat (r1 r2 : regex)
| Alt (r1 r2 : regex)
| Star (greedy : bool) (r : regex)
| Grp (n : nat) (r : regex).

(** Captured groups, the most recent binding first: group, start, end. *)
Definition caps := list (nat * (nat * nat)).

Fixpoint group_span (n : nat) (c : caps) : option (nat * nat) :=
  match c with
  | [] => None
  | (m, sp) :: c' => if Nat.eqb m n then Some sp else group_span n c'
  end.

(** Backtracking match of [r] at the head of [s] (which starts at offset
    [pos] of the subject), with the rest of the pattern as continuation
    [k].  Alternatives are tried in the engine's order: left branch first,
    a greedy star longest first, a lazy star shortest first.  An
    iteration of a star that consumes nothing is not repeated. *)
Fixpoint rmatch {R} (r : regex) (s : text) (pos : nat) (c : caps)
    (k : text -> nat -> caps -> option R) {struct r} : option R :=
  match r with
  | Eps => k s pos c
  | Chr p =>
      match s with
      | x :: s' => if p x then k s' (S pos) c else None
      | [] => None
      end
  | Cat r1 r2 =>
      rmatch r1 s pos c (fun s' pos' c' => rmatch r2 s' pos' c' k)
  | Alt r1 r2 =>
      match rmatch r1 s pos c k with
      | Some x => Some x
      | None => rmatch r2 s pos c k
      end
  | Star greedy r1 =>
      (fix loop (fuel : nat) (s : text) (pos : nat) (c : caps) : option R :=
         match fuel with
         | 0 => k s pos c
         | S fuel' =>
             let again :=
               fun (_ : unit) =>
                 rmatch r1 s pos c
                   (fun s' pos' c' =>
                      if Nat.ltb pos pos' then loop fuel' s' pos' c'
                      else None) in
             if greedy then
               match again tt with
               | Some x => Some x
               | None => k s pos c
               end
             else
               match k s pos c with
               | Some x => Some x
               | None => again tt
               end
         end) (List.length s) s pos c
  | Grp n r1 =>
      rmatch r1 s pos c (fun s' pos' c' => k s' pos' ((n, (pos, pos')) :: c'))
  end.

(** A match object: [m.start()], [m.end()] and the group spans. *)
Record rmatch_obj := { m_start : nat; m_end : nat; m_caps : caps }.

(** [pattern.search(subject, pos)]: the leftmost match at or after
    [pos]; [s] is the subject from [pos] on. *)
Fixpoint search (r : regex) (s : text) (pos : nat) : option rmatch_obj :=
  match rmatch r s pos [] (fun _ e c => Some (e, c)) with
  | Some (e, c) => Some {| m_start := pos; m_end := e; m_caps := c |}
  | None =>
      match s with
      | [] => None
      | _ :: s' => search r s' (S pos)
      end
  end.

(** [pattern.finditer(subject)]: successive non-overlapping matches.  The
    scan resumes at the end of a match (one further after an empty
    match; no pattern of the package matches the empty string). *)
Fixpoint finditer_from (fuel : nat) (r : regex) (subject : text) (pos : nat)
    : list rmatch_obj :=
  match fuel with
  | 0 => []
  | S fuel' =>
      match search r (skipn pos subject) pos with
      | None => []
      | Some m =>
          let next := if Nat.ltb (m_start m) (m_end m) then m_end m
                      else S (m_end m) in
          m :: finditer_from fuel' r subject next
      end
  end.

Definition finditer (r : regex) (subject : text) : list rmatch_obj :=
  finditer_from (S (List.length subject)) r subject 0.

(** [m.group(n)], [m.start(n)], [m.end(n)] of a group that took part. *)
Definition mstart (m : rmatch_obj) (n : nat) : nat :=
  match group_span n (m_caps m) with Some (a, _) => a | None => 0 end.
Definition mend (m : rmatch_obj) (n : nat) : nat :=
  match group_span n (m_caps m) with Some (_, b) => b | None => 0 end.
Definition group (subject : text) (m : rmatch_obj) (n : nat) : text :=
  Py.slice subject (mstart m n) (mend m n).

(** [pattern.sub(repl, subject)] where [repl] builds the replacement from
    the match: text between matches is copied, each match replaced. *)
Fixpoint sub_from (ms : list rmatch_obj) (repl : rmatch_obj -> text)
    (subject : text) (pos : nat) : text :=
  match ms with
  | [] => skipn pos subject
  | m :: ms' =>
      Py.slice subject pos (m_start m) ++ repl m
        ++ sub_from ms' repl subject (m_end m)
  end.

Definition sub (r : regex) (repl : rmatch_obj -> text) (subject : text)
    : text :=
  sub_from (finditer r subject) repl subject 0.

(** ** Pattern syntax *)

Definition lit1 (x : char) : regex := Chr (Py.eqc x).

(** A literal under [re.IGNORECASE] in a [str] pattern.  The pattern
    letters of the package are lower-case ASCII; a subject character
    matches when its simple lower-case form is the letter or one of the
    letter's extra case variants (U+017F for s, U+0131 for i; U+0130
    lowers to i and U+212A to k). *)
Definition ieq (p x : char) : bool :=
  (if (97 <=? p) && (p <=? 122) then
     (x =? p) || (x =? p - 32)
     || (p =? 115) && (x =? 383)
     || (p =? 105) && ((x =? 304) || (x =? 305))
     || (p =? 107) && (x =? 8490)
   else x =? p)%N.

Definition lit1_i (x : char) : regex := Chr (ieq x).

Fixpoint seq (rs : list regex) : regex :=
  match rs with
  | [] => Eps
  | [r] => r
  | r :: rs' => Cat r (seq rs')
  end.

Fixpoint alt (rs : list regex) : regex :=
  match rs with
  | [] => Chr (fun _ => false)
  | [r] => r
  | r :: rs' => Alt r (alt rs')
  end.

Definition lit (s : string) : regex := seq (map lit1 (Py.txt s)).
Definition lit_i (s : string) : regex := seq (map lit1_i (Py.txt s)).

Definition opt (r : regex) : regex := Alt r Eps.
Definition plus (r : regex) : regex := Cat r (Star true r).
Definition star (r : regex) : regex := Star true r.
Definition lazy_star (r : regex) : regex := Star false r.

Definition ws : regex := Chr Py.isspace.
Definition any : regex := Chr (fun _ => true).
Definition cls (s : string) : regex := Chr (fun x => Py.mem x (Py.txt s)).

Definition ascii_alpha (x : char) : bool :=
  ((65 <=? x) && (x <=? 90) || (97 <=? x) && (x <=? 122))%N.
Definition ascii_digit (x : char) : bool := ((48 <=? x) && (x <=? 57))%N.

End Re.

(* ================================================================== *)
(** * extractor.py *)
(* ================================================================== *)

Definition lbrace : char := 123%N.
Definition rbrace : char := 125%N.
Definition lbracket : char := 91%N.
Definition rbracket : char := 93%N.
Definition dquote : char := 34%N.
Definition squote : char := 39%N.
Definition backslash : char := 92%N.
Definition colon : char := 58%N.
Definition comma : char := 44%N.
Definition newline : char := 10%N.

(** [_looks_like_json] *)
Definition _looks_like_json (t : text) : bool :=
  let stripped := Py.strip t in
  match stripped with
  | [] => false
  | c0 :: _ =>
      if negb (Py.mem c0 (Py.txt "{[")) then false
      else
        match Py.last_char stripped with
        | Some cl => Py.mem cl (Py.txt "}}]")
        | None => false
        end
  end.

(** [extract_direct] *)
Definition extract_direct (t : text) : res (list Candidate.t) :=
  let stripped := Py.strip t in
  match stripped with
  | [] => Ret []
  | _ :: _ =>
      if _looks_like_json stripped then
        c <- Candidate.new stripped 0 (List.length t) DIRECT_PARSE 1.0 ;;
        Ret [c]
      else Ret []
  end.

(** The [while] loop of [_match_braces].  [rest] is [text[i:]]; the head of
    [stack] is the Python list's last element.  The result is the function's
    return value once the loop is left. *)
Fixpoint _match_braces_loop (start : nat) (rest : text) (i : nat)
    (stack : list char) (in_string escape_next : bool)
    : option (nat * nat) :=
  match stack, rest with
  | [], _ => Some (start, i - 1)
  | _ :: _, [] => None
  | top :: stack', ch :: rest' =>
      if escape_next then
        _match_braces_loop start rest' (S i) stack in_string false
      else if Py.eqc ch backslash then
        _match_braces_loop start rest' (S i) stack in_string true
      else if Py.eqc ch dquote && negb escape_next then
        _match_braces_loop start rest' (S i) stack (negb in_string) escape_next
      else if in_string then
        _match_braces_loop start rest' (S i) stack in_string escape_next
      else if Py.mem ch (Py.txt "{[") then
        _match_braces_loop start rest' (S i) (ch :: stack) in_string escape_next
      else if Py.eqc ch rbrace then
        if Py.eqc top lbrace
        then _match_braces_loop start rest' (S i) stack' in_string escape_next
        else None
      else if Py.eqc ch rbracket then
        if Py.eqc top lbracket
        then _match_braces_loop start rest' (S i) stack' in_string escape_next
        else None
      else
        _match_braces_loop start rest' (S i) stack in_string escape_next
  end.

(** [_match_braces] *)
Definition _match_braces (t : text) (start : nat) : option (nat * nat) :=
  match nth_error t start with
  | None => None
  | Some opener =>
      if negb (Py.mem opener (Py.txt "{[")) then None
      else _match_braces_loop start (skipn (S start) t) (S start)
             [opener] false false
  end.

(** [_calculate_brace_match_confidence] *)
Definition _calculate_brace_match_confidence (raw : text) : float :=
  let base_confidence := 0.8%float in
  let base_confidence :=
    if Py.mem dquote raw then (base_confidence + 0.05)%float
    else base_confidence in
  let base_confidence :=
    if Py.mem colon raw then (base_confidence + 0.05)%float
    else base_confidence in
  let base_confidence :=
    if Nat.ltb (List.length raw) 10 then (base_confidence - 0.1)%float
    else base_confidence in
  Py.min 0.9 (Py.max 0.5 base_confidence).

(** The [while i < len(text)] loop of [extract_from_brace_matching]; every
    iteration moves [i] forward, so [S (len(text))] iterations are enough
    (see [brace_loop_fuel]). *)
Fixpoint brace_loop (fuel : nat) (t : text) (i : nat)
    (candidates : list Candidate.t) : res (list Candidate.t) :=
  match fuel with
  | 0 => Ret candidates
  | S fuel' =>
      match nth_error t i with
      | None => Ret candidates
      | Some ch =>
          if Py.mem ch (Py.txt "{[") then
            match _match_braces t i with
            | Some (start, e) =>
                let raw := Py.slice t start (e + 1) in
                let confidence := _calculate_brace_match_confidence raw in
                c <- Candidate.new raw start (e + 1) BRACE_MATCH confidence ;;
                brace_loop fuel' t (e + 1) (candidates ++ [c])
            | None => brace_loop fuel' t (i + 1) candidates
            end
          else brace_loop fuel' t (i + 1) candidates
      end
  end.

(** [extract_from_brace_matching] *)
Definition extract_from_brace_matching (t : text) : res (list Candidate.t) :=
  brace_loop (S (List.length t)) t 0 [].

Section Extractor.

(** [str.isalnum] on the code points above U+007F, a table of the Unicode
    database; [\w] is [isalnum] or the underscore. *)
Variable unicode_alnum : char -> bool.

Definition word_char (x : char) : bool :=
  if (x <? 128)%N
  then Re.ascii_alpha x || Re.ascii_digit x || Py.eqc x 95%N
  else unicode_alnum x.

(** The pattern [```json\s*\n([\s\S]*?)\n\s*```], [re.IGNORECASE]. *)
Definition _MARKDOWN_FENCE_JSON : Re.regex :=
  Re.seq [Re.lit_i "```json"; Re.star Re.ws; Re.lit1 newline;
          Re.Grp 1 (Re.lazy_star Re.any);
          Re.lit1 newline; Re.star Re.ws; Re.lit_i "```"].

(** The pattern [```(?:\w+)?\s*\n([\s\S]*?)\n\s*```]. *)
Definition _MARKDOWN_FENCE_ANY : Re.regex :=
  Re.seq [Re.lit "```"; Re.opt (Re.plus (Re.Chr word_char));
          Re.star Re.ws; Re.lit1 newline;
          Re.Grp 1 (Re.lazy_star Re.any);
          Re.lit1 newline; Re.star Re.ws; Re.lit "```"].

(** One iteration of the first loop of [extract_from_markdown_fence]. *)
Definition fence_json_step (t : text) (candidates : list Candidate.t)
    (m : Re.rmatch_obj) : res (list Candidate.t) :=
  let content := Py.strip (Re.group t m 1) in
  match content with
  | [] => Ret candidates
  | _ :: _ =>
      if _looks_like_json content then
        c <- Candidate.new content (Re.mstart m 1) (Re.mend m 1)
               MARKDOWN_FENCE 0.95 ;;
        Ret (candidates ++ [c])
      else Ret candidates
  end.

(** One iteration of its second loop. *)
Definition fence_any_step (t : text) (candidates : list Candidate.t)
    (m : Re.rmatch_obj) : res (list Candidate.t) :=
  let content := Py.strip (Re.group t m 1) in
  match content with
  | [] => Ret candidates
  | _ :: _ =>
      if _looks_like_json content then
        let is_duplicate :=
          existsb
            (fun c =>
               (Nat.leb (Candidate.start_pos c) (Re.mstart m 1)
                && Nat.leb (Re.mstart m 1) (Candidate.end_pos c))
               || (Nat.leb (Candidate.start_pos c) (Re.mend m 1)
                   && Nat.leb (Re.mend m 1) (Candidate.end_pos c)))
            candidates in
        if negb is_duplicate then
          c <- Candidate.new content (Re.mstart m 1) (Re.mend m 1)
                 MARKDOWN_FENCE 0.85 ;;
          Ret (candidates ++ [c])
        else Ret candidates
      else Ret candidates
  end.

(** A [for] loop whose body may raise. *)
Fixpoint for_each {A S} (body : S -> A -> res S) (l : list A) (s : S)
    : res S :=
  match l with
  | [] => Ret s
  | x :: l' => s' <- body s x ;; for_each body l' s'
  end.

(** [extract_from_markdown_fence] *)
Definition extract_from_markdown_fence (t : text) : res (list Candidate.t) :=
  candidates <-
    for_each (fence_json_step t) (Re.finditer _MARKDOWN_FENCE_JSON t) [] ;;
  for_each (fence_any_step t) (Re.finditer _MARKDOWN_FENCE_ANY t) candidates.

(** The three [patterns] of [extract_heuristic], compiled with
    [re.IGNORECASE]:
    [(?:here(?:'s| is)(?: the)? (?:json|output|result|response)):?\s*],
    [(?:json (?:output|response|result)):?\s*],
    [(?:output|result|response):?\s*]. *)
Definition heuristic_patterns : list Re.regex :=
  [ Re.seq [Re.lit_i "here"; Re.alt [Re.lit_i "'s"; Re.lit_i " is"];
            Re.opt (Re.lit_i " the"); Re.lit_i " ";
            Re.alt [Re.lit_i "json"; Re.lit_i "output"; Re.lit_i "result";
                    Re.lit_i "response"];
            Re.opt (Re.lit_i ":"); Re.star Re.ws];
    Re.seq [Re.lit_i "json ";
            Re.alt [Re.lit_i "output"; Re.lit_i "response";
                    Re.lit_i "result"];
            Re.opt (Re.lit_i ":"); Re.star Re.ws];
    Re.seq [Re.alt [Re.lit_i "output"; Re.lit_i "result";
                    Re.lit_i "response"];
            Re.opt (Re.lit_i ":"); Re.star Re.ws] ].

(** The body of the inner [for match in regex.finditer(text)] loop. *)
Definition heuristic_step (t : text) (candidates : list Candidate.t)
    (m : Re.rmatch_obj) : res (list Candidate.t) :=
  let after_match := skipn (Re.m_end m) t in
  brace_candidates <- extract_from_brace_matching after_match ;;
  match brace_candidates with
  | [] => Ret candidates
  | bc :: _ =>
      c <- Candidate.new (Candidate.raw bc)
             (Re.m_end m + Candidate.start_pos bc)
             (Re.m_end m + Candidate.end_pos bc)
             HEURISTIC 0.6 ;;
      Ret (candidates ++ [c])
  end.

(** [extract_heuristic] *)
Definition extract_heuristic (t : text) : res (list Candidate.t) :=
  for_each
    (fun candidates pattern =>
       for_each (heuristic_step t) (Re.finditer pattern t) candidates)
    heuristic_patterns [].

(** The duplicate-removal loop of [extract_all_candidates]; [seen_raw] is
    the set of raw texts met so far. *)
Fixpoint unique_by_raw (candidates : list Candidate.t) (seen_raw : list text)
    : list Candidate.t :=
  match candidates with
  | [] => []
  | c :: cs =>
      if existsb (Py.eqt (Candidate.raw c)) seen_raw
      then unique_by_raw cs seen_raw
      else c :: unique_by_raw cs (Candidate.raw c :: seen_raw)
  end.

(** [extract_all_candidates] *)
Definition extract_all_candidates (t : text) : res (list Candidate.t) :=
  c1 <- extract_direct t ;;
  c2 <- extract_from_markdown_fence t ;;
  c3 <- extract_from_brace_matching t ;;
  c4 <- extract_heuristic t ;;
  let candidates := c1 ++ c2 ++ c3 ++ c4 in
  let unique_candidates := unique_by_raw candidates [] in
  Ret (Py.sorted_desc PrimFloat.ltb Candidate.confidence unique_candidates).

End Extractor.

(** [ranking_score], the key of [rank_candidates] *)
Definition ranking_score (c : Candidate.t) : float :=
  let score := Candidate.confidence c in
  let length_bonus :=
    Py.min 0.1 (Py.float_of_nat (List.length (Candidate.raw c)) / 10000)%float in
  let score := (score + length_bonus)%float in
  match Candidate.method c with
  | DIRECT_PARSE => (score + 0.1)%float
  | _ => score
  end.

(** [rank_candidates] *)
Definition rank_candidates (candidates : list Candidate.t)
    : list Candidate.t :=
  match candidates with
  | [] => []
  | _ :: _ => Py.sorted_desc PrimFloat.ltb ranking_score candidates
  end.

(* ================================================================== *)
(** * repair.py *)
(* ================================================================== *)

Module RepairResult.
Record t := mk {
  repaired : text;
  repairs_applied : list string;
  is_truncated : bool
}.
End RepairResult.

(** The pattern of [_remove_trailing_commas]: a comma, then group 1, which
    is [\s*] followed by a closing brace or bracket. *)
Definition trailing_comma_pattern : Re.regex :=
  Re.seq [Re.lit1 comma; Re.Grp 1 (Re.Cat (Re.star Re.ws) (Re.cls "}]"))].

(** [_remove_trailing_commas] *)
Definition _remove_trailing_commas (t : text) : text * list string :=
  let new_text :=
    Re.sub trailing_comma_pattern (fun m => Re.group t m 1) t in
  let repairs :=
    if negb (Py.eqt new_text t) then ["trailing_comma_removal"%string]
    else [] in
  (new_text, repairs).

(** [_is_json_string_quote] *)
Definition _is_json_string_quote (t : text) (pos : nat) : bool :=
  if Nat.leb (List.length t) pos then false
  else
    let before := Py.rstrip (firstn pos t) in
    let after := skipn (pos + 1) t in
    if match Py.last_char before with
       | Some c => Py.mem c (Py.txt "{[:,")
       | None => false
       end
    then true
    else
      let after_stripped := Py.lstrip after in
      match after_stripped with
      | c :: _ => Py.mem c (Py.txt "}]:,")
      | [] => false
      end.

(** The [while i < len(text)] loop of [_normalize_quotes]: [rest] is
    [text[i:]]; the result is what the loop appends to [result] from [i]
    on, and whether it sets [modified]. *)
Fixpoint normalize_quotes_loop (t rest : text) (i : nat)
    (in_double_string : bool) : text * bool :=
  match rest with
  | [] => ([], false)
  | ch :: rest' =>
      let no_escape :=
        fun (_ : unit) =>
          if Py.eqc ch dquote then
            let (r, m) :=
              normalize_quotes_loop t rest' (i + 1) (negb in_double_string) in
            (ch :: r, m)
          else if Py.eqc ch squote && negb in_double_string
                  && _is_json_string_quote t i then
            let (r, _) :=
              normalize_quotes_loop t rest' (i + 1) in_double_string in
            (dquote :: r, true)
          else
            let (r, m) :=
              normalize_quotes_loop t rest' (i + 1) in_double_string in
            (ch :: r, m) in
      if Py.eqc ch backslash then
        match rest' with
        | nxt :: rest'' =>
            let (r, m) :=
              normalize_quotes_loop t rest'' (i + 2) in_double_string in
            (ch :: nxt :: r, m)
        | [] => no_escape tt
        end
      else no_escape tt
  end.

(** [_normalize_quotes] *)
Definition _normalize_quotes (t : text) : text * list string :=
  let (result, modified) := normalize_quotes_loop t t 0 false in
  (result, if modified then ["quote_normalization"%string] else []).

(** The pattern of [_fix_unquoted_keys]: group 1 is an opening brace or a
    comma and [\s*]; group 2 an identifier, [[a-zA-Z_]] then any number of
    [[a-zA-Z0-9_]]; group 3 is [\s*] and a colon. *)
Definition unquoted_key_pattern : Re.regex :=
  Re.seq
    [Re.Grp 1 (Re.Cat (Re.cls "{,") (Re.star Re.ws));
     Re.Grp 2
       (Re.Cat (Re.Chr (fun x => Re.ascii_alpha x || Py.eqc x 95%N))
          (Re.star
             (Re.Chr
                (fun x => Re.ascii_alpha x || Re.ascii_digit x
                          || Py.eqc x 95%N))));
     Re.Grp 3 (Re.Cat (Re.star Re.ws) (Re.lit1 colon))].

(** [_fix_unquoted_keys] *)
Definition _fix_unquoted_keys (t : text) : text * list string :=
  let replace_key :=
    fun m =>
      Re.group t m 1 ++ [dquote] ++ Re.group t m 2 ++ [dquote]
        ++ Re.group t m 3 in
  let new_text := Re.sub unquoted_key_pattern replace_key t in
  let repairs :=
    if negb (Py.eqt new_text t) then ["unquoted_key_fix"%string] else [] in
  (new_text, repairs).

Definition BOM : char := 65279%N.

(** The list [zero_width_chars]: U+200B, U+200C, U+200D, U+FEFF. *)
Definition zero_width_chars : list char := [8203; 8204; 8205; 65279]%N.

(** [_cleanup_whitespace] *)
Definition _cleanup_whitespace (t : text) : text * list string :=
  let (t, repairs) :=
    if Py.startswith t [BOM] then (skipn 1 t, ["bom_removal"%string])
    else (t, []) in
  let original := t in
  let t := fold_left (fun s c => Py.remove_char c s) zero_width_chars t in
  let repairs :=
    if negb (Py.eqt t original)
       && negb (existsb (String.eqb "bom_removal") repairs)
    then repairs ++ ["invisible_char_removal"%string]
    else repairs in
  (t, repairs).

(** The local variables of the scan in [is_truncated_json]. *)
Record trunc_state := {
  open_braces : Z;
  open_brackets : Z;
  ts_in_string : bool;
  ts_escape_next : bool
}.

(** One iteration of [for char in stripped] in [is_truncated_json]. *)
Definition trunc_step (s : trunc_state) (ch : char) : trunc_state :=
  if ts_escape_next s then
    {| open_braces := open_braces s; open_brackets := open_brackets s;
       ts_in_string := ts_in_string s; ts_escape_next := false |}
  else if Py.eqc ch backslash then
    {| open_braces := open_braces s; open_brackets := open_brackets s;
       ts_in_string := ts_in_string s; ts_escape_next := true |}
  else if Py.eqc ch dquote then
    {| open_braces := open_braces s; open_brackets := open_brackets s;
       ts_in_string := negb (ts_in_string s);
       ts_escape_next := ts_escape_next s |}
  else if ts_in_string s then s
  else if Py.eqc ch lbrace then
    {| open_braces := open_braces s + 1; open_brackets := open_brackets s;
       ts_in_string := ts_in_string s; ts_escape_next := ts_escape_next s |}
  else if Py.eqc ch rbrace then
    {| open_braces := open_braces s - 1; open_brackets := open_brackets s;
       ts_in_string := ts_in_string s; ts_escape_next := ts_escape_next s |}
  else if Py.eqc ch lbracket then
    {| open_braces := open_braces s; open_brackets := open_brackets s + 1;
       ts_in_string := ts_in_string s; ts_escape_next := ts_escape_next s |}
  else if Py.eqc ch rbracket then
    {| open_braces := open_braces s; open_brackets := open_brackets s - 1;
       ts_in_string := ts_in_string s; ts_escape_next := ts_escape_next s |}
  else s.

Definition trunc_init : trunc_state :=
  {| open_braces := 0; open_brackets := 0;
     ts_in_string := false; ts_escape_next := false |}.

(** [is_truncated_json] *)
Definition is_truncated_json (t : text) : bool :=
  let stripped := Py.strip t in
  match stripped with
  | [] => false
  | _ :: _ =>
      let s := fold_left trunc_step stripped trunc_init in
      if ts_in_string s then true
      else if (0 <? open_braces s)%Z || (0 <? open_brackets s)%Z then true
      else ts_escape_next s
  end.

(** The local variables of the scan in [_complete_truncated]; the head of
    [cs_stack] is the Python list's last element. *)
Record complete_state := {
  cs_stack : list char;
  cs_in_string : bool;
  cs_escape_next : bool
}.

(** One iteration of [for char in result] in [_complete_truncated]. *)
Definition complete_step (s : complete_state) (ch : char) : complete_state :=
  if cs_escape_next s then
    {| cs_stack := cs_stack s; cs_in_string := cs_in_string s;
       cs_escape_next := false |}
  else if Py.eqc ch backslash then
    {| cs_stack := cs_stack s; cs_in_string := cs_in_string s;
       cs_escape_next := true |}
  else if Py.eqc ch dquote then
    {| cs_stack := cs_stack s; cs_in_string := negb (cs_in_string s);
       cs_escape_next := cs_escape_next s |}
  else if cs_in_string s then s
  else if Py.eqc ch lbrace then
    {| cs_stack := rbrace :: cs_stack s; cs_in_string := cs_in_string s;
       cs_escape_next := cs_escape_next s |}
  else if Py.eqc ch lbracket then
    {| cs_stack := rbracket :: cs_stack s; cs_in_string := cs_in_string s;
       cs_escape_next := cs_escape_next s |}
  else if Py.mem ch (Py.txt "}]") then
    match cs_stack s with
    | top :: stack' =>
        if Py.eqc top ch then
          {| cs_stack := stack'; cs_in_string := cs_in_string s;
             cs_escape_next := cs_escape_next s |}
        else s
    | [] => s
    end
  else s.

Definition complete_init : complete_state :=
  {| cs_stack := []; cs_in_string := false; cs_escape_next := false |}.

(** [_complete_truncated]: the [while stack] loop pops the stack from its
    top, one label per closer. *)
Definition _complete_truncated (t : text) : text * list string :=
  let result := Py.rstrip t in
  let s := fold_left complete_step result complete_init in
  let (result, repairs) :=
    if cs_in_string s then (result ++ [dquote], ["string_completion"%string])
    else (result, []) in
  (result ++ cs_stack s,
   repairs ++ map (fun _ => "brace_completion"%string) (cs_stack s)).

(** The body of the [for _ in range(max_iterations)] loop of [repair_json],
    up to the comparison with [previous]. *)
Definition repair_pass (current : text) : text * list string :=
  let (current, applied1) := _remove_trailing_commas current in
  let (current, applied2) := _normalize_quotes current in
  let (current, applied3) := _fix_unquoted_keys current in
  let (current, applied4) := _cleanup_whitespace current in
  (current, applied1 ++ applied2 ++ applied3 ++ applied4).

(** The loop itself, with its [break]. *)
Fixpoint repair_loop (max_iterations : nat) (current : text)
    (repairs_applied : list string) : text * list string :=
  match max_iterations with
  | 0 => (current, repairs_applied)
  | S n =>
      let previous := current in
      let (current, applied) := repair_pass current in
      let repairs_applied := repairs_applied ++ applied in
      if Py.eqt current previous then (current, repairs_applied)
      else repair_loop n current repairs_applied
  end.

(** [repair_json] *)
Definition repair_json (t : text) (max_iterations : nat) : RepairResult.t :=
  let (current, repairs_applied) := repair_loop max_iterations t [] in
  if is_truncated_json current then
    let (current, applied) := _complete_truncated current in
    RepairResult.mk current (repairs_applied ++ applied) true
  else RepairResult.mk current repairs_applied false.

(* ================================================================== *)
(** * parser.py *)
(* ================================================================== *)

(** The outcome of [orjson.loads]: the decoded value, or the
    [JSONDecodeError] it raises, with its message. *)
Inductive decoded (V : Type) :=
| Decoded (v : V)
| JSONDecodeError (msg : string).
Arguments Decoded {V} v.
Arguments JSONDecodeError {V} msg.

(** [Literal["first", "largest", "all"]] *)
Inductive strategy :=
| First
| Largest
| All.

(** [_sort_by_size] *)
Definition _sort_by_size (candidates : list Candidate.t) : list Candidate.t :=
  Py.sorted_desc Nat.ltb (fun c => List.length (Candidate.raw c)) candidates.

(** The default of [max_iterations] in [repair_json]. *)
Definition default_max_iterations : nat := 5.

Section Parser.

Variable unicode_alnum : char -> bool.
Variable V : Type.
Variable loads : text -> decoded V.

(** The [for candidate in candidates] loop of [_extract_first_valid] and the
    code after it; [n] is [len(candidates)]. *)
Fixpoint first_valid_loop (n : nat) (repair : bool)
    (candidates : list Candidate.t) (all_repairs : list string)
    (last_error : option string) : res (ExtractResult.t V) :=
  match candidates with
  | [] =>
      let error_msg :=
        ("Failed to parse JSON from " ++ Py.str_of_nat n ++ " candidate(s)")%string in
      let error_msg :=
        match last_error with
        | Some e => (error_msg ++ ": " ++ e)%string
        | None => error_msg
        end in
      ExtractResult.new false None None 0.0 None all_repairs n
        (Some {| message := error_msg; error_type := INVALID_JSON;
                 position := None |})
  | candidate :: rest =>
      let json_str := Candidate.raw candidate in
      match loads json_str with
      | Decoded data =>
          ExtractResult.new true (Some (One data)) (Some json_str)
            (Candidate.confidence candidate)
            (Some (Candidate.method candidate)) [] n None
      | JSONDecodeError e =>
          if negb repair then
            first_valid_loop n repair rest all_repairs (Some e)
          else
            let repair_result := repair_json json_str default_max_iterations in
            let repairs := RepairResult.repairs_applied repair_result in
            let all_repairs := all_repairs ++ repairs in
            match loads (RepairResult.repaired repair_result) with
            | Decoded data =>
                let adjusted_confidence :=
                  match repairs with
                  | _ :: _ => (Candidate.confidence candidate * 0.9)%float
                  | [] => Candidate.confidence candidate
                  end in
                let adjusted_confidence :=
                  if RepairResult.is_truncated repair_result
                  then (adjusted_confidence * 0.8)%float
                  else adjusted_confidence in
                ExtractResult.new true (Some (One data))
                  (Some (RepairResult.repaired repair_result))
                  adjusted_confidence
                  (Some (Candidate.method candidate)) repairs n None
            | JSONDecodeError e' =>
                first_valid_loop n repair rest all_repairs (Some e')
            end
      end
  end.

(** [_extract_first_valid] *)
Definition _extract_first_valid (candidates : list Candidate.t)
    (repair : bool) : res (ExtractResult.t V) :=
  let candidates := rank_candidates candidates in
  first_valid_loop (List.length candidates) repair candidates [] None.

(** The local variables of [_extract_all]. *)
Record all_state := {
  results : list V;
  as_all_repairs : list string;
  successful_methods : list ExtractionMethod;
  max_confidence : float
}.

(** One iteration of [for candidate in candidates] in [_extract_all]. *)
Definition extract_all_step (repair : bool) (s : all_state)
    (candidate : Candidate.t) : all_state :=
  let json_str := Candidate.raw candidate in
  match loads json_str with
  | Decoded data =>
      {| results := results s ++ [data];
         as_all_repairs := as_all_repairs s;
         successful_methods :=
           successful_methods s ++ [Candidate.method candidate];
         max_confidence :=
           Py.max (max_confidence s) (Candidate.confidence candidate) |}
  | JSONDecodeError _ =>
      if negb repair then s
      else
        let repair_result := repair_json json_str default_max_iterations in
        let repairs := RepairResult.repairs_applied repair_result in
        let all_repairs := as_all_repairs s ++ repairs in
        match loads (RepairResult.repaired repair_result) with
        | Decoded data =>
            let adjusted_confidence :=
              match repairs with
              | _ :: _ => (Candidate.confidence candidate * 0.9)%float
              | [] => Candidate.confidence candidate
              end in
            {| results := results s ++ [data];
               as_all_repairs := all_repairs;
               successful_methods :=
                 successful_methods s ++ [Candidate.method candidate];
               max_confidence :=
                 Py.max (max_confidence s) adjusted_confidence |}
        | JSONDecodeError _ =>
            {| results := results s;
               as_all_repairs := all_repairs;
               successful_methods := successful_methods s;
               max_confidence := max_confidence s |}
        end
  end.

(** [_extract_all] *)
Definition _extract_all (candidates : list Candidate.t) (repair : bool)
    : res (ExtractResult.t V) :=
  let s :=
    fold_left (extract_all_step repair) candidates
      {| results := []; as_all_repairs := [];
         successful_methods := []; max_confidence := 0.0 |} in
  match results s with
  | [] =>
      ExtractResult.new false None None 0.0 None (as_all_repairs s)
        (List.length candidates)
        (Some {| message :=
                   ("Failed to parse any JSON from "
                    ++ Py.str_of_nat (List.length candidates)
                    ++ " candidate(s)")%string;
                 error_type := INVALID_JSON; position := None |})
  | _ :: _ =>
      ExtractResult.new true (Some (Many (results s))) None
        (max_confidence s)
        (match successful_methods s with
         | m :: _ => Some m
         | [] => None
         end)
        (as_all_repairs s) (List.length candidates) None
  end.

(** [extract_json_with_metadata] *)
Definition extract_json_with_metadata (t : text) (repair : bool)
    (strat : strategy) : res (ExtractResult.t V) :=
  match Py.strip t with
  | [] =>
      ExtractResult.new false None None 0.0 None [] 0
        (Some {| message := "Empty input text";
                 error_type := NO_JSON_FOUND; position := None |})
  | _ :: _ =>
      candidates <- extract_all_candidates unicode_alnum t ;;
      match candidates with
      | [] =>
          ExtractResult.new false None None 0.0 None [] 0
            (Some {| message := "No JSON structure found in input";
                     error_type := NO_JSON_FOUND; position := None |})
      | _ :: _ =>
          match strat with
          | All => _extract_all candidates repair
          | Largest => _extract_first_valid (_sort_by_size candidates) repair
          | First => _extract_first_valid candidates repair
          end
      end
  end.

(** [extract_json]: the value returned ([None] included), or the exception
    raised. *)
Definition extract_json (t : text) (repair : bool) (strat : strategy)
    (raise_on_error : bool) : res (option (payload V)) :=
  result <- extract_json_with_metadata t repair strat ;;
  if ExtractResult.success result then Ret (ExtractResult.data result)
  else if raise_on_error then
    match ExtractResult.error result with
    | Some e => Raise (ExtractErrorExn e)
    | None =>
        Raise (ExtractErrorExn
                 {| message := "Failed to extract JSON";
                    error_type := NO_JSON_FOUND; position := None |})
    end
  else Ret None.

End Parser.

(* ================================================================== *)
(** * cli.py *)
(* ================================================================== *)

Module Cli.

(** The namespace that [parser.parse_args] returns.  [argparse] is an
    imported library; [main] is embedded from the call of [parse_args]
    on. *)
Record Namespace := {
  ns_text : option text;
  ns_file : option string;
  ns_strategy : strategy;
  ns_all : bool;
  ns_largest : bool;
  ns_no_repair : bool;
  ns_pretty : bool;
  ns_compact : bool;
  ns_verbose : bool
}.

(** What [open(path, encoding=...)] and [f.read()] do: the contents, the
    two exceptions [_get_input_text] catches, or another exception. *)
Inductive read_outcome :=
| Contents (t : text)
| FileNotFoundError
| PermissionError
| OtherError.

(** The surroundings of the process: the file system and standard input
    ([stdin_read] is [None] when reading raises). *)
Record World := {
  open_read : string -> read_outcome;
  stdin_isatty : bool;
  stdin_read : option text
}.

(** A call returns, or an exception leaves it that nothing catches. *)
Inductive outcome (A : Type) :=
| Returns (a : A)
| Uncaught.
Arguments Returns {A} a.
Arguments Uncaught {A}.

(** The exit code and what was printed, one entry per call of [print]. *)
Record Run := {
  exit_code : nat;
  stdout : list string;
  stderr : list string
}.

(** [ExtractionMethod.value] *)
Definition method_value (m : ExtractionMethod) : string :=
  match m with
  | DIRECT_PARSE => "direct_parse"
  | MARKDOWN_FENCE => "markdown_fence"
  | BRACE_MATCH => "brace_match"
  | HEURISTIC => "heuristic"
  end.

(** [_get_input_text]: the text, if any, and what it printed to standard
    error.  An empty text argument and an empty file name count as
    absent. *)
Definition _get_input_text (w : World) (args : Namespace)
    : outcome (option text * list string) :=
  match ns_text args with
  | Some (c :: s) => Returns (Some (c :: s), [])
  | _ =>
      match ns_file args with
      | Some (String a path) =>
          match open_read w (String a path) with
          | Contents t => Returns (Some t, [])
          | FileNotFoundError =>
              Returns (None,
                       [("Error: File not found: " ++ String a path)%string])
          | PermissionError =>
              Returns (None,
                       [("Error: Permission denied: " ++ String a path)%string])
          | OtherError => Uncaught
          end
      | _ =>
          if negb (stdin_isatty w) then
            match stdin_read w with
            | Some t => Returns (Some t, [])
            | None => Uncaught
            end
          else Returns (None, [])
      end
  end.

Section Main.

Variable unicode_alnum : char -> bool.
Variable V : Type.
Variable loads : text -> decoded V.

(** [orjson.dumps(data, option=...).decode(...)]: the flag says whether
    [OPT_INDENT_2] is passed; [None] when the encoder raises. *)
Variable dumps : bool -> option (payload V) -> option string.

(** The format specification [.2f] on a float. *)
Variable format_2f : float -> string.

(** [_format_output] *)
Definition _format_output (data : option (payload V)) (pretty : bool)
    : option string :=
  if pretty then dumps true data else dumps false data.

(** [_print_metadata], on an [ExtractResult]: the lines it prints to
    standard error. *)
Definition _print_metadata (result : ExtractResult.t V) : list string :=
  [String (ascii_of_nat 10) "--- Metadata ---";
   ("Confidence: " ++ format_2f (ExtractResult.confidence result))%string]
  ++ match ExtractResult.method result with
     | Some m => [("Method: " ++ method_value m)%string]
     | None => []
     end
  ++ [("Candidates found: "
       ++ Py.str_of_nat (ExtractResult.candidates_found result))%string]
  ++ match ExtractResult.repairs_applied result with
     | _ :: _ =>
         [("Repairs applied: "
           ++ String.concat ", " (ExtractResult.repairs_applied result))%string]
     | [] => []
     end.

(** [main], from the parsed arguments on. *)
Definition main (w : World) (args : Namespace) : outcome Run :=
  match _get_input_text w args with
  | Uncaught => Uncaught
  | Returns (None, printed) =>
      Returns
        {| exit_code := 1; stdout := [];
           stderr :=
             printed
             ++ ["Error: No input provided. Use text argument, -f file, or pipe input."%string] |}
  | Returns (Some t, printed) =>
      let strat :=
        if ns_all args then All
        else if ns_largest args then Largest
        else ns_strategy args in
      match extract_json_with_metadata unicode_alnum loads t
              (negb (ns_no_repair args)) strat with
      | Raise _ => Uncaught
      | Ret result =>
          if negb (ExtractResult.success result) then
            let error_msg :=
              match ExtractResult.error result with
              | Some e => message e
              | None => "Unknown error"%string
              end in
            Returns
              {| exit_code := 1; stdout := [];
                 stderr :=
                   printed ++ [("Error: " ++ error_msg)%string]
                   ++ if ns_verbose args
                         && Nat.ltb 0 (ExtractResult.candidates_found result)
                      then [("Candidates found: "
                             ++ Py.str_of_nat
                                  (ExtractResult.candidates_found result))%string]
                      else [] |}
          else
            match _format_output (ExtractResult.data result)
                    (ns_pretty args) with
            | None => Uncaught
            | Some output =>
                Returns
                  {| exit_code := 0; stdout := [output];
                     stderr :=
                       printed
                       ++ if ns_verbose args then _print_metadata result
                          else [] |}
            end
      end
  end.

End Main.

End Cli.

(* ================================================================== *)
(** * A reference strict decoder *)
(* ================================================================== *)

(** [orjson] is an imported library.  The closed examples below need one
    conformant strict decoder to run the orchestrator on; this module reads
    the JSON grammar (RFC 8259) into a syntax tree.  Numbers keep their
    lexeme and objects their member order (a repeated key keeps its first
    place and its last value, as a Python [dict] does), so equality of two
    trees is at least as fine as equality of the decoded Python values. *)
Module Json.

Inductive value :=
| JNull
| JBool (b : bool)
| JNumber (lexeme : text)
| JString (s : text)
| JArray (items : list value)
| JObject (members : list (text * value)).

Definition is_ws (c : char) : bool :=
  ((c =? 32) || (c =? 9) || (c =? 10) || (c =? 13))%N.

Fixpoint skip_ws (s : text) : text :=
  match s with
  | c :: s' => if is_ws c then skip_ws s' else s
  | [] => []
  end.

Definition hex_digit (c : char) : option N :=
  (if (48 <=? c) && (c <=? 57) then Some (c - 48)
   else if (97 <=? c) && (c <=? 102) then Some (c - 87)
   else if (65 <=? c) && (c <=? 70) then Some (c - 55)
   else None)%N.

(** Four hexadecimal digits at the head of [s]. *)
Definition hex4 (s : text) : option (N * text) :=
  match s with
  | a :: b :: c :: d :: s' =>
      match hex_digit a, hex_digit b, hex_digit c, hex_digit d with
      | Some a, Some b, Some c, Some d =>
          Some (((a * 16 + b) * 16 + c) * 16 + d, s')%N
      | _, _, _, _ => None
      end
  | _ => None
  end.

(** The characters of a string literal after its opening quote, up to and
    with the closing quote. *)
Fixpoint string_body (fuel : nat) (s : text) : option (text * text) :=
  match fuel with
  | 0 => None
  | S fuel' =>
      match s with
      | [] => None
      | c :: s' =>
          if Py.eqc c dquote then Some ([], s')
          else if (c <? 32)%N then None
          else if Py.eqc c backslash then
            match s' with
            | [] => None
            | e :: s'' =>
                let simple (x : char) :=
                  match string_body fuel' s'' with
                  | Some (r, rest) => Some (x :: r, rest)
                  | None => None
                  end in
                if Py.eqc e dquote then simple dquote
                else if Py.eqc e backslash then simple backslash
                else if Py.eqc e 47%N then simple 47%N
                else if Py.eqc e 98%N then simple 8%N
                else if Py.eqc e 102%N then simple 12%N
                else if Py.eqc e 110%N then simple 10%N
                else if Py.eqc e 114%N then simple 13%N
                else if Py.eqc e 116%N then simple 9%N
                else if Py.eqc e 117%N then
                  match hex4 s'' with
                  | None => None
                  | Some (hi, s3) =>
                      if ((55296 <=? hi) && (hi <=? 56319))%N then
                        match s3 with
                        | b1 :: u1 :: s4 =>
                            if Py.eqc b1 backslash && Py.eqc u1 117%N then
                              match hex4 s4 with
                              | Some (lo, s5) =>
                                  if ((56320 <=? lo) && (lo <=? 57343))%N then
                                    match string_body fuel' s5 with
                                    | Some (r, rest) =>
                                        Some ((65536 + (hi - 55296) * 1024
                                               + (lo - 56320))%N :: r, rest)
                                    | None => None
                                    end
                                  else None
                              | None => None
                              end
                            else None
                        | _ => None
                        end
                      else if ((56320 <=? hi) && (hi <=? 57343))%N then None
                      else
                        match string_body fuel' s3 with
                        | Some (r, rest) => Some (hi :: r, rest)
                        | None => None
                        end
                  end
                else None
            end
          else
            match string_body fuel' s' with
            | Some (r, rest) => Some (c :: r, rest)
            | None => None
            end
      end
  end.

Fixpoint digits (s : text) : text * text :=
  match s with
  | c :: s' =>
      if Re.ascii_digit c then let (d, r) := digits s' in (c :: d, r)
      else ([], s)
  | [] => ([], [])
  end.

(** A number: its lexeme and the rest of the text. *)
Definition number (s : text) : option (text * text) :=
  let (sign, s1) :=
    match s with
    | c :: s' => if Py.eqc c 45%N then ([c], s') else ([], s)
    | [] => ([], s)
    end in
  let (int, s2) := digits s1 in
  match int with
  | [] => None
  | d0 :: int' =>
      if Py.eqc d0 48%N && negb (Nat.eqb (List.length int') 0) then None
      else
        let frac :=
          match s2 with
          | c :: s' =>
              if Py.eqc c 46%N then
                let (f, s3) := digits s' in
                match f with
                | [] => None
                | _ :: _ => Some (c :: f, s3)
                end
              else Some ([], s2)
          | [] => Some ([], s2)
          end in
        match frac with
        | None => None
        | Some (f, s3) =>
            let exp :=
              match s3 with
              | c :: s' =>
                  if Py.eqc c 101%N || Py.eqc c 69%N then
                    let (sg, s4) :=
                      match s' with
                      | c2 :: s'' =>
                          if Py.eqc c2 43%N || Py.eqc c2 45%N
                          then ([c2], s'') else ([], s')
                      | [] => ([], s')
                      end in
                    let (e, s5) := digits s4 in
                    match e with
                    | [] => None
                    | _ :: _ => Some (c :: sg ++ e, s5)
                    end
                  else Some ([], s3)
              | [] => Some ([], s3)
              end in
            match exp with
            | None => None
            | Some (e, s5) => Some (sign ++ int ++ f ++ e, s5)
            end
        end
  end.

(** [d[k] = v] on an insertion-ordered dictionary. *)
Fixpoint dict_set (d : list (text * value)) (k : text) (v : value)
    : list (text * value) :=
  match d with
  | [] => [(k, v)]
  | (k', v') :: d' =>
      if Py.eqt k' k then (k, v) :: d' else (k', v') :: dict_set d' k v
  end.

Definition strip_prefix (p s : text) : option text :=
  if Py.startswith s p then Some (skipn (List.length p) s) else None.

(** A value at the head of [s]; [elements] and [members] read what follows
    an opening bracket or brace. *)
Fixpoint parse_value (fuel : nat) (s : text) {struct fuel}
    : option (value * text) :=
  match fuel with
  | 0 => None
  | S fuel' =>
      match s with
      | [] => None
      | c :: s' =>
          if Py.eqc c lbrace then
            match skip_ws s' with
            | c2 :: s2 =>
                if Py.eqc c2 rbrace then Some (JObject [], s2)
                else members fuel' (c2 :: s2) []
            | [] => None
            end
          else if Py.eqc c lbracket then
            match skip_ws s' with
            | c2 :: s2 =>
                if Py.eqc c2 rbracket then Some (JArray [], s2)
                else elements fuel' (c2 :: s2) []
            | [] => None
            end
          else if Py.eqc c dquote then
            match string_body (List.length s') s' with
            | Some (str, rest) => Some (JString str, rest)
            | None => None
            end
          else
            match strip_prefix (Py.txt "true") s with
            | Some rest => Some (JBool true, rest)
            | None =>
                match strip_prefix (Py.txt "false") s with
                | Some rest => Some (JBool false, rest)
                | None =>
                    match strip_prefix (Py.txt "null") s with
                    | Some rest => Some (JNull, rest)
                    | None =>
                        match number s with
                        | Some (lx, rest) => Some (JNumber lx, rest)
                        | None => None
                        end
                    end
                end
            end
      end
  end
with elements (fuel : nat) (s : text) (acc : list value) {struct fuel}
    : option (value * text) :=
  match fuel with
  | 0 => None
  | S fuel' =>
      match parse_value fuel' s with
      | None => None
      | Some (v, rest) =>
          match skip_ws rest with
          | c :: rest' =>
              if Py.eqc c rbracket then Some (JArray (acc ++ [v]), rest')
              else if Py.eqc c comma
              then elements fuel' (skip_ws rest') (acc ++ [v])
              else None
          | [] => None
          end
      end
  end
with members (fuel : nat) (s : text) (acc : list (text * value))
    {struct fuel} : option (value * text) :=
  match fuel with
  | 0 => None
  | S fuel' =>
      match s with
      | c :: s' =>
          if Py.eqc c dquote then
            match string_body (List.length s') s' with
            | None => None
            | Some (k, rest) =>
                match skip_ws rest with
                | c2 :: rest2 =>
                    if Py.eqc c2 colon then
                      match parse_value fuel' (skip_ws rest2) with
                      | None => None
                      | Some (v, rest3) =>
                          match skip_ws rest3 with
                          | c3 :: rest4 =>
                              if Py.eqc c3 rbrace
                              then Some (JObject (dict_set acc k v), rest4)
                              else if Py.eqc c3 comma
                              then members fuel' (skip_ws rest4)
                                     (dict_set acc k v)
                              else None
                          | [] => None
                          end
                      end
                    else None
                | [] => None
                end
            end
          else None
      | [] => None
      end
  end.

(** The decoder: one value between optional white space, nothing else. *)
Definition loads (t : text) : decoded value :=
  match parse_value (2 * List.length t + 2) (skip_ws t) with
  | Some (v, rest) =>
      match skip_ws rest with
      | [] => Decoded v
      | _ :: _ => JSONDecodeError "trailing characters"
      end
  | None => JSONDecodeError "invalid JSON"
  end.

End Json.

(* ================================================================== *)
(** * Vocabulary of the specification *)
(* ================================================================== *)

(** ** Bracketed text *)

Definition is_opener (c : char) : bool := Py.eqc c lbrace || Py.eqc c lbracket.
Definition is_closer (c : char) : bool := Py.eqc c rbrace || Py.eqc c rbracket.

(** The closer an opener expects. *)
Definition closer_of (o : char) : char :=
  if Py.eqc o lbrace then rbrace else rbracket.

(** A character with no role in the scan: no bracket, quote or backslash. *)
Definition plain (c : char) : bool :=
  negb (Py.eqc c backslash || Py.eqc c dquote || is_opener c || is_closer c).

(** The inside of a double-quoted string: any characters, a quote or a
    backslash only as the second character of an escape pair. *)
Inductive StrBody : text -> Prop :=
| SB_nil : StrBody []
| SB_char c s :
    Py.eqc c dquote = false -> Py.eqc c backslash = false ->
    StrBody s -> StrBody (c :: s)
| SB_escape c s : StrBody s -> StrBody (backslash :: c :: s).

(** Properly paired text: plain characters, escape pairs, quoted strings
    (brackets inside them do not count) and bracketed groups whose closer
    is the one their opener expects, nested to any depth. *)
Inductive Balanced : text -> Prop :=
| B_nil : Balanced []
| B_plain c b : plain c = true -> Balanced b -> Balanced (c :: b)
| B_escape c b : Balanced b -> Balanced (backslash :: c :: b)
| B_string s b :
    StrBody s -> Balanced b -> Balanced (dquote :: s ++ dquote :: b)
| B_group o inner b :
    is_opener o = true -> Balanced inner -> Balanced b ->
    Balanced (o :: inner ++ closer_of o :: b).

(** [Pending stk s]: [s] is properly paired text in which the openers
    [stk] (innermost first) have been opened and not closed. *)
Inductive Pending : list char -> text -> Prop :=
| P_done b : Balanced b -> Pending [] b
| P_open stk s o b :
    Pending stk s -> is_opener o = true -> Balanced b ->
    Pending (o :: stk) (s ++ o :: b).

(** Text that runs to its end with an opener still open: the openers of a
    [Pending] text are never closed, and the text may break off inside a
    string or right after a backslash. *)
Inductive Dangling : text -> Prop :=
| D_pending stk s : Pending stk s -> Dangling s
| D_string stk s sb :
    Pending stk s -> StrBody sb -> Dangling (s ++ dquote :: sb)
| D_escape stk s : Pending stk s -> Dangling (s ++ [backslash])
| D_string_escape stk s sb :
    Pending stk s -> StrBody sb ->
    Dangling (s ++ dquote :: sb ++ [backslash]).

(** [Closes stk w]: [w] closes the open brackets [stk] (innermost first)
    one after the other, with properly paired text before each closer. *)
Inductive Closes : list char -> text -> Prop :=
| C_nil : Closes [] []
| C_cons o stk b w :
    Balanced b -> Closes stk w -> Closes (o :: stk) (b ++ closer_of o :: w).

(** What the scan reads from a given state until its stack is empty: the
    rest of a pending escape and of an open string first, then text that
    closes the stack. *)
Definition Shape (ins esc : bool) (stk : list char) (w : text) : Prop :=
  match stk with
  | [] => w = []
  | _ :: _ =>
      match ins, esc with
      | false, false => Closes stk w
      | false, true => exists c w', w = c :: w' /\ Closes stk w'
      | true, false =>
          exists sb w', w = sb ++ dquote :: w' /\ StrBody sb /\ Closes stk w'
      | true, true =>
          exists c sb w',
            w = c :: sb ++ dquote :: w' /\ StrBody sb /\ Closes stk w'
      end
  end.


(** ** The confidence formula of the brace-matching strategy *)

Definition clamp (lo hi x : float) : float :=
  if (x <? lo)%float then lo else if (hi <? x)%float then hi else x.

Definition bonus (b : bool) (x : float) : float := if b then x else 0%float.

(** Base 0.8, plus 0.05 for a double quote, plus 0.05 for a colon, minus 0.1
    for a span of fewer than ten characters, clamped to [0.5, 0.9]. *)
Definition brace_confidence_formula (has_quote has_colon short : bool)
    : float :=
  clamp 0.5 0.9
    (0.8 + bonus has_quote 0.05 + bonus has_colon 0.05 - bonus short 0.1)%float.

Definition spec_brace_confidence (raw : text) : float :=
  brace_confidence_formula
    (if in_dec N.eq_dec dquote raw then true else false)
    (if in_dec N.eq_dec colon raw then true else false)
    (if lt_dec (List.length raw) 10 then true else false).

(** ** The shape the direct strategy looks for *)

(** The text opens with a brace or bracket and ends with a closing brace or
    bracket, of either kind. *)
Definition direct_shape (s : text) : Prop :=
  exists o mid c, s = o :: mid ++ [c]
                  /\ is_opener o = true /\ is_closer c = true.

(** The same with the closer the opener expects. *)
Definition paired_shape (s : text) : Prop :=
  exists o mid, s = o :: mid ++ [closer_of o] /\ is_opener o = true.

(** ** Replaying the scan with a stack *)

(** The state after replaying the stack machine of the repairer (the scan
    of [_complete_truncated]) over a text. *)
Definition replay (s : text) : complete_state :=
  fold_left complete_step s complete_init.

(** Truncation as the specification words it: after the replay over the
    trimmed text the string is open, the stack is not empty, or an escape is
    pending. *)
Definition replay_truncated (t : text) : bool :=
  let s := replay (Py.strip t) in
  cs_in_string s
  || match cs_stack s with [] => false | _ :: _ => true end
  || cs_escape_next s.

(** The scan meets a closer outside a string that is not the one on top of
    the stack (the stack machine leaves such a closer aside). *)
Definition stray_closer (s : complete_state) (ch : char) : bool :=
  negb (cs_escape_next s) && negb (cs_in_string s) && is_closer ch
  && match cs_stack s with
     | top :: _ => negb (Py.eqc top ch)
     | [] => true
     end.

Fixpoint no_stray_closer_from (s : complete_state) (l : text) : bool :=
  match l with
  | [] => true
  | ch :: l' =>
      negb (stray_closer s ch) && no_stray_closer_from (complete_step s ch) l'
  end.

(** Every closer outside a string closes the bracket opened last. *)
Definition no_stray_closer (l : text) : bool :=
  no_stray_closer_from complete_init l.

(** The characters the scan reads as structure: those outside strings that
    are no backslash, no quote and not escaped; with them, the in-string and
    pending-escape flags at the end of the text. *)
Fixpoint structural_from (ins esc : bool) (l : text) : text * (bool * bool) :=
  match l with
  | [] => ([], (ins, esc))
  | ch :: l' =>
      if esc then structural_from ins false l'
      else if Py.eqc ch backslash then structural_from ins true l'
      else if Py.eqc ch dquote then structural_from (negb ins) false l'
      else if ins then structural_from ins false l'
      else let (r, f) := structural_from ins false l' in (ch :: r, f)
  end.

Definition occurrences (c : char) (l : text) : Z :=
  Z.of_nat (count_occ N.eq_dec l c).

(** Truncation by counting: the string is open, more braces were opened
    than closed, more brackets were opened than closed, or an escape is
    pending. *)
Definition count_truncated (t : text) : bool :=
  let (r, f) := structural_from false false (Py.strip t) in
  fst f
  || (occurrences rbrace r <? occurrences lbrace r)%Z
  || (occurrences rbracket r <? occurrences lbracket r)%Z
  || snd f.

(** ** Iterating the repair pass *)

(** [n] passes of the four rewrites, labels dropped. *)
Fixpoint passes (n : nat) (t : text) : text :=
  match n with
  | 0 => t
  | S n' => passes n' (fst (repair_pass t))
  end.

(** The rewrites reach a fixed point within [budget] passes: some pass
    among the first [budget] leaves its input unchanged. *)
Definition converges_within (budget : nat) (t : text) : Prop :=
  exists k, k < budget /\ fst (repair_pass (passes k t)) = passes k t.

(** ** Down-weighting after repair *)

(** The candidate's confidence, times 0.9 when repair labels were applied,
    times 0.8 again when the repair flagged truncation. *)
Definition adjusted_confidence (c : float) (repairs : list string)
    (truncated : bool) : float :=
  let weighted :=
    if Nat.eqb (List.length repairs) 0 then c else (c * 0.9)%float in
  if truncated then (weighted * 0.8)%float else weighted.

(** ** Confidences the detector hands out *)

Definition bools : list bool := [true; false].

Definition brace_confidences : list float :=
  flat_map
    (fun q =>
       flat_map
         (fun c => map (fun s => brace_confidence_formula q c s) bools)
         bools)
    bools.

Definition detector_confidences : list float :=
  [1.0; 0.95; 0.85; 0.6]%float ++ brace_confidences.

(** ** Properties of candidates and results *)

(** What every candidate of the strategy satisfies. *)
Definition brace_candidate_ok (t : text) (c : Candidate.t) : Prop :=
  Candidate.confidence c = spec_brace_confidence (Candidate.raw c)
  /\ Candidate.method c = BRACE_MATCH
  /\ Candidate.raw c = Py.slice t (Candidate.start_pos c) (Candidate.end_pos c).

(** The candidate's confidence is one the detector hands out. *)
Definition from_detector (c : Candidate.t) : Prop :=
  In (Candidate.confidence c) detector_confidences.

(** What the specification asks of a result: confidence in range; a failure
    carries no data and an error; a success carries no error; an error is
    of kind [NO_JSON_FOUND] or [INVALID_JSON]. *)
Definition result_ok {V : Type} (r : ExtractResult.t V) : Prop :=
  confidence_ok (ExtractResult.confidence r) = true
  /\ (ExtractResult.success r = false ->
      ExtractResult.data r = None /\ ExtractResult.error r <> None)
  /\ (ExtractResult.success r = true -> ExtractResult.error r = None)
  /\ (forall e, ExtractResult.error r = Some e ->
                error_type e = NO_JSON_FOUND \/ error_type e = INVALID_JSON).

(** The candidate yields nothing: its raw text does not decode and, when
    repair is on, neither does its repaired text. *)
Definition fails {V : Type} (loads : text -> decoded V) (repair : bool)
    (c : Candidate.t) : Prop :=
  exists e,
    loads (Candidate.raw c) = JSONDecodeError e
    /\ (repair = true ->
        exists e',
          loads
            (RepairResult.repaired
               (repair_json (Candidate.raw c) default_max_iterations))
          = JSONDecodeError e').

(** The order in which the candidates are attempted under [first] and
    [largest]. *)
Definition attempt_order (strat : strategy) (candidates : list Candidate.t)
    : list Candidate.t :=
  match strat with
  | Largest => rank_candidates (_sort_by_size candidates)
  | _ => rank_candidates candidates
  end.

(** The letters [str.isalnum] accepts above U+007F play no part in texts
    without fenced blocks; the closed examples leave them out. *)
Definition ascii_only (c : char) : bool := false.

(** ** Vocabulary of the further properties *)

(** A state of the stack machine of [_complete_truncated]. *)
Definition CS (stk : list char) (ins esc : bool) : complete_state :=
  {| cs_stack := stk; cs_in_string := ins; cs_escape_next := esc |}.

(** A balanced span: an opener, properly paired text, and the closer the
    opener expects. *)
Definition balanced_span (raw : text) : Prop :=
  exists o b, raw = o :: b ++ [closer_of o] /\ is_opener o = true /\ Balanced b.

(** What the brace matcher emits: a balanced span that is not flagged as
    truncated, cut from the text at the candidate's offsets. *)
Definition span_candidate (t : text) (c : Candidate.t) : Prop :=
  balanced_span (Candidate.raw c)
  /\ is_truncated_json (Candidate.raw c) = false
  /\ Candidate.raw c = Py.slice t (Candidate.start_pos c) (Candidate.end_pos c)
  /\ Candidate.start_pos c < Candidate.end_pos c
  /\ Candidate.end_pos c <= List.length t.

(** The first candidate ends where the second starts, or earlier. *)
Definition before (a b : Candidate.t) : Prop :=
  Candidate.end_pos a <= Candidate.start_pos b.

(** [s] is a contiguous part of [t]. *)
Definition substring (s t : text) : Prop := exists pre suf, t = pre ++ s ++ suf.

(** The raw text of a candidate has the shape the detector looks for and
    is the trimmed slice of the text between the candidate's offsets. *)
Definition candidate_shape (t : text) (c : Candidate.t) : Prop :=
  direct_shape (Candidate.raw c)
  /\ Candidate.raw c
     = Py.strip (Py.slice t (Candidate.start_pos c) (Candidate.end_pos c)).

(** Where a candidate comes from, by its method: the direct strategy emits
    the trimmed text with confidence 1.0; a fenced block carries 0.95 or
    0.85; a brace-matched span is a balanced span of the text with the
    confidence of the formula; a heuristic candidate is a balanced span
    with confidence 0.6. *)
Definition provenance (t : text) (c : Candidate.t) : Prop :=
  match Candidate.method c with
  | DIRECT_PARSE =>
      c = Candidate.mk (Py.strip t) 0 (List.length t) DIRECT_PARSE 1.0
  | MARKDOWN_FENCE =>
      Candidate.confidence c = 0.95%float
      \/ Candidate.confidence c = 0.85%float
  | BRACE_MATCH =>
      balanced_span (Candidate.raw c)
      /\ Candidate.raw c
         = Py.slice t (Candidate.start_pos c) (Candidate.end_pos c)
      /\ Candidate.confidence c
         = _calculate_brace_match_confidence (Candidate.raw c)
  | HEURISTIC =>
      balanced_span (Candidate.raw c)
      /\ Candidate.confidence c = 0.6%float
  end.

(** A candidate of a strategy other than the direct one. *)
Definition indirect (t : text) (c : Candidate.t) : Prop :=
  Candidate.method c <> DIRECT_PARSE /\ provenance t c.

(** In a list sorted in descending order, no element's key is below the
    key of a later one. *)
Definition not_below {A K : Type} (lt : K -> K -> bool) (key : A -> K)
    (a b : A) : Prop :=
  lt (key a) (key b) = false.

(** ** The rewrites of a repair pass, as functions on the text *)

(** One of the four characters [_cleanup_whitespace] removes. *)
Definition zero_width (c : char) : bool := Py.mem c zero_width_chars.

(** What [_normalize_quotes] does at one position: the character stays, or
    a single quote becomes a double quote. *)
Definition quote_swap (x y : char) : Prop :=
  y = x \/ (x = squote /\ y = dquote).

(** The number of blanks a text opens with. *)
Fixpoint blanks (l : text) : nat :=
  match l with
  | [] => 0
  | c :: l' => if Py.isspace c then S (blanks l') else 0
  end.

(** The text opens with blanks (possibly none) and then a closing brace or
    bracket. *)
Fixpoint closer_follows (l : text) : bool :=
  match l with
  | [] => false
  | c :: l' => if Py.isspace c then closer_follows l' else is_closer c
  end.

(** The text without the commas that blanks and a closer follow. *)
Fixpoint without_trailing_commas (l : text) : text :=
  match l with
  | [] => []
  | c :: l' =>
      if Py.eqc c comma && closer_follows l' then without_trailing_commas l'
      else c :: without_trailing_commas l'
  end.

(** The labels of the four rewrites, and those of completion. *)
Definition pass_label_names : list string :=
  ["trailing_comma_removal"; "quote_normalization"; "unquoted_key_fix";
   "bom_removal"; "invisible_char_removal"]%string.
Definition completion_label_names : list string :=
  ["string_completion"; "brace_completion"]%string.

(** ** Matches of a pattern *)

(** The pattern has no capturing group. *)
Fixpoint groupless (r : Re.regex) : bool :=
  match r with
  | Re.Eps | Re.Chr _ => true
  | Re.Cat r1 r2 | Re.Alt r1 r2 => groupless r1 && groupless r2
  | Re.Star _ r1 => groupless r1
  | Re.Grp _ _ => false
  end.

(** Matches in order from an offset on: each starts at or after the end of
    the one before, ends inside the text, and satisfies [P]. *)
Fixpoint matches_from (P : Re.rmatch_obj -> Prop) (len pos : nat)
    (ms : list Re.rmatch_obj) : Prop :=
  match ms with
  | [] => True
  | m :: ms' =>
      pos <= Re.m_start m /\ Re.m_start m <= Re.m_end m
      /\ Re.m_end m <= len /\ P m
      /\ matches_from P len (Re.m_end m) ms'
  end.

(** ** Results of the orchestrator *)

(** The error of a text without candidates. *)
Definition no_json_error (t : text) : ExtractError :=
  {| message :=
       if forallb Py.isspace t then "Empty input text"%string
       else "No JSON structure found in input"%string;
     error_type := NO_JSON_FOUND; position := None |}.

(** The result of a text without candidates. *)
Definition no_json_result (V : Type) (t : text) : ExtractResult.t V :=
  ExtractResult.mk false None None 0.0 None [] 0 (Some (no_json_error t)).

(** The labels the repair of a candidate reports. *)
Definition repair_labels (c : Candidate.t) : list string :=
  RepairResult.repairs_applied
    (repair_json (Candidate.raw c) default_max_iterations).

(** The value a candidate yields: that of its raw text or, with repair on,
    that of its repaired text. *)
Definition yielded {V : Type} (loads : text -> decoded V) (repair : bool)
    (c : Candidate.t) : option V :=
  match loads (Candidate.raw c) with
  | Decoded d => Some d
  | JSONDecodeError _ =>
      if repair then
        match loads (RepairResult.repaired
                       (repair_json (Candidate.raw c) default_max_iterations))
        with
        | Decoded d => Some d
        | JSONDecodeError _ => None
        end
      else None
  end.

(** The values the candidates yield, in the order of the candidates. *)
Definition yielded_values {V : Type} (loads : text -> decoded V)
    (repair : bool) (l : list Candidate.t) : list V :=
  flat_map
    (fun c => match yielded loads repair c with Some d => [d] | None => [] end)
    l.

(** What a result holds, given the number of candidates: the count; no
    label with repair off; on a success, the decoded raw text with its
    value and a method under [first] and [largest], a non-empty list of
    values under [all]; on a failure, nothing but the error. *)
Definition holds_well {V : Type} (loads : text -> decoded V) (repair : bool)
    (strat : strategy) (n : nat) (r : ExtractResult.t V) : Prop :=
  ExtractResult.candidates_found r = n
  /\ (repair = false -> ExtractResult.repairs_applied r = [])
  /\ (ExtractResult.success r = true ->
      match strat with
      | All =>
          ExtractResult.raw_json r = None
          /\ exists vs, vs <> [] /\ ExtractResult.data r = Some (Many vs)
      | _ =>
          exists s d,
            ExtractResult.raw_json r = Some s /\ loads s = Decoded d
            /\ ExtractResult.data r = Some (One d)
            /\ ExtractResult.method r <> None
      end)
  /\ (ExtractResult.success r = false ->
      ExtractResult.data r = None /\ ExtractResult.raw_json r = None
      /\ ExtractResult.method r = None
      /\ ExtractResult.confidence r = 0.0%float).

(** ** Fenced blocks *)

Definition backtick : char := 96%N.

(** The opening fence with its tag and line break, and the closing fence
    with the line break before it. *)
Definition fence_open : text := Py.txt "```json" ++ [newline].
Definition fence_close : text := newline :: Py.txt "```".

(** A run of the command line: the world, the arguments and what is
    expected. *)
Definition sample_world : Cli.World :=
  {| Cli.open_read := fun _ => Cli.FileNotFoundError;
     Cli.stdin_isatty := true; Cli.stdin_read := None |}.

Definition sample_args : Cli.Namespace :=
  {| Cli.ns_text := Some (Py.txt "{~key~: ~value~}");
     Cli.ns_file := None; Cli.ns_strategy := First;
     Cli.ns_all := false; Cli.ns_largest := false;
     Cli.ns_no_repair := false; Cli.ns_pretty := false;
     Cli.ns_compact := false; Cli.ns_verbose := false |}.

Definition sample_run : Cli.Run :=
  {| Cli.exit_code := 0; Cli.stdout := ["<json>"%string];
     Cli.stderr := [] |}.

(** ** Proof automation *)

(** Comparisons between the bracket characters, computed. *)
Ltac eqc_consts :=
  cbv beta iota delta
    [Py.eqc N.eqb Pos.eqb lbrace rbrace lbracket rbracket].
Ltac eqc_consts_in H :=
  cbv beta iota delta
    [Py.eqc N.eqb Pos.eqb lbrace rbrace lbracket rbracket] in H.

(* ================================================================== *)
(** * Facts about the Python primitives *)
(* ================================================================== *)

Unset Implicit Arguments.

Lemma eqc_true (a b : char) : Py.eqc a b = true <-> a = b.
Proof. unfold Py.eqc. apply N.eqb_eq. Qed.

Lemma eqc_false (a b : char) : Py.eqc a b = false <-> a <> b.
Proof. unfold Py.eqc. apply N.eqb_neq. Qed.

Lemma eqc_refl (a : char) : Py.eqc a a = true.
Proof. apply eqc_true. reflexivity. Qed.

Lemma eqt_true (a b : text) : Py.eqt a b = true <-> a = b.
Proof.
  revert b. induction a as [|x a IH]; intros [|y b]; simpl; split; intros H;
    try reflexivity; try discriminate.
  - apply andb_true_iff in H. destruct H as [H1 H2].
    apply eqc_true in H1. apply IH in H2. congruence.
  - injection H as -> ->. rewrite eqc_refl. simpl. apply IH. reflexivity.
Qed.

Lemma eqt_refl (a : text) : Py.eqt a a = true.
Proof. apply eqt_true. reflexivity. Qed.

Lemma mem_In (c : char) (s : text) : Py.mem c s = true <-> In c s.
Proof.
  unfold Py.mem. rewrite existsb_exists. split.
  - intros [x [Hin Hx]]. apply eqc_true in Hx. subst. exact Hin.
  - intros Hin. exists c. split; [exact Hin | apply eqc_refl].
Qed.

(** [lstrip] removes nothing from a text that starts with a visible
    character. *)
Lemma lstrip_head (c : char) (s : text) :
  Py.isspace c = false -> Py.lstrip (c :: s) = c :: s.
Proof. intros H. simpl. rewrite H. reflexivity. Qed.

Lemma lstrip_head_visible (s : text) (c : char) (r : text) :
  Py.lstrip s = c :: r -> Py.isspace c = false.
Proof.
  induction s as [|x s IH]; simpl; [discriminate|].
  destruct (Py.isspace x) eqn:E; [exact IH|].
  intros H. injection H as -> _. exact E.
Qed.

Lemma lstrip_idem (s : text) : Py.lstrip (Py.lstrip s) = Py.lstrip s.
Proof.
  destruct (Py.lstrip s) as [|c r] eqn:E; [reflexivity|].
  apply lstrip_head. eapply lstrip_head_visible. exact E.
Qed.

Lemma lstrip_snoc (l : text) (c : char) :
  Py.isspace c = false -> Py.lstrip (l ++ [c]) = Py.lstrip l ++ [c].
Proof.
  intros H. induction l as [|x l IH]; simpl.
  - rewrite H. reflexivity.
  - destruct (Py.isspace x); [exact IH | reflexivity].
Qed.

Lemma rstrip_cons (c : char) (r : text) :
  Py.isspace c = false -> Py.rstrip (c :: r) = c :: Py.rstrip r.
Proof.
  intros H. unfold Py.rstrip. simpl. rewrite lstrip_snoc by exact H.
  rewrite rev_app_distr. reflexivity.
Qed.

Lemma rstrip_idem (s : text) : Py.rstrip (Py.rstrip s) = Py.rstrip s.
Proof.
  unfold Py.rstrip. rewrite rev_involutive, lstrip_idem. reflexivity.
Qed.

(** [strip] is idempotent: [_looks_like_json] strips a text that
    [extract_direct] has stripped already. *)
Lemma strip_idem (s : text) : Py.strip (Py.strip s) = Py.strip s.
Proof.
  unfold Py.strip. destruct (Py.lstrip s) as [|c r] eqn:E; [reflexivity|].
  pose proof (lstrip_head_visible _ _ _ E) as Hc.
  rewrite (rstrip_cons _ _ Hc). rewrite (lstrip_head _ _ Hc).
  rewrite <- (rstrip_cons _ _ Hc). apply rstrip_idem.
Qed.

Lemma lstrip_blank (s : text) :
  forallb Py.isspace s = true -> Py.lstrip s = [].
Proof.
  induction s as [|c s IH]; simpl; [reflexivity|].
  intros H. apply andb_true_iff in H. destruct H as [Hc Hs].
  rewrite Hc. apply IH. exact Hs.
Qed.

(** A text of white space only strips to the empty text. *)
Lemma strip_blank (s : text) :
  forallb Py.isspace s = true -> Py.strip s = [].
Proof. intros H. unfold Py.strip. rewrite lstrip_blank by exact H. reflexivity. Qed.

(** The stable sort returns the elements it was given. *)
Lemma insert_desc_In (A K : Type) (lt : K -> K -> bool) (key : A -> K)
    (x y : A) (l : list A) :
  In y (Py.insert_desc lt key x l) <-> y = x \/ In y l.
Proof.
  induction l as [|z l IH]; simpl.
  - intuition congruence.
  - destruct (lt (key x) (key z)); simpl; rewrite ?IH; intuition congruence.
Qed.

Lemma sorted_desc_In (A K : Type) (lt : K -> K -> bool) (key : A -> K)
    (y : A) (l : list A) :
  In y (Py.sorted_desc lt key l) <-> In y l.
Proof.
  induction l as [|x l IH]; simpl; [tauto|].
  rewrite insert_desc_In, IH. intuition congruence.
Qed.

Lemma insert_desc_length (A K : Type) (lt : K -> K -> bool) (key : A -> K)
    (x : A) (l : list A) :
  List.length (Py.insert_desc lt key x l) = S (List.length l).
Proof.
  induction l as [|z l IH]; simpl; [reflexivity|].
  destruct (lt (key x) (key z)); simpl; [rewrite IH|]; reflexivity.
Qed.

Lemma sorted_desc_length (A K : Type) (lt : K -> K -> bool) (key : A -> K)
    (l : list A) :
  List.length (Py.sorted_desc lt key l) = List.length l.
Proof.
  induction l as [|x l IH]; simpl; [reflexivity|].
  rewrite insert_desc_length, IH. reflexivity.
Qed.

(* ================================================================== *)
(** * The balanced matcher *)
(* ================================================================== *)

Lemma mem_openers (c : char) : Py.mem c (Py.txt "{[") = is_opener c.
Proof.
  change (Py.txt "{[") with [lbrace; lbracket].
  unfold Py.mem, is_opener. simpl. rewrite orb_false_r. reflexivity.
Qed.

Lemma plain_inv (c : char) :
  plain c = true ->
  Py.eqc c backslash = false /\ Py.eqc c dquote = false
  /\ is_opener c = false /\ Py.eqc c rbrace = false
  /\ Py.eqc c rbracket = false.
Proof.
  unfold plain, is_closer. intros H. apply negb_true_iff in H.
  apply orb_false_iff in H. destruct H as [H Hc].
  apply orb_false_iff in H. destruct H as [H Ho].
  apply orb_false_iff in H. destruct H as [Hb Hq].
  apply orb_false_iff in Hc. destruct Hc as [Hc1 Hc2].
  repeat split; assumption.
Qed.

Lemma opener_inv (o : char) :
  is_opener o = true -> o = lbrace \/ o = lbracket.
Proof.
  unfold is_opener. intros H. apply orb_true_iff in H.
  destruct H as [H|H]; apply eqc_true in H; auto.
Qed.

Lemma closer_inv (c : char) :
  is_closer c = true -> c = rbrace \/ c = rbracket.
Proof.
  unfold is_closer. intros H. apply orb_true_iff in H.
  destruct H as [H|H]; apply eqc_true in H; auto.
Qed.

(** One iteration of the loop with a non-empty stack, as the source has
    it. *)
Lemma loop_unfold (start : nat) (ch : char) (rest : text) (i : nat)
    (top : char) (stk : list char) (ins esc : bool) :
  _match_braces_loop start (ch :: rest) i (top :: stk) ins esc =
  if esc then _match_braces_loop start rest (S i) (top :: stk) ins false
  else if Py.eqc ch backslash
  then _match_braces_loop start rest (S i) (top :: stk) ins true
  else if Py.eqc ch dquote && negb esc
  then _match_braces_loop start rest (S i) (top :: stk) (negb ins) esc
  else if ins then _match_braces_loop start rest (S i) (top :: stk) ins esc
  else if is_opener ch
  then _match_braces_loop start rest (S i) (ch :: top :: stk) ins esc
  else if Py.eqc ch rbrace then
    if Py.eqc top lbrace
    then _match_braces_loop start rest (S i) stk ins esc else None
  else if Py.eqc ch rbracket then
    if Py.eqc top lbracket
    then _match_braces_loop start rest (S i) stk ins esc else None
  else _match_braces_loop start rest (S i) (top :: stk) ins esc.
Proof. rewrite <- mem_openers. reflexivity. Qed.

Lemma opener_not_special (o : char) :
  is_opener o = true ->
  Py.eqc o backslash = false /\ Py.eqc o dquote = false.
Proof.
  intros Ho. destruct (opener_inv o Ho); subst; split; reflexivity.
Qed.

Lemma loop_escaped (start : nat) (ch : char) (rest : text) (i : nat)
    (top : char) (stk : list char) (ins : bool) :
  _match_braces_loop start (ch :: rest) i (top :: stk) ins true
  = _match_braces_loop start rest (S i) (top :: stk) ins false.
Proof. reflexivity. Qed.

Lemma loop_backslash (start : nat) (rest : text) (i : nat)
    (top : char) (stk : list char) (ins : bool) :
  _match_braces_loop start (backslash :: rest) i (top :: stk) ins false
  = _match_braces_loop start rest (S i) (top :: stk) ins true.
Proof. reflexivity. Qed.

Lemma loop_quote (start : nat) (rest : text) (i : nat)
    (top : char) (stk : list char) (ins : bool) :
  _match_braces_loop start (dquote :: rest) i (top :: stk) ins false
  = _match_braces_loop start rest (S i) (top :: stk) (negb ins) false.
Proof. reflexivity. Qed.

Lemma loop_in_string (start : nat) (ch : char) (rest : text) (i : nat)
    (top : char) (stk : list char) :
  Py.eqc ch dquote = false -> Py.eqc ch backslash = false ->
  _match_braces_loop start (ch :: rest) i (top :: stk) true false
  = _match_braces_loop start rest (S i) (top :: stk) true false.
Proof. intros Hq Hb. rewrite loop_unfold, Hb, Hq. reflexivity. Qed.

Lemma loop_plain (start : nat) (ch : char) (rest : text) (i : nat)
    (top : char) (stk : list char) :
  plain ch = true ->
  _match_braces_loop start (ch :: rest) i (top :: stk) false false
  = _match_braces_loop start rest (S i) (top :: stk) false false.
Proof.
  intros Hp. destruct (plain_inv ch Hp) as (H1 & H2 & H3 & H4 & H5).
  rewrite loop_unfold, H1, H2, H3, H4, H5. reflexivity.
Qed.

Lemma loop_open (start : nat) (o : char) (rest : text) (i : nat)
    (top : char) (stk : list char) :
  is_opener o = true ->
  _match_braces_loop start (o :: rest) i (top :: stk) false false
  = _match_braces_loop start rest (S i) (o :: top :: stk) false false.
Proof.
  intros Ho. destruct (opener_not_special o Ho) as [Hb Hq].
  rewrite loop_unfold, Hb, Hq, Ho. reflexivity.
Qed.

Lemma loop_close (start : nat) (o : char) (rest : text) (i : nat)
    (stk : list char) :
  is_opener o = true ->
  _match_braces_loop start (closer_of o :: rest) i (o :: stk) false false
  = _match_braces_loop start rest (S i) stk false false.
Proof.
  intros Ho. rewrite loop_unfold.
  destruct (opener_inv o Ho); subst o; reflexivity.
Qed.

(** A closer that is not the one the innermost opener expects ends the
    scan with no match. *)
Lemma loop_mismatch (start : nat) (c : char) (rest : text) (i : nat)
    (top : char) (stk : list char) :
  is_opener top = true -> is_closer c = true -> c <> closer_of top ->
  _match_braces_loop start (c :: rest) i (top :: stk) false false = None.
Proof.
  intros Ho Hc Hne. rewrite loop_unfold.
  destruct (opener_inv top Ho); destruct (closer_inv c Hc); subst;
    try reflexivity; exfalso; apply Hne; reflexivity.
Qed.

(** The scan crosses the inside of a string without touching the stack or
    leaving the string. *)
Lemma loop_string_units (start : nat) (sb : text) :
  StrBody sb ->
  forall rest i top stk,
    _match_braces_loop start (sb ++ rest) i (top :: stk) true false
    = _match_braces_loop start rest (i + List.length sb) (top :: stk)
        true false.
Proof.
  induction 1 as [|c s Hq Hb _ IH|c s _ IH]; intros rest i top stk;
    cbn [app List.length].
  - f_equal. lia.
  - rewrite loop_in_string by assumption. rewrite IH. f_equal. lia.
  - rewrite loop_backslash, loop_escaped, IH. f_equal. lia.
Qed.

(** The closing quote ends the string. *)
Lemma loop_string_body (start : nat) (sb : text) :
  StrBody sb ->
  forall rest i top stk,
    _match_braces_loop start (sb ++ dquote :: rest) i (top :: stk) true false
    = _match_braces_loop start rest (i + List.length sb + 1) (top :: stk)
        false false.
Proof.
  intros Hs rest i top stk. rewrite (loop_string_units start sb Hs).
  rewrite loop_quote. cbn [negb]. f_equal. lia.
Qed.

(** The scan crosses properly paired text and finds the stack as it left
    it. *)
Lemma loop_balanced (start : nat) (b : text) :
  Balanced b ->
  forall rest i top stk,
    _match_braces_loop start (b ++ rest) i (top :: stk) false false
    = _match_braces_loop start rest (i + List.length b) (top :: stk)
        false false.
Proof.
  induction 1 as [|c b Hp _ IH|c b _ IH|s b Hs _ IH
                 |o inner b Ho _ IHi _ IHb]; intros rest i top stk;
    cbn [app List.length].
  - f_equal. lia.
  - rewrite loop_plain by assumption. rewrite IH. f_equal. lia.
  - rewrite loop_backslash, loop_escaped, IH. f_equal. lia.
  - rewrite loop_quote. cbn [negb]. rewrite <- app_assoc. cbn [app].
    rewrite (loop_string_body start s Hs). rewrite IH.
    f_equal. rewrite length_app. cbn [List.length]. lia.
  - rewrite loop_open by assumption.
    rewrite <- app_assoc. cbn [app]. rewrite IHi.
    rewrite loop_close by assumption. rewrite IHb.
    f_equal. rewrite length_app. cbn [List.length]. lia.
Qed.

(** The scan crosses text with unclosed openers and leaves them on the
    stack, the innermost on top. *)
Lemma loop_pending (start : nat) (pend : list char) (s : text) :
  Pending pend s ->
  forall rest i top stk,
    _match_braces_loop start (s ++ rest) i (top :: stk) false false
    = _match_braces_loop start rest (i + List.length s)
        (pend ++ top :: stk) false false.
Proof.
  induction 1 as [b Hb|pend s o b _ IH Ho Hb]; intros rest i top stk.
  - cbn [app]. apply loop_balanced. exact Hb.
  - rewrite <- app_assoc. cbn [app]. rewrite IH.
    destruct (pend ++ top :: stk) as [|t' stk'] eqn:E;
      [destruct pend; discriminate|].
    rewrite loop_open by assumption.
    rewrite (loop_balanced start b Hb). f_equal.
    rewrite length_app. cbn [List.length]. lia.
Qed.

(** Entering the loop: the opener is read at [start] and the scan goes on
    right after it. *)
Lemma match_braces_enter (pre : text) (o : char) (rest : text) :
  is_opener o = true ->
  _match_braces (pre ++ o :: rest) (List.length pre)
  = _match_braces_loop (List.length pre) rest (S (List.length pre)) [o]
      false false.
Proof.
  intros Ho. unfold _match_braces.
  rewrite nth_error_app2 by lia. rewrite Nat.sub_diag. cbn [nth_error].
  rewrite mem_openers, Ho. cbn [negb].
  replace (skipn (S (List.length pre)) (pre ++ o :: rest)) with rest;
    [reflexivity|].
  rewrite skipn_app.
  rewrite skipn_all2 by lia.
  replace (S (List.length pre) - List.length pre) with 1 by lia.
  reflexivity.
Qed.

(** What the loop returns when it returns a span: it starts at [start]
    and ends at or after the position before the one the scan was at. *)
Lemma loop_result_bounds (rest : text) :
  forall start i stk ins esc s e,
    _match_braces_loop start rest i stk ins esc = Some (s, e) ->
    s = start /\ i - 1 <= e.
Proof.
  induction rest as [|ch rest IH]; intros start i stk ins esc s e H.
  - destruct stk; simpl in H; [|discriminate].
    injection H as <- <-. split; [reflexivity|lia].
  - destruct stk as [|top stk].
    + simpl in H. injection H as <- <-. split; [reflexivity|lia].
    + rewrite loop_unfold in H.
      repeat match type of H with
             | (if ?b then _ else _) = _ => destruct b
             end;
        try discriminate;
        apply IH in H; destruct H as [-> H]; split; try reflexivity; lia.
Qed.

Lemma match_braces_bounds (t : text) (i s e : nat) :
  _match_braces t i = Some (s, e) -> s = i /\ i <= e.
Proof.
  unfold _match_braces. destruct (nth_error t i); [|discriminate].
  destruct (negb _); [discriminate|].
  intros H. apply loop_result_bounds in H. destruct H as [-> H].
  split; [reflexivity|lia].
Qed.

(** With an empty stack the loop is left at once. *)
Lemma loop_done (start : nat) (rest : text) (i : nat) (ins esc : bool) :
  _match_braces_loop start rest i [] ins esc = Some (start, i - 1).
Proof. destruct rest; reflexivity. Qed.

(** At the end of the text a non-empty stack means no match. *)
Lemma loop_end (start i : nat) (top : char) (stk : list char)
    (ins esc : bool) :
  _match_braces_loop start [] i (top :: stk) ins esc = None.
Proof. reflexivity. Qed.

(** Text that leaves an opener open ends the scan with no match. *)
Lemma loop_dangling (start : nat) (s : text) :
  Dangling s ->
  forall i top stk,
    _match_braces_loop start s i (top :: stk) false false = None.
Proof.
  intros [pend s' Hp|pend s' sb Hp Hs|pend s' Hp|pend s' sb Hp Hs] i top stk.
  - rewrite <- (app_nil_r s'). rewrite (loop_pending start pend s' Hp).
    destruct (pend ++ top :: stk) eqn:E; [destruct pend; discriminate|].
    apply loop_end.
  - rewrite (loop_pending start pend s' Hp).
    destruct (pend ++ top :: stk) eqn:E; [destruct pend; discriminate|].
    rewrite loop_quote. cbn [negb].
    rewrite <- (app_nil_r sb). rewrite (loop_string_units start sb Hs).
    apply loop_end.
  - rewrite (loop_pending start pend s' Hp).
    destruct (pend ++ top :: stk) eqn:E; [destruct pend; discriminate|].
    rewrite loop_backslash. apply loop_end.
  - rewrite (loop_pending start pend s' Hp).
    destruct (pend ++ top :: stk) eqn:E; [destruct pend; discriminate|].
    rewrite loop_quote. cbn [negb].
    rewrite (loop_string_units start sb Hs).
    rewrite loop_backslash. apply loop_end.
Qed.

Lemma pending_openers (pend : list char) (s : text) :
  Pending pend s -> Forall (fun o => is_opener o = true) pend.
Proof.
  induction 1 as [b _|pend s o b _ IH Ho _]; constructor; assumption.
Qed.

(** A unit of properly paired text may be put in front of text that closes
    a stack. *)
Lemma closes_prepend (u : text) (o : char) (stk : list char) (w : text) :
  (forall b, Balanced b -> Balanced (u ++ b)) ->
  Closes (o :: stk) w -> Closes (o :: stk) (u ++ w).
Proof.
  intros Hu Hc. inversion Hc as [|o' stk' b w' Hb Hw]; subst.
  rewrite app_assoc. apply C_cons; [apply Hu; exact Hb|exact Hw].
Qed.

Lemma shape_closes (stk : list char) (w : text) :
  Shape false false stk w -> Closes stk w.
Proof.
  destruct stk; cbn [Shape]; intros H; [subst; constructor|exact H].
Qed.

(** When the loop returns a span, what it read has the shape its state
    asks for, and the span ends on the last character read. *)
Lemma loop_sound (rest : text) :
  forall start i stk ins esc s e,
    _match_braces_loop start rest i stk ins esc = Some (s, e) ->
    s = start
    /\ exists w suf,
         rest = w ++ suf /\ e = i + List.length w - 1 /\ Shape ins esc stk w.
Proof.
  induction rest as [|ch rest IH]; intros start i stk ins esc s e H.
  - destruct stk; [|discriminate]. cbn in H. injection H as <- <-.
    split; [reflexivity|]. exists [], []. repeat split. cbn. lia.
  - destruct stk as [|top stk].
    + rewrite loop_done in H. injection H as <- <-.
      split; [reflexivity|]. exists [], (ch :: rest). repeat split. cbn. lia.
    + rewrite loop_unfold in H.
      assert (Hstep :
        forall ins' esc' stk' w,
          (exists suf, rest = w ++ suf /\ e = S i + List.length w - 1
                       /\ Shape ins' esc' stk' w) ->
          Shape ins esc (top :: stk) (ch :: w) ->
          exists w0 suf,
            ch :: rest = w0 ++ suf /\ e = i + List.length w0 - 1
            /\ Shape ins esc (top :: stk) w0).
      { intros ins' esc' stk' w [suf [-> [-> _]]] Hsh.
        exists (ch :: w), suf. repeat split; [cbn; lia|exact Hsh]. }
      destruct esc.
      { apply IH in H. destruct H as [-> (w & suf & Hr & He & Hsh)].
        split; [reflexivity|].
        apply (Hstep ins false (top :: stk) w); [eauto|].
        cbn [Shape] in Hsh |- *. destruct ins.
        - destruct Hsh as (sb & w' & -> & Hsb & Hc). eauto 6.
        - eauto. }
      destruct (Py.eqc ch backslash) eqn:Eb.
      { apply eqc_true in Eb. subst ch.
        apply IH in H. destruct H as [-> (w & suf & Hr & He & Hsh)].
        split; [reflexivity|].
        apply (Hstep ins true (top :: stk) w); [eauto|].
        cbn [Shape] in Hsh |- *. destruct ins.
        - destruct Hsh as (c & sb & w' & -> & Hsb & Hc).
          exists (backslash :: c :: sb), w'. repeat split; [|exact Hc].
          apply SB_escape. exact Hsb.
        - destruct Hsh as (c & w' & -> & Hc).
          apply (closes_prepend [backslash; c]); [|exact Hc].
          intros b Hb. apply B_escape. exact Hb. }
      destruct (Py.eqc ch dquote) eqn:Eq; cbn [negb andb] in H.
      { apply eqc_true in Eq. subst ch.
        apply IH in H. destruct H as [-> (w & suf & Hr & He & Hsh)].
        split; [reflexivity|].
        apply (Hstep (negb ins) false (top :: stk) w); [eauto|].
        cbn [Shape] in Hsh |- *. destruct ins; cbn [negb] in Hsh.
        - exists [], w. repeat split; [constructor|exact Hsh].
        - destruct Hsh as (sb & w' & -> & Hsb & Hc).
          change (dquote :: sb ++ dquote :: w')
            with ((dquote :: sb) ++ dquote :: w').
          replace ((dquote :: sb) ++ dquote :: w')
            with ((dquote :: sb ++ [dquote]) ++ w')
            by (cbn [app]; rewrite <- app_assoc; reflexivity).
          apply closes_prepend; [|exact Hc].
          intros b Hb. cbn [app]. rewrite <- app_assoc. cbn [app].
          apply B_string; assumption. }
      destruct ins.
      { apply IH in H. destruct H as [-> (w & suf & Hr & He & Hsh)].
        split; [reflexivity|].
        apply (Hstep true false (top :: stk) w); [eauto|].
        cbn [Shape] in Hsh |- *.
        destruct Hsh as (sb & w' & -> & Hsb & Hc).
        exists (ch :: sb), w'. repeat split; [|exact Hc].
        apply SB_char; assumption. }
      destruct (is_opener ch) eqn:Eo.
      { apply IH in H. destruct H as [-> (w & suf & Hr & He & Hsh)].
        split; [reflexivity|].
        apply (Hstep false false (ch :: top :: stk) w); [eauto|].
        cbn [Shape] in Hsh |- *.
        inversion Hsh as [|o' stk' b w' Hb Hw]; subst.
        replace (ch :: b ++ closer_of ch :: w')
          with ((ch :: b ++ [closer_of ch]) ++ w')
          by (cbn [app]; rewrite <- app_assoc; reflexivity).
        apply closes_prepend; [|exact Hw].
        intros b' Hb'. cbn [app]. rewrite <- app_assoc. cbn [app].
        apply B_group; assumption. }
      destruct (Py.eqc ch rbrace) eqn:E1.
      { apply eqc_true in E1. subst ch.
        destruct (Py.eqc top lbrace) eqn:Et; [|discriminate].
        apply eqc_true in Et. subst top.
        apply IH in H. destruct H as [-> (w & suf & Hr & He & Hsh)].
        split; [reflexivity|].
        apply (Hstep false false stk w); [eauto|].
        cbn [Shape]. apply (@C_cons lbrace stk [] w); [constructor|].
        apply shape_closes. exact Hsh. }
      destruct (Py.eqc ch rbracket) eqn:E2.
      { apply eqc_true in E2. subst ch.
        destruct (Py.eqc top lbracket) eqn:Et; [|discriminate].
        apply eqc_true in Et. subst top.
        apply IH in H. destruct H as [-> (w & suf & Hr & He & Hsh)].
        split; [reflexivity|].
        apply (Hstep false false stk w); [eauto|].
        cbn [Shape]. apply (@C_cons lbracket stk [] w); [constructor|].
        apply shape_closes. exact Hsh. }
      apply IH in H. destruct H as [-> (w & suf & Hr & He & Hsh)].
      split; [reflexivity|].
      apply (Hstep false false (top :: stk) w); [eauto|].
      cbn [Shape] in Hsh |- *.
      apply (closes_prepend [ch]); [|exact Hsh].
      intros b Hb. apply B_plain; [|exact Hb].
      unfold plain, is_closer. rewrite Eb, Eq, Eo, E1, E2. reflexivity.
Qed.

(** A span is returned only for an opener followed by properly paired text
    and the closer the opener expects. *)
Lemma match_braces_sound (t : text) (start s e : nat) :
  _match_braces t start = Some (s, e) ->
  exists pre o b suf,
    t = pre ++ o :: b ++ closer_of o :: suf
    /\ List.length pre = start /\ is_opener o = true /\ Balanced b
    /\ s = start /\ e = start + List.length b + 1.
Proof.
  unfold _match_braces.
  destruct (nth_error t start) as [o|] eqn:Hn; [|discriminate].
  rewrite mem_openers. destruct (is_opener o) eqn:Ho; cbn [negb];
    [|discriminate].
  intros H. apply nth_error_split in Hn.
  destruct Hn as (pre & l2 & -> & Hlen).
  replace (skipn (S start) (pre ++ o :: l2)) with l2 in H.
  - apply loop_sound in H. destruct H as [-> (w & suf & -> & -> & Hsh)].
    cbn [Shape] in Hsh.
    inversion Hsh as [|o' stk' b w' Hb Hw]; subst.
    inversion Hw; subst.
    exists pre, o, b, suf. repeat split; try assumption.
    + rewrite <- app_assoc. reflexivity.
    + rewrite length_app. cbn [List.length]. lia.
  - rewrite skipn_app, skipn_all2 by lia.
    replace (S start - List.length pre) with 1 by lia. reflexivity.
Qed.

(** C5 (balanced-match correctness).  [_match_braces], started on an opener
    at offset [length pre]:
    - when properly paired text [b] (nested groups, strings, escape pairs)
      and then the closer the opener expects follow, returns the span from
      the opener to that closer, whatever comes after;
    - when the rest of the text leaves the opener, or openers nested in it,
      unclosed (the text may also break off inside a string or after a
      backslash), returns no match;
    - when a closer arrives that is not the one the innermost open bracket
      expects, returns no match;
    - a double quote flips the in-string flag when no escape is pending and
      is skipped, flag unchanged, when one is; a bracket read inside a
      string leaves the stack alone;
    - it returns a span for no other text: whenever a span comes back, the
      text is an opener at [start], properly paired text, and the closer the
      opener expects, at the offset returned. *)
Theorem match_braces_correct :
  (forall pre o b suf,
     is_opener o = true -> Balanced b ->
     _match_braces (pre ++ o :: b ++ closer_of o :: suf) (List.length pre)
     = Some (List.length pre, List.length pre + List.length b + 1))
  /\ (forall pre o s,
        is_opener o = true -> Dangling s ->
        _match_braces (pre ++ o :: s) (List.length pre) = None)
  /\ (forall pre o pend s c suf,
        is_opener o = true -> Pending pend s ->
        is_closer c = true -> c <> closer_of (hd o pend) ->
        _match_braces (pre ++ o :: s ++ c :: suf) (List.length pre) = None)
  /\ (forall start rest i top stk ins,
        _match_braces_loop start (dquote :: rest) i (top :: stk) ins false
        = _match_braces_loop start rest (S i) (top :: stk) (negb ins) false
        /\ _match_braces_loop start (dquote :: rest) i (top :: stk) ins true
           = _match_braces_loop start rest (S i) (top :: stk) ins false)
  /\ (forall start c rest i top stk,
        is_opener c || is_closer c = true ->
        _match_braces_loop start (c :: rest) i (top :: stk) true false
        = _match_braces_loop start rest (S i) (top :: stk) true false)
  /\ (forall t start s e,
        _match_braces t start = Some (s, e) ->
        exists pre o b suf,
          t = pre ++ o :: b ++ closer_of o :: suf
          /\ List.length pre = start /\ is_opener o = true /\ Balanced b
          /\ s = start /\ e = start + List.length b + 1).
Proof.
  split; [|split; [|split; [|split; [|split; [|exact match_braces_sound]]]]].
  - intros pre o b suf Ho Hb.
    rewrite match_braces_enter by exact Ho.
    rewrite (loop_balanced _ b Hb).
    rewrite loop_close by exact Ho.
    rewrite loop_done. f_equal. f_equal. lia.
  - intros pre o s Ho Hd.
    rewrite match_braces_enter by exact Ho.
    apply loop_dangling. exact Hd.
  - intros pre o pend s c suf Ho Hp Hc Hne.
    rewrite match_braces_enter by exact Ho.
    rewrite (loop_pending _ pend s Hp).
    pose proof (pending_openers pend s Hp) as Hall.
    destruct pend as [|p pend]; cbn [app hd] in *.
    + apply loop_mismatch; assumption.
    + apply loop_mismatch; try assumption.
      inversion Hall; assumption.
  - intros start rest i top stk ins. split; reflexivity.
  - intros start c rest i top stk Hc.
    apply loop_in_string.
    + apply orb_true_iff in Hc. destruct Hc as [Hc|Hc].
      * destruct (opener_inv c Hc); subst; reflexivity.
      * destruct (closer_inv c Hc); subst; reflexivity.
    + apply orb_true_iff in Hc. destruct Hc as [Hc|Hc].
      * destruct (opener_inv c Hc); subst; reflexivity.
      * destruct (closer_inv c Hc); subst; reflexivity.
Qed.

(** The object body [~a~: [1, ~}~]] (a tilde for a double quote) is
    properly paired: the closing brace in it stands inside a string. *)
Lemma sample_body_balanced : Balanced (Py.txt "~a~: [1, ~}~]").
Proof.
  change (Balanced (dquote :: Py.txt "a" ++ dquote :: Py.txt ": [1, ~}~]")).
  apply B_string.
  - apply SB_char; [reflexivity|reflexivity|apply SB_nil].
  - apply B_plain; [reflexivity|]. apply B_plain; [reflexivity|].
    change (Balanced (lbracket :: Py.txt "1, ~}~" ++ closer_of lbracket :: [])).
    apply B_group; [reflexivity| |apply B_nil].
    apply B_plain; [reflexivity|]. apply B_plain; [reflexivity|].
    apply B_plain; [reflexivity|].
    change (Balanced (dquote :: Py.txt "}" ++ dquote :: [])).
    apply B_string; [|apply B_nil].
    apply SB_char; [reflexivity|reflexivity|apply SB_nil].
Qed.

(** The matcher on [x{~a~: [1, ~}~]} y], started at offset 1. *)
Lemma match_braces_correct_witness :
  _match_braces (Py.txt "x{~a~: [1, ~}~]} y") 1 = Some (1, 15).
Proof.
  exact (proj1 match_braces_correct (Py.txt "x") lbrace
           (Py.txt "~a~: [1, ~}~]") (Py.txt " y") eq_refl
           sample_body_balanced).
Defined.

(* ================================================================== *)
(** * The brace-matching strategy *)
(* ================================================================== *)

Lemma mem_in_dec (c : char) (s : text) :
  Py.mem c s = if in_dec N.eq_dec c s then true else false.
Proof.
  destruct (in_dec N.eq_dec c s) as [Hin|Hnin].
  - apply mem_In. exact Hin.
  - destruct (Py.mem c s) eqn:E; [|reflexivity].
    apply mem_In in E. contradiction.
Qed.

Lemma ltb_lt_dec (n m : nat) :
  Nat.ltb n m = if lt_dec n m then true else false.
Proof.
  destruct (lt_dec n m) as [H|H].
  - apply Nat.ltb_lt. exact H.
  - apply Nat.ltb_ge. lia.
Qed.

(** The code's confidence is the formula's value, in binary64 arithmetic. *)
Lemma calculate_confidence_formula (raw : text) :
  _calculate_brace_match_confidence raw = spec_brace_confidence raw.
Proof.
  unfold _calculate_brace_match_confidence, spec_brace_confidence.
  rewrite <- !mem_in_dec, <- ltb_lt_dec.
  destruct (Py.mem dquote raw), (Py.mem colon raw),
    (Nat.ltb (List.length raw) 10); reflexivity.
Qed.

Lemma formula_in_range (q c s : bool) :
  confidence_ok (brace_confidence_formula q c s) = true
  /\ (0.5 <=? brace_confidence_formula q c s)%float = true
  /\ (brace_confidence_formula q c s <=? 0.9)%float = true.
Proof. destruct q, c, s; repeat split; reflexivity. Qed.

Lemma calculate_confidence_ok (raw : text) :
  confidence_ok (_calculate_brace_match_confidence raw) = true.
Proof.
  rewrite calculate_confidence_formula. unfold spec_brace_confidence.
  apply formula_in_range.
Qed.

(** The loop never needs more iterations than it is given: past
    [len(text) - i] the fuel does not matter. *)
Lemma brace_loop_fuel (t : text) (n : nat) :
  forall m i acc,
    List.length t - i < n -> List.length t - i < m ->
    brace_loop n t i acc = brace_loop m t i acc.
Proof.
  induction n as [|n IH]; intros m i acc Hn Hm; [lia|].
  destruct m as [|m]; [lia|].
  cbn [brace_loop].
  destruct (nth_error t i) as [ch|] eqn:Hi; [|reflexivity].
  assert (Hlt : i < List.length t)
    by (apply nth_error_Some; rewrite Hi; discriminate).
  destruct (Py.mem ch (Py.txt "{[")).
  - destruct (_match_braces t i) as [[s e]|] eqn:Hm'.
    + apply match_braces_bounds in Hm'. destruct Hm' as [-> He].
      destruct (Candidate.new _ _ _ _ _); cbn [bind]; [|reflexivity].
      apply IH; lia.
    + apply IH; lia.
  - apply IH; lia.
Qed.

Lemma brace_loop_ok (t : text) (fuel : nat) :
  forall i acc,
    Forall (brace_candidate_ok t) acc ->
    exists cands,
      brace_loop fuel t i acc = Ret cands
      /\ Forall (brace_candidate_ok t) cands.
Proof.
  induction fuel as [|fuel IH]; intros i acc Hacc; cbn [brace_loop].
  - exists acc. split; [reflexivity|exact Hacc].
  - destruct (nth_error t i) as [ch|]; [|exists acc; split; auto].
    destruct (Py.mem ch (Py.txt "{[")); [|apply IH; exact Hacc].
    destruct (_match_braces t i) as [[s e]|]; [|apply IH; exact Hacc].
    unfold Candidate.new. rewrite calculate_confidence_ok. cbn [bind].
    apply IH. apply Forall_app. split; [exact Hacc|].
    constructor; [|constructor].
    repeat split. cbn. apply calculate_confidence_formula.
Qed.

(** The strategy returns, and each of its candidates satisfies
    [brace_candidate_ok]. *)
Lemma brace_match_confidence_formula_aux (t : text) :
  exists cands,
    extract_from_brace_matching t = Ret cands
    /\ Forall (brace_candidate_ok t) cands.
Proof.
  unfold extract_from_brace_matching. apply (brace_loop_ok t). constructor.
Qed.

(** C6 (confidence of a brace-matched span).  [extract_from_brace_matching]
    returns on every text, and the confidence of every candidate it returns
    is the value of the formula on the candidate's span: base 0.8, plus 0.05
    when the span holds a double quote, plus 0.05 when it holds a colon,
    minus 0.1 when it is shorter than ten characters, clamped to
    [0.5, 0.9].  The candidate carries the method [BRACE_MATCH] and its span
    is the slice of the text between its offsets. *)
Theorem brace_match_confidence_formula :
  forall t : text,
  exists cands,
    extract_from_brace_matching t = Ret cands
    /\ Forall
         (fun c =>
            Candidate.confidence c = spec_brace_confidence (Candidate.raw c)
            /\ Candidate.method c = BRACE_MATCH
            /\ Candidate.raw c
               = Py.slice t (Candidate.start_pos c) (Candidate.end_pos c))
         cands.
Proof.
  intros t. unfold extract_from_brace_matching.
  apply (brace_loop_ok t). constructor.
Qed.

(* ================================================================== *)
(** * The direct strategy *)
(* ================================================================== *)

Lemma mem_closers (c : char) : Py.mem c (Py.txt "}}]") = is_closer c.
Proof.
  change (Py.txt "}}]") with [rbrace; rbrace; rbracket].
  unfold Py.mem, is_closer. cbn [existsb].
  destruct (Py.eqc c rbrace), (Py.eqc c rbracket); reflexivity.
Qed.

Lemma last_char_snoc (l : text) (c : char) : Py.last_char (l ++ [c]) = Some c.
Proof. unfold Py.last_char. rewrite rev_app_distr. reflexivity. Qed.

Lemma last_char_Some (x : text) (c : char) :
  Py.last_char x = Some c -> exists l, x = l ++ [c].
Proof.
  unfold Py.last_char. destruct (rev x) as [|d l'] eqn:E; [discriminate|].
  intros H. injection H as ->. exists (rev l').
  rewrite <- (rev_involutive x), E. reflexivity.
Qed.

Lemma opener_not_closer (c : char) :
  is_opener c = true -> is_closer c = true -> False.
Proof.
  intros Ho Hc. destruct (opener_inv c Ho); destruct (closer_inv c Hc);
    subst; discriminate.
Qed.

(** The quick filter accepts exactly the texts whose trimmed form opens
    with a brace or bracket and ends with a closing brace or bracket. *)
Lemma looks_like_json_shape (s : text) :
  _looks_like_json s = true <-> direct_shape (Py.strip s).
Proof.
  unfold _looks_like_json, direct_shape. split.
  - destruct (Py.strip s) as [|c0 r] eqn:E; [discriminate|].
    rewrite mem_openers.
    destruct (is_opener c0) eqn:Ho; cbn [negb]; [|discriminate].
    destruct (Py.last_char (c0 :: r)) as [cl|] eqn:El; [|discriminate].
    rewrite mem_closers. intros Hc.
    apply last_char_Some in El. destruct El as [l El].
    destruct l as [|x mid]; cbn [app] in El.
    + injection El as -> _. exfalso. eapply opener_not_closer; eassumption.
    + injection El as -> ->. exists x, mid, cl. auto.
  - intros (o & mid & c & E & Ho & Hc). rewrite E.
    rewrite mem_openers, Ho. cbn [negb].
    change (o :: mid ++ [c]) with ((o :: mid) ++ [c]).
    rewrite last_char_snoc, mem_closers. exact Hc.
Qed.

(** C3, as the code has it (direct detection).  [extract_direct] emits one
    candidate, the trimmed text with offsets 0 and [len(text)], method
    [DIRECT_PARSE] and confidence 1.0, exactly when the trimmed text opens
    with a brace or bracket and ends with a closing brace or bracket of
    either kind; otherwise it emits none.  The closer need not be the one
    the opener expects. *)
Theorem extract_direct_shape :
  forall t : text,
    (direct_shape (Py.strip t) ->
     extract_direct t
     = Ret [Candidate.mk (Py.strip t) 0 (List.length t) DIRECT_PARSE 1.0])
    /\ (~ direct_shape (Py.strip t) -> extract_direct t = Ret []).
Proof.
  intros t. unfold extract_direct.
  destruct (Py.strip t) as [|c0 r] eqn:E.
  - split; [|reflexivity].
    intros (o & mid & c & H & _). discriminate.
  - rewrite <- E. split; intros H.
    + assert (Hl : _looks_like_json (Py.strip t) = true)
        by (apply looks_like_json_shape; rewrite strip_idem; exact H).
      rewrite Hl. reflexivity.
    + destruct (_looks_like_json (Py.strip t)) eqn:Hl; [|reflexivity].
      exfalso. apply H. rewrite <- strip_idem.
      apply looks_like_json_shape. exact Hl.
Qed.

(** The text [{]] opens with a brace and ends with a bracket: the closer is
    not the one its opener expects, and the direct strategy still emits a
    candidate for it. *)
Lemma extract_direct_crossed :
  ~ paired_shape (Py.strip (Py.txt "{]"))
  /\ extract_direct (Py.txt "{]")
     = Ret [Candidate.mk (Py.txt "{]") 0 2 DIRECT_PARSE 1.0].
Proof.
  split; [|reflexivity].
  intros (o & mid & H & Ho).
  change (Py.strip (Py.txt "{]")) with [lbrace; rbracket] in H.
  injection H as <- H.
  destruct mid as [|x [|y m]]; discriminate.
Qed.

(** The direct strategy on [  {]  ] and on [{~a~] (no closer at the end). *)
Lemma extract_direct_shape_witness :
  extract_direct (Py.txt "  {]  ")
  = Ret [Candidate.mk (Py.txt "{]") 0 6 DIRECT_PARSE 1.0]
  /\ extract_direct (Py.txt "{~a~") = Ret [].
Proof.
  split.
  - apply (proj1 (extract_direct_shape (Py.txt "  {]  "))).
    exists lbrace, [], rbracket. repeat split.
  - apply (proj2 (extract_direct_shape (Py.txt "{~a~"))).
    intros (o & mid & c & H & Ho & Hc).
    change (Py.strip (Py.txt "{~a~")) with ([lbrace; dquote; 97%N] ++ [dquote])
      in H.
    change (o :: mid ++ [c]) with ((o :: mid) ++ [c]) in H.
    apply app_inj_tail in H. destruct H as [_ <-]. discriminate.
Defined.

(* ================================================================== *)
(** * Truncation detection *)
(* ================================================================== *)

Lemma occurrences_nil (c : char) : occurrences c [] = 0%Z.
Proof. reflexivity. Qed.

Lemma occurrences_cons (c ch : char) (r : text) :
  occurrences c (ch :: r)
  = ((if Py.eqc ch c then 1 else 0) + occurrences c r)%Z.
Proof.
  unfold occurrences. cbn [count_occ].
  destruct (N.eq_dec ch c) as [->|Hne].
  - rewrite eqc_refl. lia.
  - apply eqc_false in Hne. rewrite Hne. lia.
Qed.

Lemma occurrences_nonneg (c : char) (r : text) : (0 <= occurrences c r)%Z.
Proof. unfold occurrences. lia. Qed.

(** The counters of [is_truncated_json] after a scan: what they were, plus
    the openers and minus the closers read as structure. *)
Lemma trunc_fold (l : text) :
  forall ob ok ins esc,
    fold_left trunc_step l
      {| open_braces := ob; open_brackets := ok;
         ts_in_string := ins; ts_escape_next := esc |}
    = let (r, f) := structural_from ins esc l in
      {| open_braces := ob + occurrences lbrace r - occurrences rbrace r;
         open_brackets :=
           ok + occurrences lbracket r - occurrences rbracket r;
         ts_in_string := fst f; ts_escape_next := snd f |}.
Proof.
  induction l as [|ch l IH]; intros ob ok ins esc.
  - cbn. f_equal; lia.
  - cbn [fold_left structural_from]. unfold trunc_step at 2.
    cbn [ts_escape_next ts_in_string open_braces open_brackets].
    destruct esc; [apply IH|].
    destruct (Py.eqc ch backslash) eqn:Eb; [apply IH|].
    destruct (Py.eqc ch dquote) eqn:Eq; [apply IH|].
    destruct ins; [apply IH|].
    destruct (Py.eqc ch lbrace) eqn:E1;
      [|destruct (Py.eqc ch rbrace) eqn:E2;
        [|destruct (Py.eqc ch lbracket) eqn:E3;
          [|destruct (Py.eqc ch rbracket) eqn:E4]]];
      rewrite IH; destruct (structural_from false false l) as [r f];
      rewrite !occurrences_cons;
      try (apply eqc_true in E1; subst ch);
      try (apply eqc_true in E2; subst ch);
      try (apply eqc_true in E3; subst ch);
      try (apply eqc_true in E4; subst ch);
      rewrite ?E1, ?E2, ?E3, ?E4; eqc_consts; f_equal; lia.
Qed.

(** [is_truncated_json] decides truncation by counting. *)
Lemma is_truncated_json_count (t : text) :
  is_truncated_json t = count_truncated t.
Proof.
  unfold is_truncated_json, count_truncated.
  destruct (Py.strip t) as [|c0 r0] eqn:E; [reflexivity|].
  unfold trunc_init. rewrite trunc_fold.
  destruct (structural_from false false (c0 :: r0)) as [r [fi fe]].
  cbn [open_braces open_brackets ts_in_string ts_escape_next fst snd].
  replace (0 <? 0 + occurrences lbrace r - occurrences rbrace r)%Z
    with (occurrences rbrace r <? occurrences lbrace r)%Z
    by (apply eq_iff_eq_true; rewrite !Z.ltb_lt; lia).
  replace (0 <? 0 + occurrences lbracket r - occurrences rbracket r)%Z
    with (occurrences rbracket r <? occurrences lbracket r)%Z
    by (apply eq_iff_eq_true; rewrite !Z.ltb_lt; lia).
  destruct fi; [reflexivity|]. cbn [orb].
  destruct (_ || _); reflexivity.
Qed.

Lemma mem_closers2 (c : char) : Py.mem c (Py.txt "}]") = is_closer c.
Proof.
  change (Py.txt "}]") with [rbrace; rbracket].
  unfold Py.mem, is_closer. cbn [existsb]. rewrite orb_false_r. reflexivity.
Qed.

(** The stack machine, on a text with no stray closer: its flags are those
    of the structural scan, its stack holds closers only, and the closers
    of each kind on it are those the stack held plus the openers and minus
    the closers of that kind read as structure. *)
Lemma replay_fold (l : text) :
  forall stk ins esc r f,
    no_stray_closer_from
      {| cs_stack := stk; cs_in_string := ins; cs_escape_next := esc |} l
    = true ->
    Forall (fun c => is_closer c = true) stk ->
    structural_from ins esc l = (r, f) ->
    forall s',
      s' = fold_left complete_step l
             {| cs_stack := stk; cs_in_string := ins; cs_escape_next := esc |} ->
      cs_in_string s' = fst f /\ cs_escape_next s' = snd f
      /\ Forall (fun c => is_closer c = true) (cs_stack s')
      /\ occurrences rbrace (cs_stack s')
         = (occurrences rbrace stk + occurrences lbrace r
            - occurrences rbrace r)%Z
      /\ occurrences rbracket (cs_stack s')
         = (occurrences rbracket stk + occurrences lbracket r
            - occurrences rbracket r)%Z.
Proof.
  induction l as [|ch l IH]; intros stk ins esc r f Hns Hall Hsf s' Hs'.
  - cbn in Hsf, Hs'. injection Hsf as <- <-. subst s'. cbn.
    repeat split; try assumption; lia.
  - cbn [no_stray_closer_from] in Hns. apply andb_true_iff in Hns.
    destruct Hns as [Hstray Hns]. apply negb_true_iff in Hstray.
    unfold stray_closer in Hstray.
    cbn [cs_stack cs_in_string cs_escape_next] in Hstray.
    cbn [fold_left] in Hs'. cbn [structural_from] in Hsf.
    remember (complete_step
                {| cs_stack := stk; cs_in_string := ins;
                   cs_escape_next := esc |} ch) as s1 eqn:Hs1.
    unfold complete_step in Hs1.
    cbn [cs_stack cs_in_string cs_escape_next] in Hs1.
    destruct esc; [subst s1; exact (IH _ _ _ _ _ Hns Hall Hsf _ Hs')|].
    destruct (Py.eqc ch backslash) eqn:Eb;
      [subst s1; exact (IH _ _ _ _ _ Hns Hall Hsf _ Hs')|].
    destruct (Py.eqc ch dquote) eqn:Eq;
      [subst s1; exact (IH _ _ _ _ _ Hns Hall Hsf _ Hs')|].
    destruct ins; [subst s1; exact (IH _ _ _ _ _ Hns Hall Hsf _ Hs')|].
    cbn [negb andb] in Hstray. rewrite mem_closers2 in Hs1.
    destruct (structural_from false false l) as [r' f'] eqn:Hsf'.
    injection Hsf as <- <-. rewrite !occurrences_cons.
    destruct (Py.eqc ch lbrace) eqn:E1.
    { apply eqc_true in E1. subst ch s1.
      assert (Hall' : Forall (fun c => is_closer c = true) (rbrace :: stk))
        by (constructor; [reflexivity|exact Hall]).
      destruct (IH _ _ _ _ _ Hns Hall' Hsf' _ Hs') as (H1 & H2 & H3 & H4 & H5).
      rewrite !occurrences_cons in H4, H5.
      eqc_consts_in H4. eqc_consts_in H5. eqc_consts.
      repeat split; try assumption; lia. }
    destruct (Py.eqc ch lbracket) eqn:E3.
    { apply eqc_true in E3. subst ch s1.
      assert (Hall' : Forall (fun c => is_closer c = true) (rbracket :: stk))
        by (constructor; [reflexivity|exact Hall]).
      destruct (IH _ _ _ _ _ Hns Hall' Hsf' _ Hs') as (H1 & H2 & H3 & H4 & H5).
      rewrite !occurrences_cons in H4, H5.
      eqc_consts_in H4. eqc_consts_in H5. eqc_consts.
      repeat split; try assumption; lia. }
    destruct (is_closer ch) eqn:Ec.
    { destruct stk as [|top stk']; [discriminate|].
      cbn [andb] in Hstray. apply negb_false_iff in Hstray.
      rewrite Hstray in Hs1. apply eqc_true in Hstray. subst top s1.
      inversion Hall as [|? ? _ Hall']; subst.
      destruct (IH _ _ _ _ _ Hns Hall' Hsf' _ eq_refl)
        as (H1 & H2 & H3 & H4 & H5).
      rewrite !occurrences_cons.
      destruct (closer_inv ch Ec); subst ch; eqc_consts_in H4;
        eqc_consts_in H5; eqc_consts; repeat split; try assumption; lia. }
    subst s1.
    destruct (IH _ _ _ _ _ Hns Hall Hsf' _ Hs') as (H1 & H2 & H3 & H4 & H5).
    unfold is_closer in Ec. apply orb_false_iff in Ec. destruct Ec as [E2 E4].
    rewrite E2, E4.
    repeat split; try assumption; lia.
Qed.

(** A stack of closers is empty exactly when it holds no closing brace and
    no closing bracket. *)
Lemma closers_empty (stk : list char) :
  Forall (fun c => is_closer c = true) stk ->
  match stk with [] => false | _ :: _ => true end
  = ((0 <? occurrences rbrace stk) || (0 <? occurrences rbracket stk))%Z.
Proof.
  intros Hall. destruct stk as [|c stk]; [reflexivity|].
  inversion Hall as [|? ? Hc _]; subst.
  rewrite !occurrences_cons.
  symmetry. apply orb_true_iff.
  destruct (closer_inv c Hc); subst c; eqc_consts; [left|right];
    apply Z.ltb_lt.
  - pose proof (occurrences_nonneg 125%N stk). lia.
  - pose proof (occurrences_nonneg 93%N stk). lia.
Qed.

(** On a text with no stray closer, counting and the stack agree. *)
Lemma count_truncated_replay (t : text) :
  no_stray_closer (Py.strip t) = true ->
  count_truncated t = replay_truncated t.
Proof.
  unfold no_stray_closer, count_truncated, replay_truncated, replay.
  unfold complete_init. intros Hns.
  destruct (structural_from false false (Py.strip t)) as [r f] eqn:Hsf.
  destruct (replay_fold (Py.strip t) [] false false r f Hns (Forall_nil _)
              Hsf _ eq_refl) as (H1 & H2 & H3 & H4 & H5).
  rewrite H1, H2, (closers_empty _ H3), H4, H5.
  rewrite !occurrences_nil.
  replace (0 <? 0 + occurrences lbrace r - occurrences rbrace r)%Z
    with (occurrences rbrace r <? occurrences lbrace r)%Z
    by (apply eq_iff_eq_true; rewrite !Z.ltb_lt; lia).
  replace (0 <? 0 + occurrences lbracket r - occurrences rbracket r)%Z
    with (occurrences rbracket r <? occurrences lbracket r)%Z
    by (apply eq_iff_eq_true; rewrite !Z.ltb_lt; lia).
  destruct (fst f), (_ <? _)%Z, (_ <? _)%Z, (snd f); reflexivity.
Qed.

(** C4, as the code has it (truncation detection).  [is_truncated_json]
    keeps two counters, not a stack.  It returns true exactly when, after
    the scan of the trimmed text, the in-string flag is open, or more braces
    were opened than closed among the characters read as structure (outside
    strings, not escaped), or more brackets were opened than closed among
    them, or an escape is pending.  On every text in
    which each closer outside a string closes the bracket opened last, that
    is the same as replaying the stack machine and finding the string open,
    the stack not empty or an escape pending.  It returns false on every
    empty or white-space-only text. *)
Theorem is_truncated_json_characterised :
  forall t : text,
    is_truncated_json t = count_truncated t
    /\ (no_stray_closer (Py.strip t) = true ->
        is_truncated_json t = replay_truncated t)
    /\ (forallb Py.isspace t = true -> is_truncated_json t = false).
Proof.
  intros t. split; [apply is_truncated_json_count|]. split.
  - intros Hns. rewrite is_truncated_json_count.
    apply count_truncated_replay. exact Hns.
  - intros Hb. unfold is_truncated_json.
    rewrite (strip_blank t Hb). reflexivity.
Qed.

(** On [}{] the stack machine ends with the brace open on its stack, and
    [is_truncated_json] answers false: its brace counter is back at zero. *)
Lemma is_truncated_json_stray_closer :
  replay_truncated (Py.txt "}{") = true
  /\ cs_stack (replay (Py.strip (Py.txt "}{"))) = [rbrace]
  /\ is_truncated_json (Py.txt "}{") = false.
Proof. repeat split. Qed.

(** The detector on a text cut inside an array, and on a blank text. *)
Lemma is_truncated_json_characterised_witness :
  is_truncated_json (Py.txt "{~a~: [1, 2")
  = replay_truncated (Py.txt "{~a~: [1, 2")
  /\ is_truncated_json (Py.txt "   ") = false.
Proof.
  split.
  - apply (proj1 (proj2 (is_truncated_json_characterised
                           (Py.txt "{~a~: [1, 2")))).
    reflexivity.
  - apply (proj2 (proj2 (is_truncated_json_characterised (Py.txt "   ")))).
    reflexivity.
Defined.

(* ================================================================== *)
(** * The repairer *)
(* ================================================================== *)

(** When the rewrites converge within the budget, the loop returns a fixed
    point of the pass. *)
Lemma repair_loop_converged (n : nat) :
  forall t labels,
    converges_within n t ->
    fst (repair_pass (fst (repair_loop n t labels)))
    = fst (repair_loop n t labels).
Proof.
  induction n as [|n IH]; intros t labels [k [Hk Hfix]]; [lia|].
  cbn [repair_loop].
  destruct (repair_pass t) as [current applied] eqn:Hpass.
  destruct (Py.eqt current t) eqn:Heq.
  - apply eqt_true in Heq. subst current. cbn [fst].
    rewrite Hpass. reflexivity.
  - apply IH. destruct k as [|k].
    + cbn [passes] in Hfix. rewrite Hpass in Hfix. cbn [fst] in Hfix.
      subst current. rewrite eqt_refl in Heq. discriminate.
    + exists k. split; [lia|].
      cbn [passes] in Hfix. rewrite Hpass in Hfix. exact Hfix.
Qed.

(** On a fixed point of the pass the loop stops where it started. *)
Lemma repair_loop_fixed (m : nat) (r : text) (labels : list string) :
  fst (repair_pass r) = r -> fst (repair_loop m r labels) = r.
Proof.
  intros Hfix. destruct m as [|m]; [reflexivity|].
  cbn [repair_loop].
  destruct (repair_pass r) as [current applied]. cbn [fst] in Hfix.
  subst current. rewrite eqt_refl. reflexivity.
Qed.

(** C2, as the code has it (idempotence of repair).  When the four rewrites
    reach a fixed point within the iteration budget and the result is not
    flagged as truncated, repairing the repaired text again, with any
    budget, returns that same text and does not flag it as truncated.
    Past the budget, or after truncation completion, a second repair can
    change the text again. *)
Theorem repair_idempotent_when_converged :
  forall (t : text) (n m : nat),
    converges_within n t ->
    RepairResult.is_truncated (repair_json t n) = false ->
    RepairResult.repaired
      (repair_json (RepairResult.repaired (repair_json t n)) m)
    = RepairResult.repaired (repair_json t n)
    /\ RepairResult.is_truncated
         (repair_json (RepairResult.repaired (repair_json t n)) m)
       = false.
Proof.
  intros t n m Hconv Htr.
  pose proof (repair_loop_converged n t [] Hconv) as Hfix.
  unfold repair_json in Htr |- *.
  destruct (repair_loop n t []) as [current labels]. cbn [fst] in Hfix.
  destruct (is_truncated_json current) eqn:Hcur.
  - destruct (_complete_truncated current). discriminate.
  - cbn [RepairResult.repaired].
    pose proof (repair_loop_fixed m current [] Hfix) as Hloop.
    destruct (repair_loop m current []) as [c2 l2]. cbn [fst] in Hloop.
    subst c2. rewrite Hcur. split; reflexivity.
Qed.

(** Two texts on which a second repair changes the repaired text: seven
    trailing commas outlast the five passes of the budget, and the brace
    that truncation completion appends turns the last comma of the second
    text into a trailing comma. *)
Lemma repair_not_idempotent :
  RepairResult.repaired (repair_json (Py.txt "[1,,,,,,,]") 5) = Py.txt "[1,,]"
  /\ RepairResult.repaired (repair_json (Py.txt "[1,,]") 5) = Py.txt "[1]"
  /\ RepairResult.repaired
       (repair_json
          (RepairResult.repaired (repair_json (Py.txt "[1,,,,,,,]") 5)) 5)
     <> RepairResult.repaired (repair_json (Py.txt "[1,,,,,,,]") 5)
  /\ RepairResult.repaired (repair_json (Py.txt "{~a~: 1,") 5)
     = Py.txt "{~a~: 1,}"
  /\ RepairResult.repaired (repair_json (Py.txt "{~a~: 1,}") 5)
     = Py.txt "{~a~: 1}".
Proof.
  split; [vm_compute; reflexivity|].
  split; [vm_compute; reflexivity|].
  split; [vm_compute; discriminate|].
  split; vm_compute; reflexivity.
Qed.

(** Repairing [{~key~: ~value~,}] twice. *)
Lemma repair_idempotent_when_converged_witness :
  RepairResult.repaired
    (repair_json
       (RepairResult.repaired (repair_json (Py.txt "{~key~: ~value~,}") 5)) 5)
  = RepairResult.repaired (repair_json (Py.txt "{~key~: ~value~,}") 5)
  /\ RepairResult.is_truncated
       (repair_json
          (RepairResult.repaired (repair_json (Py.txt "{~key~: ~value~,}") 5))
          5)
     = false.
Proof.
  apply (repair_idempotent_when_converged (Py.txt "{~key~: ~value~,}") 5 5).
  - exists 1. split; [lia|vm_compute; reflexivity].
  - vm_compute. reflexivity.
Defined.

(** The trailing-comma pattern at a position: it needs a comma there. *)
Lemma tc_rmatch_nil (R : Type) (pos : nat) (caps : Re.caps)
    (k : text -> nat -> Re.caps -> option R) :
  Re.rmatch trailing_comma_pattern [] pos caps k = None.
Proof. reflexivity. Qed.

Lemma tc_rmatch_fail (R : Type) (x : char) (s : text) (pos : nat)
    (caps : Re.caps) (k : text -> nat -> Re.caps -> option R) :
  x <> comma ->
  Re.rmatch trailing_comma_pattern (x :: s) pos caps k = None.
Proof.
  intros H. unfold trailing_comma_pattern, Re.seq, Re.lit1.
  cbn [Re.rmatch].
  assert (E : Py.eqc comma x = false) by (apply eqc_false; congruence).
  rewrite E. reflexivity.
Qed.

(** The greedy [\s*] in front of a visible character, and in front of a
    blank. *)
Lemma star_ws_nonspace (R : Type) (c : char) (s : text) (pos : nat)
    (caps : Re.caps) (k : text -> nat -> Re.caps -> option R) :
  Py.isspace c = false ->
  Re.rmatch (Re.star Re.ws) (c :: s) pos caps k = k (c :: s) pos caps.
Proof.
  intros H. unfold Re.star, Re.ws. cbn [Re.rmatch List.length].
  rewrite H. reflexivity.
Qed.

Lemma star_ws_space (R : Type) (w : char) (s : text) (pos : nat)
    (caps : Re.caps) (k : text -> nat -> Re.caps -> option R) :
  Py.isspace w = true ->
  Re.rmatch (Re.star Re.ws) (w :: s) pos caps k
  = match Re.rmatch (Re.star Re.ws) s (S pos) caps k with
    | Some x => Some x
    | None => k (w :: s) pos caps
    end.
Proof.
  intros H. unfold Re.star, Re.ws. cbn [Re.rmatch List.length].
  rewrite H. 
  assert (E : Nat.ltb pos (S pos) = true) by (apply Nat.ltb_lt; lia).
  rewrite E. reflexivity.
Qed.
Lemma star_ws_run (R : Type) (ws : text) :
  forall (c : char) (suf : text) (pos : nat) (caps : Re.caps)
         (k : text -> nat -> Re.caps -> option R) (x : R),
    forallb Py.isspace ws = true -> Py.isspace c = false ->
    k (c :: suf) (pos + List.length ws) caps = Some x ->
    Re.rmatch (Re.star Re.ws) (ws ++ c :: suf) pos caps k = Some x.
Proof.
  induction ws as [|w ws IH]; intros c suf pos caps k x Hws Hc Hk.
  - cbn [app]. rewrite star_ws_nonspace by exact Hc.
    rewrite <- Hk. f_equal. cbn. lia.
  - cbn [forallb] in Hws. apply andb_true_iff in Hws. destruct Hws as [Hw Hws].
    cbn [app]. rewrite star_ws_space by exact Hw.
    rewrite (IH c suf (S pos) caps k x Hws Hc); [reflexivity|].
    rewrite <- Hk. f_equal. cbn [List.length]. lia.
Qed.

Lemma closer_not_space (c : char) : is_closer c = true -> Py.isspace c = false.
Proof. intros H. destruct (closer_inv c H); subst; reflexivity. Qed.

(** The pattern matches at a comma followed by blanks and a closer; group
    1 spans the blanks and the closer. *)
Lemma tc_rmatch_hit (ws : text) (c : char) (suf : text) (pos : nat) :
  forallb Py.isspace ws = true -> is_closer c = true ->
  Re.rmatch trailing_comma_pattern (comma :: ws ++ c :: suf) pos []
    (fun _ e caps => Some (e, caps))
  = Some (pos + List.length ws + 2,
          [(1, (S pos, pos + List.length ws + 2))]).
Proof.
  intros Hws Hc. unfold trailing_comma_pattern, Re.seq, Re.lit1.
  cbn [Re.rmatch]. rewrite eqc_refl.
  apply star_ws_run; [exact Hws|apply closer_not_space; exact Hc|].
  unfold Re.cls. cbn [Re.rmatch]. rewrite mem_closers2, Hc.
  f_equal. f_equal; [lia|]. f_equal. f_equal. f_equal. lia.
Qed.

(** The search passes over text with no comma. *)
Lemma tc_search_skip (pre : text) :
  forall pos rest,
    Forall (fun x => x <> comma) pre ->
    Re.search trailing_comma_pattern (pre ++ rest) pos
    = Re.search trailing_comma_pattern rest (pos + List.length pre).
Proof.
  induction pre as [|x pre IH]; intros pos rest Hpre.
  - cbn [app List.length]. f_equal. lia.
  - inversion Hpre as [|? ? Hx Hpre']; subst.
    cbn [app Re.search]. rewrite tc_rmatch_fail by exact Hx.
    rewrite IH by exact Hpre'. f_equal. cbn [List.length]. lia.
Qed.

Lemma tc_search_none (suf : text) (pos : nat) :
  Forall (fun x => x <> comma) suf ->
  Re.search trailing_comma_pattern suf pos = None.
Proof.
  intros H. rewrite <- (app_nil_r suf). rewrite tc_search_skip by exact H.
  reflexivity.
Qed.

(** A comma followed by blanks and a closing brace or bracket is deleted,
    whatever stands before it: the rewrite does not ask whether a string
    literal is open at the comma. *)
Lemma trailing_comma_deleted (pre ws : text) (c : char) (suf : text) :
  Forall (fun x => x <> comma) pre ->
  forallb Py.isspace ws = true ->
  is_closer c = true ->
  Forall (fun x => x <> comma) suf ->
  fst (_remove_trailing_commas (pre ++ comma :: ws ++ c :: suf))
  = pre ++ ws ++ c :: suf.
Proof.
  intros Hpre Hws Hc Hsuf.
  unfold _remove_trailing_commas. cbn [fst]. unfold Re.sub, Re.finditer.
  set (subject := pre ++ comma :: ws ++ c :: suf).
  cbn [Re.finditer_from]. cbn [skipn].
  unfold subject at 1. rewrite tc_search_skip by exact Hpre.
  cbn [Re.search]. rewrite tc_rmatch_hit by assumption.
  cbn [Re.m_start Re.m_end].
  assert (Hlt : Nat.ltb (0 + List.length pre)
                  (0 + List.length pre + List.length ws + 2) = true)
    by (apply Nat.ltb_lt; lia).
  rewrite Hlt.
  assert (Hlen : List.length subject
                 = S (List.length pre + List.length ws + List.length suf + 1)).
  { unfold subject. rewrite !length_app. cbn [List.length].
    rewrite !length_app. cbn [List.length]. lia. }
  rewrite Hlen. cbn [Re.finditer_from].
  assert (Hskip : skipn (0 + List.length pre + List.length ws + 2) subject = suf).
  { unfold subject.
    replace (0 + List.length pre + List.length ws + 2)
      with (List.length (pre ++ comma :: ws ++ [c])).
    - replace (pre ++ comma :: ws ++ c :: suf)
        with ((pre ++ comma :: ws ++ [c]) ++ suf).
      + rewrite skipn_app, skipn_all, Nat.sub_diag. reflexivity.
      + rewrite <- !app_assoc. cbn [app]. rewrite <- app_assoc. reflexivity.
    - rewrite !length_app. cbn [List.length]. rewrite !length_app.
      cbn [List.length]. lia. }
  rewrite Hskip. rewrite tc_search_none by exact Hsuf.
  cbn [Re.sub_from Re.m_start Re.m_end]. rewrite Hskip.
  unfold Re.group, Re.mstart, Re.mend. cbn [Re.m_caps Re.group_span Nat.eqb].
  unfold Py.slice. change (skipn 0 subject) with subject.
  replace (0 + List.length pre - 0) with (List.length pre) by lia.
  unfold subject at 1. rewrite firstn_app, firstn_all, Nat.sub_diag.
  cbn [firstn]. rewrite app_nil_r.
  replace (0 + List.length pre + List.length ws + 2 - S (0 + List.length pre))
    with (List.length (ws ++ [c]))
    by (rewrite length_app; cbn [List.length]; lia).
  replace (skipn (S (0 + List.length pre)) subject) with ((ws ++ [c]) ++ suf).
  - rewrite firstn_app, firstn_all, Nat.sub_diag. cbn [firstn].
    rewrite app_nil_r. rewrite <- app_assoc. reflexivity.
  - unfold subject.
    replace (S (0 + List.length pre)) with (List.length (pre ++ [comma]))
      by (rewrite length_app; cbn [List.length]; lia).
    replace (pre ++ comma :: ws ++ c :: suf)
      with ((pre ++ [comma]) ++ (ws ++ [c]) ++ suf).
    + rewrite skipn_app, skipn_all, Nat.sub_diag. reflexivity.
    + rewrite <- !app_assoc. reflexivity.
Qed.

(** C10 (the rewrites are not string-aware).  Trailing-comma removal
    deletes a comma that blanks and a closing brace or bracket follow,
    whatever stands before the comma, an open string literal included.  So
    there is strict JSON that repair changes: [{~a~: ~,}~}] is an object
    whose one member is the string of a comma and a closing brace; the
    rewrite deletes that comma, the repaired text differs from the input
    and decodes to another value. *)
Theorem repair_rewrites_inside_strings :
  (forall (pre ws : text) (c : char) (suf : text),
     Forall (fun x => x <> comma) pre ->
     forallb Py.isspace ws = true ->
     is_closer c = true ->
     Forall (fun x => x <> comma) suf ->
     fst (_remove_trailing_commas (pre ++ comma :: ws ++ c :: suf))
     = pre ++ ws ++ c :: suf)
  /\ exists (t : text) (v v' : Json.value),
       t = Py.txt "{~a~: ~,}~}"
       /\ Json.loads t = Decoded v
       /\ v = Json.JObject [(Py.txt "a", Json.JString (Py.txt ",}"))]
       /\ RepairResult.repaired (repair_json t default_max_iterations)
          = Py.txt "{~a~: ~}~}"
       /\ RepairResult.repaired (repair_json t default_max_iterations) <> t
       /\ Json.loads
            (RepairResult.repaired (repair_json t default_max_iterations))
          = Decoded v'
       /\ v' = Json.JObject [(Py.txt "a", Json.JString (Py.txt "}"))]
       /\ v' <> v.
Proof.
  split; [exact trailing_comma_deleted|].
  exists (Py.txt "{~a~: ~,}~}"),
    (Json.JObject [(Py.txt "a", Json.JString (Py.txt ",}"))]),
    (Json.JObject [(Py.txt "a", Json.JString (Py.txt "}"))]).
  split; [reflexivity|].
  split; [vm_compute; reflexivity|].
  split; [reflexivity|].
  split; [vm_compute; reflexivity|].
  split; [vm_compute; discriminate|].
  split; [vm_compute; reflexivity|].
  split; [reflexivity|].
  vm_compute; discriminate.
Qed.

(** The rewrite on [[~x,  ]~]]: the comma stands inside a string literal. *)
Lemma repair_rewrites_inside_strings_witness :
  fst (_remove_trailing_commas (Py.txt "[~x,  ]~]")) = Py.txt "[~x  ]~]".
Proof.
  apply (proj1 repair_rewrites_inside_strings (Py.txt "[~x") (Py.txt "  ")
           rbracket (Py.txt "~]")).
  - repeat constructor; discriminate.
  - reflexivity.
  - reflexivity.
  - repeat constructor; discriminate.
Defined.

(* ================================================================== *)
(** * Candidates of the detector *)
(* ================================================================== *)

(** The constructor accepts a confidence in range and rejects any other. *)
Lemma candidate_new_ok (raw : text) (s e : nat) (m : ExtractionMethod)
    (c : float) :
  confidence_ok c = true ->
  Candidate.new raw s e m c = Ret (Candidate.mk raw s e m c).
Proof. intros H. unfold Candidate.new. rewrite H. reflexivity. Qed.

Lemma candidate_new_rejects (raw : text) (s e : nat) (m : ExtractionMethod)
    (c : float) :
  confidence_ok c = false -> Candidate.new raw s e m c = Raise (ValueError c).
Proof. intros H. unfold Candidate.new. rewrite H. reflexivity. Qed.

Lemma result_new_ok (V : Type) (success : bool) (data : option (payload V))
    (raw_json : option text) (c : float) (m : option ExtractionMethod)
    (repairs : list string) (n : nat) (err : option ExtractError) :
  confidence_ok c = true ->
  ExtractResult.new success data raw_json c m repairs n err
  = Ret (ExtractResult.mk success data raw_json c m repairs n err).
Proof. intros H. unfold ExtractResult.new. rewrite H. reflexivity. Qed.

Lemma result_new_rejects (V : Type) (success : bool)
    (data : option (payload V)) (raw_json : option text) (c : float)
    (m : option ExtractionMethod) (repairs : list string) (n : nat)
    (err : option ExtractError) :
  confidence_ok c = false ->
  ExtractResult.new success data raw_json c m repairs n err
  = Raise (ValueError c).
Proof. intros H. unfold ExtractResult.new. rewrite H. reflexivity. Qed.

Lemma formula_in_detector (q c s : bool) :
  In (brace_confidence_formula q c s) detector_confidences.
Proof.
  unfold detector_confidences. apply in_app_iff. right.
  destruct q, c, s; cbn [brace_confidences bools flat_map map app];
    repeat (first [left; reflexivity | right]).
Qed.

(** Every confidence of the detector is in range, and stays in range under
    the two down-weights of the orchestrator. *)
Lemma detector_confidences_ok (x : float) :
  In x detector_confidences ->
  confidence_ok x = true
  /\ confidence_ok (x * 0.9)%float = true
  /\ confidence_ok (x * 0.8)%float = true
  /\ confidence_ok (x * 0.9 * 0.8)%float = true.
Proof.
  intros Hin.
  assert (Hall :
    forallb
      (fun x =>
         confidence_ok x && confidence_ok (x * 0.9)%float
         && confidence_ok (x * 0.8)%float
         && confidence_ok (x * 0.9 * 0.8)%float)
      detector_confidences = true) by (vm_compute; reflexivity).
  rewrite forallb_forall in Hall. specialize (Hall x Hin).
  do 3 (apply andb_true_iff in Hall; destruct Hall as [Hall ?]).
  repeat split; assumption.
Qed.

(** A loop whose body keeps an invariant and does not raise. *)
Lemma for_each_ok (A S : Type) (P : S -> Prop) (body : S -> A -> res S) :
  (forall s x, P s -> exists s', body s x = Ret s' /\ P s') ->
  forall l s, P s -> exists s', for_each body l s = Ret s' /\ P s'.
Proof.
  intros Hbody. induction l as [|x l IH]; intros s Hs; cbn [for_each].
  - exists s. split; [reflexivity|exact Hs].
  - destruct (Hbody s x Hs) as [s1 [E1 H1]]. rewrite E1. cbn [bind].
    apply IH. exact H1.
Qed.

Lemma extract_direct_ok (t : text) :
  exists l, extract_direct t = Ret l /\ Forall from_detector l.
Proof.
  unfold extract_direct. destruct (Py.strip t) as [|c0 r].
  - exists []. split; [reflexivity|constructor].
  - destruct (_looks_like_json (c0 :: r)).
    + rewrite candidate_new_ok by reflexivity. cbn [bind].
      eexists. split; [reflexivity|].
      constructor; [|constructor]. left. reflexivity.
    + exists []. split; [reflexivity|constructor].
Qed.

Lemma brace_matching_ok (t : text) :
  exists l, extract_from_brace_matching t = Ret l /\ Forall from_detector l.
Proof.
  destruct (brace_match_confidence_formula_aux t) as [l [E H]].
  exists l. split; [exact E|].
  eapply Forall_impl; [|exact H].
  intros c (Hc & _). unfold from_detector. rewrite Hc.
  apply formula_in_detector.
Qed.

Lemma fence_json_step_ok (t : text) (acc : list Candidate.t)
    (m : Re.rmatch_obj) :
  Forall from_detector acc ->
  exists acc', fence_json_step t acc m = Ret acc' /\ Forall from_detector acc'.
Proof.
  intros Hacc. unfold fence_json_step.
  destruct (Py.strip (Re.group t m 1)) as [|c0 r];
    [exists acc; split; [reflexivity|exact Hacc]|].
  destruct (_looks_like_json (c0 :: r));
    [|exists acc; split; [reflexivity|exact Hacc]].
  rewrite candidate_new_ok by reflexivity. cbn [bind].
  eexists. split; [reflexivity|].
  apply Forall_app. split; [exact Hacc|].
  constructor; [|constructor]. right. left. reflexivity.
Qed.

Lemma fence_any_step_ok (t : text) (acc : list Candidate.t)
    (m : Re.rmatch_obj) :
  Forall from_detector acc ->
  exists acc', fence_any_step t acc m = Ret acc' /\ Forall from_detector acc'.
Proof.
  intros Hacc. unfold fence_any_step.
  destruct (Py.strip (Re.group t m 1)) as [|c0 r];
    [exists acc; split; [reflexivity|exact Hacc]|].
  destruct (_looks_like_json (c0 :: r));
    [|exists acc; split; [reflexivity|exact Hacc]].
  destruct (negb _); [|exists acc; split; [reflexivity|exact Hacc]].
  rewrite candidate_new_ok by reflexivity. cbn [bind].
  eexists. split; [reflexivity|].
  apply Forall_app. split; [exact Hacc|].
  constructor; [|constructor]. right. right. left. reflexivity.
Qed.

Lemma heuristic_step_ok (t : text) (acc : list Candidate.t)
    (m : Re.rmatch_obj) :
  Forall from_detector acc ->
  exists acc', heuristic_step t acc m = Ret acc' /\ Forall from_detector acc'.
Proof.
  intros Hacc. unfold heuristic_step.
  destruct (brace_matching_ok (skipn (Re.m_end m) t)) as [l [E _]].
  rewrite E. cbn [bind].
  destruct l as [|bc l]; [exists acc; split; [reflexivity|exact Hacc]|].
  rewrite candidate_new_ok by reflexivity. cbn [bind].
  eexists. split; [reflexivity|].
  apply Forall_app. split; [exact Hacc|].
  constructor; [|constructor]. right. right. right. left. reflexivity.
Qed.

Lemma extract_heuristic_ok (t : text) :
  exists l, extract_heuristic t = Ret l /\ Forall from_detector l.
Proof.
  unfold extract_heuristic.
  apply (for_each_ok Re.regex (list Candidate.t) (Forall from_detector));
    [|constructor].
  intros acc pattern Hacc.
  apply (for_each_ok Re.rmatch_obj (list Candidate.t) (Forall from_detector));
    [|exact Hacc].
  intros acc' m Hacc'. apply heuristic_step_ok. exact Hacc'.
Qed.

Lemma unique_by_raw_In (l : list Candidate.t) :
  forall seen c, In c (unique_by_raw l seen) -> In c l.
Proof.
  induction l as [|x l IH]; intros seen c; cbn [unique_by_raw]; [tauto|].
  destruct (existsb _ seen); cbn [In]; intros H.
  - right. eapply IH. exact H.
  - destruct H as [H|H]; [left; exact H|right; eapply IH; exact H].
Qed.

Section DetectorFacts.

Variable unicode_alnum : char -> bool.

Lemma markdown_fence_ok (t : text) :
  exists l,
    extract_from_markdown_fence unicode_alnum t = Ret l
    /\ Forall from_detector l.
Proof.
  unfold extract_from_markdown_fence.
  destruct (for_each_ok Re.rmatch_obj (list Candidate.t)
              (Forall from_detector) (fence_json_step t)
              (fun s x H => fence_json_step_ok t s x H)
              (Re.finditer _MARKDOWN_FENCE_JSON t) [] (Forall_nil _))
    as [l1 [E1 H1]].
  rewrite E1. cbn [bind].
  apply (for_each_ok Re.rmatch_obj (list Candidate.t) (Forall from_detector));
    [|exact H1].
  intros acc m Hacc. apply fence_any_step_ok. exact Hacc.
Qed.

(** Candidate detection returns on every text, and every candidate carries
    a confidence of the detector. *)
Lemma extract_all_candidates_ok (t : text) :
  exists l,
    extract_all_candidates unicode_alnum t = Ret l
    /\ Forall from_detector l.
Proof.
  unfold extract_all_candidates.
  destruct (extract_direct_ok t) as [l1 [E1 H1]].
  destruct (markdown_fence_ok t) as [l2 [E2 H2]].
  destruct (brace_matching_ok t) as [l3 [E3 H3]].
  destruct (extract_heuristic_ok t) as [l4 [E4 H4]].
  rewrite E1, E2, E3, E4. cbn [bind].
  eexists. split; [reflexivity|].
  apply Forall_forall. intros c Hc.
  apply (proj1 (sorted_desc_In _ _ _ _ _ _)) in Hc.
  apply unique_by_raw_In in Hc.
  assert (Hall : Forall from_detector (l1 ++ l2 ++ l3 ++ l4))
    by (repeat (apply Forall_app; split); assumption).
  rewrite Forall_forall in Hall. apply Hall. exact Hc.
Qed.

End DetectorFacts.

Lemma rank_candidates_In (c : Candidate.t) (l : list Candidate.t) :
  In c (rank_candidates l) <-> In c l.
Proof.
  unfold rank_candidates. destruct l as [|x l]; [tauto|].
  apply sorted_desc_In.
Qed.

Lemma rank_candidates_length (l : list Candidate.t) :
  List.length (rank_candidates l) = List.length l.
Proof.
  unfold rank_candidates. destruct l as [|x l]; [reflexivity|].
  apply sorted_desc_length.
Qed.

Lemma sort_by_size_In (c : Candidate.t) (l : list Candidate.t) :
  In c (_sort_by_size l) <-> In c l.
Proof. unfold _sort_by_size. apply sorted_desc_In. Qed.

Lemma sort_by_size_length (l : list Candidate.t) :
  List.length (_sort_by_size l) = List.length l.
Proof. unfold _sort_by_size. apply sorted_desc_length. Qed.

(* ================================================================== *)
(** * The orchestrator *)
(* ================================================================== *)

Lemma failure_ok (V : Type) (repairs : list string) (n : nat) (msg : string)
    (kind : ErrorType) :
  kind = NO_JSON_FOUND \/ kind = INVALID_JSON ->
  result_ok
    (@ExtractResult.mk V false None None 0.0 None repairs n
       (Some {| message := msg; error_type := kind; position := None |})).
Proof.
  intros Hk. unfold result_ok. cbn. repeat split; try discriminate.
  intros e H. injection H as <-. exact Hk.
Qed.

Lemma success_ok (V : Type) (data : option (payload V))
    (raw_json : option text) (c : float) (m : option ExtractionMethod)
    (repairs : list string) (n : nat) :
  confidence_ok c = true ->
  result_ok (ExtractResult.mk true data raw_json c m repairs n None).
Proof.
  intros Hc. unfold result_ok. cbn. repeat split; try discriminate.
  exact Hc.
Qed.

Section OrchestratorFacts.

Variable unicode_alnum : char -> bool.
Variable V : Type.
Variable loads : text -> decoded V.

(** The loop of [_extract_first_valid] returns a well-formed result. *)
Lemma first_valid_loop_ok (candidates : list Candidate.t) :
  forall n repair all_repairs last_error,
    Forall from_detector candidates ->
    exists r,
      first_valid_loop loads n repair candidates all_repairs last_error
      = Ret r
      /\ result_ok r.
Proof.
  induction candidates as [|c cs IH];
    intros n repair all_repairs last_error Hall; cbn [first_valid_loop].
  - rewrite result_new_ok by reflexivity.
    eexists. split; [reflexivity|]. apply failure_ok. right. reflexivity.
  - inversion Hall as [|? ? Hc Hcs]; subst.
    destruct (detector_confidences_ok _ Hc) as (H1 & H2 & H3 & H4).
    destruct (loads (Candidate.raw c)) as [data|e].
    + rewrite result_new_ok by exact H1.
      eexists. split; [reflexivity|]. apply success_ok. exact H1.
    + destruct repair; cbn [negb]; [|apply IH; exact Hcs].
      destruct (loads (RepairResult.repaired _)) as [data|e'];
        [|apply IH; exact Hcs].
      destruct (RepairResult.repairs_applied _),
        (RepairResult.is_truncated _);
        (rewrite result_new_ok by assumption);
        (eexists; split; [reflexivity|]); apply success_ok; assumption.
Qed.

(** Each iteration of [_extract_all] keeps [max_confidence] in range. *)
Lemma extract_all_step_ok (repair : bool) (s : all_state V)
    (c : Candidate.t) :
  from_detector c ->
  confidence_ok (max_confidence s) = true ->
  confidence_ok (max_confidence (extract_all_step loads repair s c)) = true.
Proof.
  intros Hc Hs.
  destruct (detector_confidences_ok _ Hc) as (H1 & H2 & _ & _).
  unfold extract_all_step.
  destruct (loads (Candidate.raw c)) as [data|e].
  - cbn [max_confidence]. unfold Py.max. destruct (_ <? _)%float; assumption.
  - destruct repair; cbn [negb]; [|exact Hs].
    destruct (loads (RepairResult.repaired _)) as [data|e'];
      cbn [max_confidence]; [|exact Hs].
    unfold Py.max.
    destruct (RepairResult.repairs_applied _), (_ <? _)%float; assumption.
Qed.

Lemma extract_all_fold_ok (repair : bool) (candidates : list Candidate.t) :
  forall s,
    Forall from_detector candidates ->
    confidence_ok (max_confidence s) = true ->
    confidence_ok
      (max_confidence (fold_left (extract_all_step loads repair) candidates s))
    = true.
Proof.
  induction candidates as [|c cs IH]; intros s Hall Hs; cbn [fold_left].
  - exact Hs.
  - inversion Hall as [|? ? Hc Hcs]; subst.
    apply IH; [exact Hcs|]. apply extract_all_step_ok; assumption.
Qed.

Lemma extract_all_ok (candidates : list Candidate.t) (repair : bool) :
  Forall from_detector candidates ->
  exists r, _extract_all loads candidates repair = Ret r /\ result_ok r.
Proof.
  intros Hall. unfold _extract_all.
  set (s0 := {| results := []; as_all_repairs := [];
                successful_methods := []; max_confidence := 0.0 |}).
  pose proof (extract_all_fold_ok repair candidates s0 Hall eq_refl) as Hmax.
  destruct (results (fold_left (extract_all_step loads repair) candidates s0)).
  - rewrite result_new_ok by reflexivity.
    eexists. split; [reflexivity|]. apply failure_ok. right. reflexivity.
  - rewrite result_new_ok by exact Hmax.
    eexists. split; [reflexivity|]. apply success_ok. exact Hmax.
Qed.

(** [extract_json_with_metadata] returns a well-formed result on every
    input. *)
Lemma extract_json_with_metadata_ok (t : text) (repair : bool)
    (strat : strategy) :
  exists r,
    extract_json_with_metadata unicode_alnum loads t repair strat = Ret r
    /\ result_ok r.
Proof.
  unfold extract_json_with_metadata.
  destruct (Py.strip t) as [|c0 r0].
  - rewrite result_new_ok by reflexivity.
    eexists. split; [reflexivity|]. apply failure_ok. left. reflexivity.
  - destruct (extract_all_candidates_ok unicode_alnum t) as [cands [E Hall]].
    rewrite E. cbn [bind]. destruct cands as [|c cs].
    + rewrite result_new_ok by reflexivity.
      eexists. split; [reflexivity|]. apply failure_ok. left. reflexivity.
    + destruct strat.
      * unfold _extract_first_valid. apply first_valid_loop_ok.
        apply Forall_forall. intros x Hx.
        apply (proj1 (rank_candidates_In _ _)) in Hx.
        rewrite Forall_forall in Hall. apply Hall. exact Hx.
      * unfold _extract_first_valid. apply first_valid_loop_ok.
        apply Forall_forall. intros x Hx.
        apply (proj1 (rank_candidates_In _ _)) in Hx.
        apply (proj1 (sort_by_size_In _ _)) in Hx.
        rewrite Forall_forall in Hall. apply Hall. exact Hx.
      * apply extract_all_ok. exact Hall.
Qed.

End OrchestratorFacts.

Section SelectionFacts.

Variable unicode_alnum : char -> bool.
Variable V : Type.
Variable loads : text -> decoded V.

(** The loop passes over candidates that yield nothing. *)
Lemma first_valid_loop_skip (pre : list Candidate.t) :
  forall rest n repair all_repairs last_error,
    Forall (fails loads repair) pre ->
    exists all_repairs' last_error',
      first_valid_loop loads n repair (pre ++ rest) all_repairs last_error
      = first_valid_loop loads n repair rest all_repairs' last_error'.
Proof.
  induction pre as [|c pre IH];
    intros rest n repair all_repairs last_error Hpre.
  - exists all_repairs, last_error. reflexivity.
  - inversion Hpre as [|? ? Hc Hpre']; subst.
    destruct Hc as [e [He Hrep]].
    cbn [app first_valid_loop]. rewrite He.
    destruct repair; cbn [negb].
    + destruct (Hrep eq_refl) as [e' He']. rewrite He'.
      apply IH. exact Hpre'.
    + apply IH. exact Hpre'.
Qed.

Lemma attempt_order_In (strat : strategy) (c : Candidate.t)
    (l : list Candidate.t) :
  In c (attempt_order strat l) -> In c l.
Proof.
  unfold attempt_order. intros H.
  destruct strat; apply (proj1 (rank_candidates_In _ _)) in H;
    try exact H.
  apply (proj1 (sort_by_size_In _ _)). exact H.
Qed.

Lemma attempt_order_length (strat : strategy) (l : list Candidate.t) :
  List.length (attempt_order strat l) = List.length l.
Proof.
  unfold attempt_order.
  destruct strat; rewrite rank_candidates_length; try reflexivity.
  apply sort_by_size_length.
Qed.

(** Under [first] and [largest] the orchestrator runs the loop over the
    attempt order. *)
Lemma extract_json_with_metadata_unfold (t : text) (repair : bool)
    (strat : strategy) (cands : list Candidate.t) :
  strat <> All -> Py.strip t <> [] -> cands <> [] ->
  extract_all_candidates unicode_alnum t = Ret cands ->
  extract_json_with_metadata unicode_alnum loads t repair strat
  = first_valid_loop loads (List.length cands) repair
      (attempt_order strat cands) [] None.
Proof.
  intros Hs Ht Hc E. unfold extract_json_with_metadata.
  destruct (Py.strip t) as [|c0 r0]; [contradiction|].
  rewrite E. cbn [bind].
  destruct cands as [|c cs]; [contradiction|].
  unfold _extract_first_valid, attempt_order.
  destruct strat; [| |contradiction].
  - rewrite rank_candidates_length. reflexivity.
  - rewrite rank_candidates_length, sort_by_size_length. reflexivity.
Qed.

(** C7 (confidence and provenance of the result under [first] and
    [largest]).  Let [c] be the first candidate, in the order of attempt,
    that yields a value.  When its raw text decodes, the result carries
    that value, the raw text, the candidate's own confidence and method, no
    repair label, and the number of candidates.  When its raw text does not
    decode and its repaired text does (repair being on), the result carries
    the value, the repaired text, the candidate's method, the repair labels,
    and the candidate's confidence times 0.9 if there is any label, times
    0.8 again if the repair flagged truncation. *)
Theorem first_valid_result :
  forall (t : text) (repair : bool) (strat : strategy)
         (cands pre post : list Candidate.t) (c : Candidate.t),
    strat <> All ->
    Py.strip t <> [] ->
    extract_all_candidates unicode_alnum t = Ret cands ->
    attempt_order strat cands = pre ++ c :: post ->
    Forall (fails loads repair) pre ->
    (forall d,
       loads (Candidate.raw c) = Decoded d ->
       extract_json_with_metadata unicode_alnum loads t repair strat
       = Ret (ExtractResult.mk true (Some (One d)) (Some (Candidate.raw c))
                (Candidate.confidence c) (Some (Candidate.method c)) []
                (List.length cands) None))
    /\ (forall e d,
          loads (Candidate.raw c) = JSONDecodeError e ->
          repair = true ->
          let rr := repair_json (Candidate.raw c) default_max_iterations in
          loads (RepairResult.repaired rr) = Decoded d ->
          extract_json_with_metadata unicode_alnum loads t repair strat
          = Ret (ExtractResult.mk true (Some (One d))
                   (Some (RepairResult.repaired rr))
                   (adjusted_confidence (Candidate.confidence c)
                      (RepairResult.repairs_applied rr)
                      (RepairResult.is_truncated rr))
                   (Some (Candidate.method c))
                   (RepairResult.repairs_applied rr)
                   (List.length cands) None)).
Proof.
  intros t repair strat cands pre post c Hs Ht E Hord Hpre.
  assert (Hin : In c cands).
  { apply (attempt_order_In strat). rewrite Hord.
    apply in_app_iff. right. left. reflexivity. }
  assert (Hne : cands <> []) by (intros ->; contradiction).
  destruct (extract_all_candidates_ok unicode_alnum t) as [cands' [E' Hall]].
  rewrite E in E'. injection E' as <-.
  rewrite Forall_forall in Hall. specialize (Hall c Hin).
  destruct (detector_confidences_ok _ Hall) as (H1 & H2 & H3 & H4).
  rewrite (extract_json_with_metadata_unfold t repair strat cands Hs Ht Hne E).
  rewrite Hord.
  destruct (first_valid_loop_skip pre (c :: post) (List.length cands) repair
              [] None Hpre) as [ar [le Hskip]].
  rewrite Hskip. cbn [first_valid_loop].
  split.
  - intros d Hd. rewrite Hd. apply result_new_ok. exact H1.
  - intros e d He Hr Hd. subst repair. rewrite He. cbn [negb].
    rewrite Hd. unfold adjusted_confidence.
    destruct (RepairResult.repairs_applied _) as [|lab labs],
      (RepairResult.is_truncated _); cbn [List.length Nat.eqb];
      apply result_new_ok; assumption.
Qed.

End SelectionFacts.

(** C8 (invariants of the result).  On every text, with repair on or off
    and under every strategy, and whatever the strict decoder answers,
    [extract_json_with_metadata] returns a result (it raises nothing) whose
    confidence lies in [0.0, 1.0]; a failure carries no data and carries an
    error; a success carries no error.  Both dataclass constructors reject
    a confidence outside [0.0, 1.0] with a [ValueError]. *)
Theorem extract_result_invariants :
  forall (unicode_alnum : char -> bool) (V : Type)
         (loads : text -> decoded V) (t : text) (repair : bool)
         (strat : strategy),
    (exists r,
       extract_json_with_metadata unicode_alnum loads t repair strat = Ret r
       /\ (0.0 <=? ExtractResult.confidence r)%float = true
       /\ (ExtractResult.confidence r <=? 1.0)%float = true
       /\ (ExtractResult.success r = false ->
           ExtractResult.data r = None /\ ExtractResult.error r <> None)
       /\ (ExtractResult.success r = true -> ExtractResult.error r = None))
    /\ (forall raw start_pos end_pos method c,
          ((0.0 <=? c) && (c <=? 1.0))%float = false ->
          Candidate.new raw start_pos end_pos method c
          = Raise (ValueError c))
    /\ (forall success (data : option (payload V)) raw_json c method
               repairs_applied candidates_found error,
          ((0.0 <=? c) && (c <=? 1.0))%float = false ->
          ExtractResult.new success data raw_json c method repairs_applied
            candidates_found error
          = Raise (ValueError c)).
Proof.
  intros unicode_alnum V loads t repair strat. split; [|split].
  - destruct (extract_json_with_metadata_ok unicode_alnum V loads t repair
                strat) as [r [E (Hc & Hf & Hs & _)]].
    exists r. unfold confidence_ok in Hc. apply andb_true_iff in Hc.
    destruct Hc as [Hlo Hhi]. repeat split; try assumption.
    + apply Hf. assumption.
    + apply Hf. assumption.
  - intros raw s e m c Hc. apply candidate_new_rejects. exact Hc.
  - intros success data raw_json c m repairs n err Hc.
    apply result_new_rejects. exact Hc.
Qed.

(** C9 (error kinds).  On every text and configuration, the error of the
    result of [extract_json_with_metadata], when there is one, is of kind
    [NO_JSON_FOUND] or [INVALID_JSON]; [extract_json] returns, or raises an
    [ExtractError] of one of these two kinds, and raises nothing else.  The
    kinds [TRUNCATED_JSON], [AMBIGUOUS_MULTIPLE] and [REPAIR_FAILED] are
    never produced. *)
Theorem extract_error_kinds :
  forall (unicode_alnum : char -> bool) (V : Type)
         (loads : text -> decoded V) (t : text) (repair : bool)
         (strat : strategy),
    (exists r,
       extract_json_with_metadata unicode_alnum loads t repair strat = Ret r
       /\ forall e,
            ExtractResult.error r = Some e ->
            error_type e = NO_JSON_FOUND \/ error_type e = INVALID_JSON)
    /\ forall raise_on_error,
         match extract_json unicode_alnum loads t repair strat raise_on_error
         with
         | Ret _ => True
         | Raise (ExtractErrorExn e) =>
             error_type e = NO_JSON_FOUND \/ error_type e = INVALID_JSON
         | Raise (ValueError _) => False
         end.
Proof.
  intros unicode_alnum V loads t repair strat.
  destruct (extract_json_with_metadata_ok unicode_alnum V loads t repair
              strat) as [r [E (_ & _ & _ & Hk)]].
  split.
  - exists r. split; [exact E|exact Hk].
  - intros raise_on_error. unfold extract_json. rewrite E. cbn [bind].
    destruct (ExtractResult.success r); [exact I|].
    destruct raise_on_error; [|exact I].
    destruct (ExtractResult.error r) as [e|] eqn:He.
    + apply Hk. reflexivity.
    + left. reflexivity.
Qed.

(** The orchestrator on [{~key~: ~value~,}] with repair on. *)
Lemma first_valid_result_witness :
  extract_json_with_metadata ascii_only Json.loads
    (Py.txt "{~key~: ~value~,}") true First
  = Ret (ExtractResult.mk true
           (Some (One (Json.JObject
                         [(Py.txt "key", Json.JString (Py.txt "value"))])))
           (Some (Py.txt "{~key~: ~value~}")) (1.0 * 0.9)%float
           (Some DIRECT_PARSE) ["trailing_comma_removal"%string] 1 None).
Proof.
  refine (proj2
            (first_valid_result ascii_only Json.value Json.loads
               (Py.txt "{~key~: ~value~,}") true First
               [Candidate.mk (Py.txt "{~key~: ~value~,}") 0 17 DIRECT_PARSE 1.0]
               [] []
               (Candidate.mk (Py.txt "{~key~: ~value~,}") 0 17 DIRECT_PARSE 1.0)
               _ _ _ _ _)
            "invalid JSON"%string
            (Json.JObject [(Py.txt "key", Json.JString (Py.txt "value"))])
            _ eq_refl _).
  - discriminate.
  - vm_compute. discriminate.
  - vm_compute. reflexivity.
  - vm_compute. reflexivity.
  - constructor.
  - vm_compute. reflexivity.
  - vm_compute. reflexivity.
Defined.

(** C1, on the code ([largest] and the ranking function).  The text
    [see {~k~: 1234} or [1, 2, 3, 4, 5, 6] ok] holds an object of 11
    characters and an array of 18; both are strict JSON.  [_sort_by_size]
    puts the array first, and [_extract_first_valid] then ranks the list
    again by score, which puts the object (confidence 0.9) before the array
    (confidence 0.8): under [largest] the object is attempted first and
    returned. *)
Theorem largest_is_ranked_again :
  forall unicode_alnum : char -> bool,
    let t := Py.txt "see {~k~: 1234} or [1, 2, 3, 4, 5, 6] ok" in
    let obj := Candidate.mk (Py.txt "{~k~: 1234}") 4 15 BRACE_MATCH 0.9 in
    let arr :=
      Candidate.mk (Py.txt "[1, 2, 3, 4, 5, 6]") 19 37 BRACE_MATCH 0.8 in
    extract_all_candidates unicode_alnum t = Ret [obj; arr]
    /\ _sort_by_size [obj; arr] = [arr; obj]
    /\ rank_candidates (_sort_by_size [obj; arr]) = [obj; arr]
    /\ Json.loads (Candidate.raw arr)
       = Decoded
           (Json.JArray
              (map (fun d => Json.JNumber (Py.txt d))
                 ["1"; "2"; "3"; "4"; "5"; "6"]%string))
    /\ extract_json_with_metadata unicode_alnum Json.loads t true Largest
       = Ret (ExtractResult.mk true
                (Some (One (Json.JObject
                              [(Py.txt "k", Json.JNumber (Py.txt "1234"))])))
                (Some (Py.txt "{~k~: 1234}")) 0.9 (Some BRACE_MATCH) [] 2
                None).
Proof.
  intros unicode_alnum. repeat split; vm_compute; reflexivity.
Qed.

(* ================================================================== *)
(** * The stack machine of the repairer on paired text *)
(* ================================================================== *)

Lemma complete_step_unfold (stk : list char) (ins esc : bool) (ch : char) :
  complete_step (CS stk ins esc) ch =
  if esc then CS stk ins false
  else if Py.eqc ch backslash then CS stk ins true
  else if Py.eqc ch dquote then CS stk (negb ins) esc
  else if ins then CS stk ins esc
  else if Py.eqc ch lbrace then CS (rbrace :: stk) ins esc
  else if Py.eqc ch lbracket then CS (rbracket :: stk) ins esc
  else if is_closer ch then
    match stk with
    | top :: stk' => if Py.eqc top ch then CS stk' ins esc else CS stk ins esc
    | [] => CS stk ins esc
    end
  else CS stk ins esc.
Proof.
  rewrite <- mem_closers2. unfold complete_step, CS.
  cbn [cs_stack cs_in_string cs_escape_next].
  destruct esc; [reflexivity|].
  destruct (Py.eqc ch backslash); [reflexivity|].
  destruct (Py.eqc ch dquote); [reflexivity|].
  destruct ins; [reflexivity|].
  destruct (Py.eqc ch lbrace); [reflexivity|].
  destruct (Py.eqc ch lbracket); [reflexivity|].
  destruct (Py.mem ch (Py.txt "}]")); [|reflexivity].
  destruct stk as [|top stk']; [reflexivity|].
  destruct (Py.eqc top ch); reflexivity.
Qed.

Lemma cs_plain (stk : list char) (c : char) :
  plain c = true -> complete_step (CS stk false false) c = CS stk false false.
Proof.
  intros Hp. destruct (plain_inv c Hp) as (H1 & H2 & H3 & H4 & H5).
  unfold is_opener in H3. apply orb_false_iff in H3. destruct H3 as [H3 H3'].
  rewrite complete_step_unfold, H1, H2, H3, H3'. unfold is_closer.
  rewrite H4, H5. reflexivity.
Qed.

Lemma cs_open (stk : list char) (o : char) :
  is_opener o = true ->
  complete_step (CS stk false false) o = CS (closer_of o :: stk) false false.
Proof. intros Ho. destruct (opener_inv o Ho); subst; reflexivity. Qed.

Lemma cs_close (stk : list char) (o : char) :
  is_opener o = true ->
  complete_step (CS (closer_of o :: stk) false false) (closer_of o)
  = CS stk false false.
Proof. intros Ho. destruct (opener_inv o Ho); subst; reflexivity. Qed.

Lemma replay_string_units (sb : text) :
  StrBody sb ->
  forall rest stk,
    fold_left complete_step (sb ++ rest) (CS stk true false)
    = fold_left complete_step rest (CS stk true false).
Proof.
  induction 1 as [|c s Hq Hb _ IH|c s _ IH]; intros rest stk;
    cbn [app fold_left].
  - reflexivity.
  - rewrite complete_step_unfold, Hb, Hq. apply IH.
  - change (complete_step (CS stk true false) backslash)
      with (CS stk true true).
    change (complete_step (CS stk true true) c) with (CS stk true false).
    apply IH.
Qed.

Lemma replay_balanced (b : text) :
  Balanced b ->
  forall rest stk,
    fold_left complete_step (b ++ rest) (CS stk false false)
    = fold_left complete_step rest (CS stk false false).
Proof.
  induction 1 as [|c b Hp _ IH|c b _ IH|s b Hs _ IH
                 |o inner b Ho _ IHi _ IHb]; intros rest stk;
    cbn [app fold_left].
  - reflexivity.
  - rewrite cs_plain by exact Hp. apply IH.
  - change (complete_step (CS stk false false) backslash)
      with (CS stk false true).
    change (complete_step (CS stk false true) c) with (CS stk false false).
    apply IH.
  - change (complete_step (CS stk false false) dquote)
      with (CS stk true false).
    rewrite <- app_assoc. rewrite (replay_string_units s Hs).
    cbn [app fold_left].
    change (complete_step (CS stk true false) dquote)
      with (CS stk false false).
    apply IH.
  - rewrite cs_open by exact Ho. rewrite <- app_assoc. rewrite IHi.
    cbn [app fold_left]. rewrite cs_close by exact Ho. apply IHb.
Qed.

Lemma replay_pending (pend : list char) (s : text) :
  Pending pend s ->
  forall rest stk,
    fold_left complete_step (s ++ rest) (CS stk false false)
    = fold_left complete_step rest
        (CS (map closer_of pend ++ stk) false false).
Proof.
  induction 1 as [b Hb|pend s o b _ IH Ho Hb]; intros rest stk.
  - cbn [map app]. apply replay_balanced. exact Hb.
  - rewrite <- app_assoc. rewrite IH. cbn [app fold_left].
    rewrite cs_open by exact Ho. rewrite (replay_balanced b Hb).
    reflexivity.
Qed.

Lemma balanced_app (a b : text) :
  Balanced a -> Balanced b -> Balanced (a ++ b).
Proof.
  intros Ha Hb.
  induction Ha as [|c a Hp _ IH|c a _ IH|s a Hs _ IH|o inner a Ho Hi _ _ IH];
    cbn [app].
  - exact Hb.
  - apply B_plain; assumption.
  - apply B_escape; assumption.
  - rewrite <- app_assoc. cbn [app]. apply B_string; assumption.
  - rewrite <- app_assoc. cbn [app]. apply B_group; assumption.
Qed.

Lemma pending_closed (pend : list char) (s : text) :
  Pending pend s ->
  forall b, Balanced b -> Balanced (s ++ b ++ map closer_of pend).
Proof.
  induction 1 as [b0 Hb0|pend s o b1 _ IH Ho Hb1]; intros b Hb.
  - cbn [map]. rewrite app_nil_r. apply balanced_app; assumption.
  - cbn [map].
    replace ((s ++ o :: b1) ++ b ++ closer_of o :: map closer_of pend)
      with (s ++ (o :: (b1 ++ b) ++ closer_of o :: []) ++ map closer_of pend).
    + apply IH. apply B_group; [exact Ho| |constructor].
      apply balanced_app; assumption.
    + rewrite <- !app_assoc. cbn [app]. rewrite <- !app_assoc. reflexivity.
Qed.

Lemma lstrip_split (l : text) :
  exists ws, l = ws ++ Py.lstrip l /\ forallb Py.isspace ws = true.
Proof.
  induction l as [|c l [ws [E Hws]]]; cbn [Py.lstrip].
  - exists []. split; reflexivity.
  - destruct (Py.isspace c) eqn:Ec.
    + exists (c :: ws). cbn [app forallb]. rewrite Ec, Hws.
      split; [f_equal; exact E|reflexivity].
    + exists []. split; reflexivity.
Qed.

Lemma rstrip_split (s : text) :
  exists ws, s = Py.rstrip s ++ ws /\ forallb Py.isspace ws = true.
Proof.
  unfold Py.rstrip. destruct (lstrip_split (rev s)) as [ws [E Hws]].
  exists (rev ws). split.
  - rewrite <- rev_app_distr, <- E, rev_involutive. reflexivity.
  - rewrite forallb_forall in *. intros x Hx. apply Hws.
    apply in_rev. exact Hx.
Qed.

Lemma space_not_special (c : char) :
  Py.isspace c = true ->
  Py.eqc c backslash = false /\ Py.eqc c dquote = false
  /\ Py.eqc c lbrace = false /\ Py.eqc c lbracket = false
  /\ is_closer c = false.
Proof.
  intros Hs. unfold is_closer.
  repeat split;
    try (apply orb_false_iff; split);
    (destruct (Py.eqc c _) eqn:E; [|reflexivity]);
    apply eqc_true in E; subst c; discriminate.
Qed.

Lemma replay_spaces (ws : text) :
  forallb Py.isspace ws = true ->
  forall stk ins esc,
    cs_stack (fold_left complete_step ws (CS stk ins esc)) = stk
    /\ cs_in_string (fold_left complete_step ws (CS stk ins esc)) = ins.
Proof.
  induction ws as [|c ws IH]; intros Hws stk ins esc; cbn [fold_left].
  - split; reflexivity.
  - cbn [forallb] in Hws. apply andb_true_iff in Hws. destruct Hws as [Hc Hws].
    destruct (space_not_special c Hc) as (H1 & H2 & H3 & H4 & H5).
    rewrite complete_step_unfold, H1, H2, H3, H4, H5.
    destruct esc, ins; apply IH; exact Hws.
Qed.

(** The stack and the in-string flag at the end of the scan are those of
    the untrimmed text. *)
Lemma replay_rstrip (s : text) :
  cs_stack (replay (Py.rstrip s)) = cs_stack (replay s)
  /\ cs_in_string (replay (Py.rstrip s)) = cs_in_string (replay s).
Proof.
  destruct (rstrip_split s) as [ws [E Hws]].
  unfold replay. rewrite E at 2 4. rewrite fold_left_app.
  destruct (fold_left complete_step (Py.rstrip s) complete_init)
    as [stk ins esc].
  destruct (replay_spaces ws Hws stk ins esc) as [H1 H2].
  unfold CS in H1, H2. rewrite H1, H2. split; reflexivity.
Qed.

(* ================================================================== *)
(** * Completion of truncated text *)
(* ================================================================== *)

Lemma complete_truncated_eq (t : text) :
  _complete_truncated t
  = ((Py.rstrip t
      ++ (if cs_in_string (replay (Py.rstrip t)) then [dquote] else []))
     ++ cs_stack (replay (Py.rstrip t)),
     (if cs_in_string (replay (Py.rstrip t))
      then ["string_completion"%string] else [])
     ++ map (fun _ => "brace_completion"%string)
          (cs_stack (replay (Py.rstrip t)))).
Proof.
  unfold _complete_truncated, replay.
  destruct (cs_in_string _); [reflexivity|].
  rewrite app_nil_r. reflexivity.
Qed.

Lemma labels_repeat (A : Type) (l : list A) (x : string) :
  map (fun _ => x) l = repeat x (List.length l).
Proof. induction l as [|a l IH]; cbn; [|rewrite IH]; reflexivity. Qed.

Lemma replay_pending_state (pend : list char) (s : text) :
  Pending pend s -> replay s = CS (map closer_of pend) false false.
Proof.
  intros Hp. unfold replay. rewrite <- (app_nil_r s).
  change complete_init with (CS [] false false).
  rewrite (replay_pending pend s Hp). cbn [fold_left]. rewrite app_nil_r.
  reflexivity.
Qed.

Lemma replay_open_string_state (pend : list char) (s sb : text) :
  Pending pend s -> StrBody sb ->
  replay (s ++ dquote :: sb) = CS (map closer_of pend) true false.
Proof.
  intros Hp Hs. unfold replay.
  change complete_init with (CS [] false false).
  rewrite (replay_pending pend s Hp). cbn [fold_left]. rewrite app_nil_r.
  change (complete_step (CS (map closer_of pend) false false) dquote)
    with (CS (map closer_of pend) true false).
  rewrite <- (app_nil_r sb). rewrite (replay_string_units sb Hs).
  reflexivity.
Qed.

(** X1: [_complete_truncated] closes what is open.  Let a text be properly
    paired up to openers that are still open ([pend] lists them, innermost
    first).  The function returns the text without its trailing blanks,
    followed by the closers these openers expect, innermost first, and one
    [brace_completion] label per closer.  When the text breaks off inside
    a string literal, a double quote is put before the closers and
    [string_completion] is the first label.  If the text has no trailing
    blank, what is returned is properly paired. *)
Theorem complete_truncated_closes :
  forall (pend : list char) (s : text),
    Pending pend s ->
    (_complete_truncated s
     = (Py.rstrip s ++ map closer_of pend,
        repeat "brace_completion"%string (List.length pend))
     /\ (Py.rstrip s = s -> Balanced (fst (_complete_truncated s))))
    /\ forall sb,
         StrBody sb ->
         let t := s ++ dquote :: sb in
         _complete_truncated t
         = (Py.rstrip t ++ dquote :: map closer_of pend,
            "string_completion"%string
            :: repeat "brace_completion"%string (List.length pend))
         /\ (Py.rstrip t = t -> Balanced (fst (_complete_truncated t))).
Proof.
  intros pend s Hp. split.
  - assert (E : _complete_truncated s
                = (Py.rstrip s ++ map closer_of pend,
                   repeat "brace_completion"%string (List.length pend))).
    { rewrite complete_truncated_eq.
      destruct (replay_rstrip s) as [H1 H2].
      rewrite H1, H2, (replay_pending_state pend s Hp).
      cbn [cs_stack cs_in_string CS]. rewrite app_nil_r.
      rewrite labels_repeat, length_map. reflexivity. }
    split; [exact E|].
    intros Hr. rewrite E, Hr. cbn [fst].
    apply (pending_closed pend s Hp []). constructor.
  - intros sb Hs t.
    assert (E : _complete_truncated t
                = (Py.rstrip t ++ dquote :: map closer_of pend,
                   "string_completion"%string
                   :: repeat "brace_completion"%string (List.length pend))).
    { rewrite complete_truncated_eq.
      destruct (replay_rstrip t) as [H1 H2].
      rewrite H1, H2. unfold t.
      rewrite (replay_open_string_state pend s sb Hp Hs).
      cbn [cs_stack cs_in_string CS].
      rewrite labels_repeat, length_map. rewrite <- app_assoc. reflexivity. }
    split; [exact E|].
    intros Hr. rewrite E, Hr. cbn [fst]. unfold t.
    replace ((s ++ dquote :: sb) ++ dquote :: map closer_of pend)
      with (s ++ (dquote :: sb ++ dquote :: []) ++ map closer_of pend).
    + apply (pending_closed pend s Hp). apply B_string; [exact Hs|constructor].
    + rewrite <- !app_assoc. cbn [app]. rewrite <- app_assoc. reflexivity.
Qed.

(* ================================================================== *)
(** * The brace matcher emits balanced spans *)
(* ================================================================== *)

Lemma stray_closer_unfold (stk : list char) (ins esc : bool) (ch : char) :
  stray_closer (CS stk ins esc) ch
  = negb esc && negb ins && is_closer ch
    && match stk with top :: _ => negb (Py.eqc top ch) | [] => true end.
Proof. reflexivity. Qed.

Lemma no_stray_string_units (sb : text) :
  StrBody sb ->
  forall rest stk,
    no_stray_closer_from (CS stk true false) (sb ++ rest)
    = no_stray_closer_from (CS stk true false) rest.
Proof.
  induction 1 as [|c s Hq Hb _ IH|c s _ IH]; intros rest stk;
    cbn [app no_stray_closer_from].
  - reflexivity.
  - rewrite stray_closer_unfold. cbn [negb andb].
    rewrite complete_step_unfold, Hb, Hq. apply IH.
  - rewrite !stray_closer_unfold.
    change (complete_step (CS stk true false) backslash)
      with (CS stk true true).
    rewrite stray_closer_unfold.
    change (complete_step (CS stk true true) c) with (CS stk true false).
    cbn [negb andb]. apply IH.
Qed.

Lemma plain_not_closer (c : char) : plain c = true -> is_closer c = false.
Proof.
  intros Hp. destruct (plain_inv c Hp) as (_ & _ & _ & H4 & H5).
  unfold is_closer. rewrite H4, H5. reflexivity.
Qed.

Lemma opener_not_closer_b (o : char) :
  is_opener o = true -> is_closer o = false.
Proof. intros Ho. destruct (opener_inv o Ho); subst; reflexivity. Qed.

Lemma no_stray_balanced (b : text) :
  Balanced b ->
  forall rest stk,
    no_stray_closer_from (CS stk false false) (b ++ rest)
    = no_stray_closer_from (CS stk false false) rest.
Proof.
  induction 1 as [|c b Hp _ IH|c b _ IH|s b Hs _ IH
                 |o inner b Ho _ IHi _ IHb]; intros rest stk;
    cbn [app no_stray_closer_from].
  - reflexivity.
  - rewrite stray_closer_unfold, (plain_not_closer c Hp).
    rewrite cs_plain by exact Hp. cbn [negb andb]. apply IH.
  - rewrite stray_closer_unfold.
    change (complete_step (CS stk false false) backslash)
      with (CS stk false true).
    rewrite stray_closer_unfold.
    change (complete_step (CS stk false true) c) with (CS stk false false).
    cbn [negb andb]. apply IH.
  - rewrite stray_closer_unfold.
    change (complete_step (CS stk false false) dquote)
      with (CS stk true false).
    cbn [negb andb]. rewrite <- app_assoc.
    rewrite (no_stray_string_units s Hs). cbn [app no_stray_closer_from].
    rewrite stray_closer_unfold.
    change (complete_step (CS stk true false) dquote)
      with (CS stk false false).
    cbn [negb andb]. apply IH.
  - rewrite stray_closer_unfold, (opener_not_closer_b o Ho).
    rewrite cs_open by exact Ho. cbn [negb andb].
    rewrite <- app_assoc. rewrite IHi. cbn [app no_stray_closer_from].
    rewrite stray_closer_unfold, eqc_refl.
    rewrite cs_close by exact Ho.
    assert (Hc : is_closer (closer_of o) = true)
      by (destruct (opener_inv o Ho); subst; reflexivity).
    rewrite Hc. cbn [negb andb]. apply IHb.
Qed.

Lemma rstrip_snoc (l : text) (c : char) :
  Py.isspace c = false -> Py.rstrip (l ++ [c]) = l ++ [c].
Proof.
  intros Hc. unfold Py.rstrip. rewrite rev_app_distr. cbn [rev app].
  rewrite (lstrip_head c _ Hc). cbn [rev]. rewrite rev_involutive.
  reflexivity.
Qed.

Lemma span_strip (raw : text) : balanced_span raw -> Py.strip raw = raw.
Proof.
  intros (o & b & -> & Ho & Hb). unfold Py.strip.
  assert (Hos : Py.isspace o = false)
    by (destruct (opener_inv o Ho); subst; reflexivity).
  assert (Hcs : Py.isspace (closer_of o) = false)
    by (destruct (opener_inv o Ho); subst; reflexivity).
  rewrite (lstrip_head o _ Hos).
  change (o :: b ++ [closer_of o]) with ((o :: b) ++ [closer_of o]).
  apply rstrip_snoc. exact Hcs.
Qed.

(** A balanced span is not truncated. *)
Lemma span_not_truncated (raw : text) :
  balanced_span raw -> is_truncated_json raw = false.
Proof.
  intros Hspan. pose proof (span_strip raw Hspan) as Hstrip.
  destruct Hspan as (o & b & -> & Ho & Hb).
  rewrite is_truncated_json_count, count_truncated_replay.
  - unfold replay_truncated. rewrite Hstrip. unfold replay.
    change complete_init with (CS [] false false). cbn [fold_left].
    rewrite cs_open by exact Ho. rewrite (replay_balanced b Hb).
    cbn [fold_left]. rewrite cs_close by exact Ho. reflexivity.
  - rewrite Hstrip. unfold no_stray_closer.
    change complete_init with (CS [] false false).
    cbn [no_stray_closer_from].
    rewrite stray_closer_unfold, (opener_not_closer_b o Ho).
    rewrite cs_open by exact Ho. cbn [negb andb].
    rewrite (no_stray_balanced b Hb). cbn [no_stray_closer_from].
    rewrite stray_closer_unfold, eqc_refl. rewrite andb_false_r. reflexivity.
Qed.

(** Completeness of the matcher, for use below. *)
Lemma match_braces_complete (pre : text) (o : char) (b suf : text) :
  is_opener o = true -> Balanced b ->
  _match_braces (pre ++ o :: b ++ closer_of o :: suf) (List.length pre)
  = Some (List.length pre, List.length pre + List.length b + 1).
Proof.
  intros Ho Hb. rewrite match_braces_enter by exact Ho.
  rewrite (loop_balanced _ b Hb). rewrite loop_close by exact Ho.
  rewrite loop_done. f_equal. f_equal. lia.
Qed.

(** The slice a match returns is a balanced span inside the text. *)
Lemma match_braces_span (t : text) (i s e : nat) :
  _match_braces t i = Some (s, e) ->
  s = i /\ i < e /\ e < List.length t
  /\ balanced_span (Py.slice t s (e + 1)).
Proof.
  intros H. apply match_braces_sound in H.
  destruct H as (pre & o & b & suf & -> & Hlen & Ho & Hb & -> & ->).
  split; [reflexivity|]. split; [lia|]. split.
  - rewrite length_app. cbn [List.length]. rewrite length_app.
    cbn [List.length]. lia.
  - exists o, b. split; [|split; assumption].
    unfold Py.slice. rewrite skipn_app, skipn_all2 by lia.
    replace (i - List.length pre) with 0 by lia. cbn [skipn app].
    replace (i + List.length b + 1 + 1 - i)
      with (List.length (o :: b ++ [closer_of o]))
      by (cbn [List.length]; rewrite length_app; cbn [List.length]; lia).
    replace (o :: b ++ closer_of o :: suf)
      with ((o :: b ++ [closer_of o]) ++ suf)
      by (cbn [app]; rewrite <- app_assoc; reflexivity).
    rewrite firstn_app, firstn_all, Nat.sub_diag. cbn [firstn].
    apply app_nil_r.
Qed.

Lemma strongly_sorted_snoc (A : Type) (R : A -> A -> Prop) (l : list A)
    (x : A) :
  StronglySorted R l -> Forall (fun a => R a x) l ->
  StronglySorted R (l ++ [x]).
Proof.
  induction 1 as [|a l Hs IH Ha]; intros Hall; cbn [app].
  - constructor; constructor.
  - inversion Hall as [|? ? Hax Hall']; subst.
    constructor; [apply IH; exact Hall'|].
    apply Forall_app. split; [exact Ha|]. constructor; [exact Hax|constructor].
Qed.

Lemma brace_loop_spans (t : text) (fuel : nat) :
  forall i acc,
    Forall (span_candidate t) acc ->
    StronglySorted before acc ->
    Forall (fun a => Candidate.end_pos a <= i) acc ->
    exists cands,
      brace_loop fuel t i acc = Ret cands
      /\ Forall (span_candidate t) cands
      /\ StronglySorted before cands.
Proof.
  induction fuel as [|fuel IH]; intros i acc Hacc Hsort Hend;
    cbn [brace_loop].
  - exists acc. auto.
  - destruct (nth_error t i) as [ch|]; [|exists acc; auto].
    assert (Hnext : Forall (fun a => Candidate.end_pos a <= i + 1) acc).
    { eapply Forall_impl; [|exact Hend]. cbn. intros a Ha. lia. }
    destruct (Py.mem ch (Py.txt "{[")); [|apply IH; assumption].
    destruct (_match_braces t i) as [[s e]|] eqn:Hm; [|apply IH; assumption].
    apply match_braces_span in Hm. destruct Hm as (-> & Hie & Hlen & Hspan).
    unfold Candidate.new. rewrite calculate_confidence_ok. cbn [bind].
    apply IH.
    + apply Forall_app. split; [exact Hacc|]. constructor; [|constructor].
      unfold span_candidate. cbn. repeat split; try assumption; try lia.
      apply span_not_truncated. exact Hspan.
    + apply strongly_sorted_snoc; [exact Hsort|].
      eapply Forall_impl; [|exact Hend]. unfold before. cbn. intros a Ha. lia.
    + apply Forall_app. split.
      * eapply Forall_impl; [|exact Hend]. cbn. intros a Ha. lia.
      * constructor; [cbn; lia|constructor].
Qed.

(** X2: [extract_from_brace_matching] returns on every text, and each of
    its candidates is a balanced span: an opener, properly paired text and
    the closer the opener expects.  The span is the slice of the text
    between the candidate's offsets, it is not empty, it lies inside the
    text, and [is_truncated_json] does not flag it.  The candidates come
    in the order of the text and do not overlap: none lies inside
    another. *)
Theorem brace_candidates_are_spans :
  forall t : text,
  exists cands,
    extract_from_brace_matching t = Ret cands
    /\ Forall
         (fun c =>
            balanced_span (Candidate.raw c)
            /\ is_truncated_json (Candidate.raw c) = false
            /\ Candidate.raw c
               = Py.slice t (Candidate.start_pos c) (Candidate.end_pos c)
            /\ Candidate.start_pos c < Candidate.end_pos c
            /\ Candidate.end_pos c <= List.length t)
         cands
    /\ StronglySorted
         (fun a b => Candidate.end_pos a <= Candidate.start_pos b) cands.
Proof.
  intros t. unfold extract_from_brace_matching.
  apply (brace_loop_spans t); constructor.
Qed.

(** ** A single span *)

Lemma brace_loop_nonopener (t : text) (fuel i : nat)
    (acc : list Candidate.t) (ch : char) :
  nth_error t i = Some ch -> is_opener ch = false ->
  brace_loop (S fuel) t i acc = brace_loop fuel t (i + 1) acc.
Proof.
  intros Hn Hch. cbn [brace_loop]. rewrite Hn, mem_openers, Hch. reflexivity.
Qed.

Lemma brace_loop_skip (t : text) (k : nat) :
  forall fuel i acc,
    (forall j, i <= j < i + k ->
               exists ch, nth_error t j = Some ch /\ is_opener ch = false) ->
    List.length t - i < fuel ->
    brace_loop fuel t i acc = brace_loop fuel t (i + k) acc.
Proof.
  induction k as [|k IH]; intros fuel i acc Hno Hfuel.
  - rewrite Nat.add_0_r. reflexivity.
  - destruct fuel as [|fuel]; [lia|].
    destruct (Hno i ltac:(lia)) as [ch [Hn Hch]].
    assert (Hlt : i < List.length t)
      by (apply nth_error_Some; rewrite Hn; discriminate).
    rewrite (brace_loop_nonopener t fuel i acc ch Hn Hch).
    rewrite (brace_loop_fuel t fuel (S fuel) (i + 1) acc) by lia.
    rewrite IH; [f_equal; lia| |lia].
    intros j Hj. apply Hno. lia.
Qed.

Lemma brace_loop_end (t : text) (fuel : nat) (acc : list Candidate.t) :
  brace_loop fuel t (List.length t) acc = Ret acc.
Proof.
  destruct fuel as [|fuel]; [reflexivity|]. cbn [brace_loop].
  replace (nth_error t (List.length t)) with (@None char); [reflexivity|].
  symmetry. apply nth_error_None. lia.
Qed.

Lemma nth_error_middle (A : Type) (l1 l2 l3 : list A) (j : nat) :
  List.length l1 <= j < List.length l1 + List.length l2 ->
  nth_error (l1 ++ l2 ++ l3) j = nth_error l2 (j - List.length l1).
Proof.
  intros Hj. rewrite nth_error_app2 by lia. apply nth_error_app1. lia.
Qed.

Lemma forall_nth (A : Type) (P : A -> Prop) (l : list A) (j : nat) :
  Forall P l -> j < List.length l -> exists x, nth_error l j = Some x /\ P x.
Proof.
  intros Hall Hj. destruct (nth_error l j) as [x|] eqn:E.
  - exists x. split; [reflexivity|].
    rewrite Forall_forall in Hall. apply Hall.
    eapply nth_error_In. exact E.
  - apply nth_error_None in E. lia.
Qed.

(** X3: a text that holds one balanced span and no opening brace or
    bracket outside it gives exactly one brace-matched candidate: that
    span, with its offsets in the text and the confidence of the brace
    formula. *)
Theorem single_span_single_candidate :
  forall (pre : text) (o : char) (b suf : text),
    Forall (fun c => is_opener c = false) pre ->
    Forall (fun c => is_opener c = false) suf ->
    is_opener o = true -> Balanced b ->
    extract_from_brace_matching (pre ++ (o :: b ++ [closer_of o]) ++ suf)
    = Ret [Candidate.mk (o :: b ++ [closer_of o]) (List.length pre)
             (List.length pre + List.length b + 2) BRACE_MATCH
             (_calculate_brace_match_confidence (o :: b ++ [closer_of o]))].
Proof.
  intros pre o b suf Hpre Hsuf Ho Hb.
  set (span := o :: b ++ [closer_of o]).
  set (t := pre ++ span ++ suf).
  assert (Hspan_len : List.length span = List.length b + 2)
    by (unfold span; cbn [List.length]; rewrite length_app; cbn; lia).
  assert (Hlen : List.length t
                 = List.length pre + (List.length b + 2) + List.length suf)
    by (unfold t; rewrite !length_app, Hspan_len; lia).
  assert (Ht : t = pre ++ o :: b ++ closer_of o :: suf).
  { unfold t, span. cbn [app]. rewrite <- app_assoc. reflexivity. }
  unfold extract_from_brace_matching.
  rewrite (brace_loop_skip t (List.length pre) _ 0 []); [|
    intros j Hj; unfold t;
    rewrite nth_error_app1 by lia;
    apply (forall_nth _ _ pre j Hpre); lia | lia].
  cbn [Nat.add].
  assert (Hn : nth_error t (List.length pre) = Some o).
  { rewrite Ht. rewrite nth_error_app2 by lia. rewrite Nat.sub_diag.
    reflexivity. }
  assert (Hm : _match_braces t (List.length pre)
               = Some (List.length pre,
                       List.length pre + List.length b + 1)).
  { rewrite Ht. apply match_braces_complete; assumption. }
  assert (Hslice : Py.slice t (List.length pre)
                     (List.length pre + List.length b + 1 + 1) = span).
  { unfold Py.slice, t. rewrite skipn_app, skipn_all, Nat.sub_diag.
    cbn [skipn app].
    replace (List.length pre + List.length b + 1 + 1 - List.length pre)
      with (List.length span) by lia.
    rewrite firstn_app, firstn_all, Nat.sub_diag. cbn [firstn].
    apply app_nil_r. }
  cbn [brace_loop]. rewrite Hn, mem_openers, Ho, Hm, Hslice.
  unfold Candidate.new. rewrite calculate_confidence_ok.
  cbn [bind app].
  rewrite (brace_loop_skip t (List.length suf)); [| |lia].
  - replace (List.length pre + List.length b + 1 + 1 + List.length suf)
      with (List.length t) by lia.
    rewrite brace_loop_end.
    replace (List.length pre + List.length b + 1 + 1)
      with (List.length pre + List.length b + 2) by lia.
    reflexivity.
  - intros j Hj. unfold t. rewrite app_assoc.
    rewrite nth_error_app2 by (rewrite length_app; lia).
    apply (forall_nth _ _ suf _ Hsuf). rewrite length_app. lia.
Qed.

(* ================================================================== *)
(** * The rewrites of a repair pass *)
(* ================================================================== *)

Lemma filter_filter (A : Type) (f g : A -> bool) (l : list A) :
  filter f (filter g l) = filter (fun x => g x && f x) l.
Proof.
  induction l as [|x l IH]; [reflexivity|].
  cbn [filter]. destruct (g x); cbn [filter andb].
  - destruct (f x); [f_equal|]; exact IH.
  - exact IH.
Qed.

Lemma filter_id_iff (A : Type) (f : A -> bool) (l : list A) :
  filter f l = l <-> forallb f l = true.
Proof.
  induction l as [|x l IH]; [split; reflexivity|].
  cbn [filter forallb]. destruct (f x) eqn:E; cbn [andb].
  - rewrite <- IH. split; [intros H; injection H as H; exact H|].
    intros ->. reflexivity.
  - split; [|discriminate]. intros H.
    assert (Hin : In x (filter f l)) by (rewrite H; left; reflexivity).
    apply filter_In in Hin. destruct Hin as [_ Hx]. congruence.
Qed.

Lemma forallb_negb_existsb (A : Type) (f : A -> bool) (l : list A) :
  forallb (fun x => negb (f x)) l = negb (existsb f l).
Proof.
  induction l as [|x l IH]; [reflexivity|].
  cbn [forallb existsb]. rewrite IH. destruct (f x); reflexivity.
Qed.

Lemma eqt_false (a b : text) : Py.eqt a b = false <-> a <> b.
Proof.
  split.
  - intros H E. apply eqt_true in E. congruence.
  - intros H. destruct (Py.eqt a b) eqn:E; [|reflexivity].
    apply eqt_true in E. contradiction.
Qed.

(** The loop over [zero_width_chars] is one filter. *)
Lemma remove_zero_width (t : text) :
  fold_left (fun s c => Py.remove_char c s) zero_width_chars t
  = filter (fun c => negb (zero_width c)) t.
Proof.
  unfold zero_width_chars. cbn [fold_left]. unfold Py.remove_char.
  rewrite !filter_filter. apply filter_ext. intros c.
  unfold zero_width, zero_width_chars, Py.mem. cbn [existsb].
  rewrite !negb_orb. cbn [negb]. rewrite !andb_true_r, !andb_assoc.
  reflexivity.
Qed.

Lemma startswith_nil (s : text) : Py.startswith s [] = true.
Proof. destruct s; reflexivity. Qed.

Lemma filter_idem (A : Type) (f : A -> bool) (l : list A) :
  filter f (filter f l) = filter f l.
Proof.
  rewrite filter_filter. apply filter_ext. intros x. destruct (f x); reflexivity.
Qed.

(** The function in closed form. *)
Lemma cleanup_whitespace_eq (t : text) :
  _cleanup_whitespace t
  = (filter (fun c => negb (zero_width c)) t,
     if Py.startswith t [BOM] then ["bom_removal"%string]
     else if existsb zero_width t then ["invisible_char_removal"%string]
     else []).
Proof.
  unfold _cleanup_whitespace.
  destruct (Py.startswith t [BOM]) eqn:Hbom.
  - rewrite remove_zero_width.
    destruct t as [|c t']; [discriminate|].
    cbn [Py.startswith] in Hbom.
    rewrite startswith_nil, andb_true_r in Hbom.
    apply eqc_true in Hbom. subst c.
    cbn [skipn existsb String.eqb]. rewrite orb_true_l.
    cbn [negb]. rewrite andb_false_r.
    reflexivity.
  - rewrite remove_zero_width. cbn [existsb negb]. rewrite andb_true_r.
    f_equal.
    destruct (existsb zero_width t) eqn:Hz.
    + assert (Hne : filter (fun c => negb (zero_width c)) t <> t).
      { intros E. apply (proj1 (filter_id_iff _ _ _)) in E.
        rewrite forallb_negb_existsb, Hz in E. discriminate. }
      apply eqt_false in Hne. rewrite Hne. reflexivity.
    + assert (He : filter (fun c => negb (zero_width c)) t = t).
      { apply filter_id_iff. rewrite forallb_negb_existsb, Hz. reflexivity. }
      rewrite He, eqt_refl. reflexivity.
Qed.

(** X4: [_cleanup_whitespace] returns the text without its zero-width
    characters (U+200B, U+200C, U+200D, U+FEFF), wherever they stand.  It
    reports [bom_removal] when the text starts with U+FEFF, and then nothing
    else; otherwise [invisible_char_removal] when the text holds a
    zero-width character, and otherwise nothing.  On its own result it
    changes nothing and reports nothing. *)
Theorem cleanup_whitespace_characterised :
  forall t : text,
    fst (_cleanup_whitespace t) = filter (fun c => negb (zero_width c)) t
    /\ snd (_cleanup_whitespace t)
       = (if Py.startswith t [BOM] then ["bom_removal"%string]
          else if existsb zero_width t then ["invisible_char_removal"%string]
          else [])
    /\ _cleanup_whitespace (fst (_cleanup_whitespace t))
       = (fst (_cleanup_whitespace t), []).
Proof.
  intros t. rewrite (cleanup_whitespace_eq t). cbn [fst snd]. repeat split.
  rewrite (cleanup_whitespace_eq (filter _ t)). rewrite filter_idem. f_equal.
  set (r := filter (fun c => negb (zero_width c)) t).
  assert (Hz : existsb zero_width r = false).
  { apply negb_true_iff. rewrite <- forallb_negb_existsb.
    apply forallb_forall. intros x Hx. unfold r in Hx.
    apply filter_In in Hx. apply Hx. }
  rewrite Hz.
  destruct r as [|c r']; [reflexivity|].
  cbn [Py.startswith]. rewrite startswith_nil, andb_true_r.
  destruct (Py.eqc BOM c) eqn:E; [|reflexivity].
  apply eqc_true in E. subst c. cbn [existsb] in Hz.
  apply orb_false_iff in Hz. destruct Hz as [Hz _]. discriminate.
Qed.

(** ** Quote normalisation *)

Lemma normalize_quotes_loop_spec (t : text) (n : nat) :
  forall rest i ins,
    List.length rest <= n ->
    Forall2 quote_swap rest (fst (normalize_quotes_loop t rest i ins))
    /\ (snd (normalize_quotes_loop t rest i ins) = false
        <-> fst (normalize_quotes_loop t rest i ins) = rest).
Proof.
  induction n as [|n IH]; intros rest i ins Hlen.
  - destruct rest; [|cbn in Hlen; lia]. cbn. split; [constructor|tauto].
  - destruct rest as [|ch rest']; [cbn; split; [constructor|tauto]|].
    cbn [List.length] in Hlen.
    assert (Hplain : forall ins',
      let p := normalize_quotes_loop t rest' (i + 1) ins' in
      Forall2 quote_swap (ch :: rest') (ch :: fst p)
      /\ (snd p = false <-> ch :: fst p = ch :: rest')).
    { intros ins'. destruct (IH rest' (i + 1) ins' ltac:(lia)) as [H1 H2].
      cbn zeta. split.
      - constructor; [left; reflexivity|exact H1].
      - rewrite H2. split; [intros ->; reflexivity|].
        intros H. injection H as H. exact H. }
    assert (Hno :
      let p := (if Py.eqc ch dquote then
            let (r, m) :=
              normalize_quotes_loop t rest' (i + 1) (negb ins) in
            (ch :: r, m)
          else if Py.eqc ch squote && negb ins
                  && _is_json_string_quote t i then
            let (r, _) :=
              normalize_quotes_loop t rest' (i + 1) ins in
            (dquote :: r, true)
          else
            let (r, m) :=
              normalize_quotes_loop t rest' (i + 1) ins in
            (ch :: r, m)) in
      Forall2 quote_swap (ch :: rest') (fst p)
      /\ (snd p = false <-> fst p = ch :: rest')).
    { cbn zeta. destruct (Py.eqc ch dquote) eqn:Ed.
      - pose proof (Hplain (negb ins)) as H. cbn zeta in H.
        destruct (normalize_quotes_loop t rest' (i + 1) (negb ins)).
        exact H.
      - destruct (Py.eqc ch squote && negb ins && _is_json_string_quote t i)
          eqn:Es.
        + apply andb_true_iff in Es. destruct Es as [Es _].
          apply andb_true_iff in Es. destruct Es as [Es _].
          apply eqc_true in Es. subst ch.
          destruct (IH rest' (i + 1) ins ltac:(lia)) as [H1 _].
          destruct (normalize_quotes_loop t rest' (i + 1) ins) as [r m].
          cbn [fst snd] in *. split.
          * constructor; [right; split; reflexivity|exact H1].
          * split; [discriminate|]. intros H. injection H as H _.
            discriminate.
        + pose proof (Hplain ins) as H. cbn zeta in H.
          destruct (normalize_quotes_loop t rest' (i + 1) ins).
          exact H. }
    cbn [normalize_quotes_loop].
    destruct (Py.eqc ch backslash) eqn:Eb; [|exact Hno].
    destruct rest' as [|nxt rest'']; [exact Hno|].
    cbn [List.length] in Hlen.
    destruct (IH rest'' (i + 2) ins ltac:(lia)) as [H1 H2].
    destruct (normalize_quotes_loop t rest'' (i + 2) ins) as [r m].
    cbn [fst snd] in *. split.
    + constructor; [left; reflexivity|].
      constructor; [left; reflexivity|exact H1].
    + rewrite H2. split; [intros ->; reflexivity|].
      intros H. injection H as H. exact H.
Qed.

Lemma quote_swap_id (t r : text) :
  Forall2 quote_swap t r -> ~ In squote t -> r = t.
Proof.
  induction 1 as [|x y t r Hxy _ IH]; intros Hn; [reflexivity|].
  f_equal.
  - destruct Hxy as [E|[E _]]; [exact E|].
    exfalso. apply Hn. left. exact E.
  - apply IH. intros Hin. apply Hn. right. exact Hin.
Qed.

Lemma normalize_quotes_spec (t : text) :
  Forall2 quote_swap t (fst (_normalize_quotes t))
  /\ snd (_normalize_quotes t)
     = (if Py.eqt (fst (_normalize_quotes t)) t then []
        else ["quote_normalization"%string]).
Proof.
  destruct (normalize_quotes_loop_spec t (List.length t) t 0 false (le_n _))
    as [H1 H2].
  unfold _normalize_quotes.
  destruct (normalize_quotes_loop t t 0 false) as [r m].
  cbn [fst snd] in *. split; [exact H1|].
  destruct m.
  - assert (Hne : r <> t) by (intros E; apply H2 in E; discriminate).
    apply eqt_false in Hne. rewrite Hne. reflexivity.
  - rewrite (proj1 H2 eq_refl), eqt_refl. reflexivity.
Qed.

(** X5: [_normalize_quotes] keeps the length of the text and, position by
    position, either keeps the character or puts a double quote where a
    single quote stood; nothing else is touched.  It reports
    [quote_normalization] exactly when the text it returns differs from its
    input, and a text with no single quote comes back as it is. *)
Theorem normalize_quotes_pointwise :
  forall t : text,
    List.length (fst (_normalize_quotes t)) = List.length t
    /\ Forall2 quote_swap t (fst (_normalize_quotes t))
    /\ snd (_normalize_quotes t)
       = (if Py.eqt (fst (_normalize_quotes t)) t then []
          else ["quote_normalization"%string])
    /\ (~ In squote t -> _normalize_quotes t = (t, [])).
Proof.
  intros t. destruct (normalize_quotes_spec t) as [H1 Hlab].
  split; [symmetry; eapply Forall2_length; exact H1|].
  split; [exact H1|]. split; [exact Hlab|].
  intros Hn. pose proof (quote_swap_id t _ H1 Hn) as E.
  rewrite E, eqt_refl in Hlab.
  destruct (_normalize_quotes t) as [r labels]. cbn [fst snd] in *.
  subst. reflexivity.
Qed.

(** ** A repair that reports nothing *)

Lemma cleanup_whitespace_silent (t : text) :
  snd (_cleanup_whitespace t) = [] -> fst (_cleanup_whitespace t) = t.
Proof.
  rewrite (cleanup_whitespace_eq t). cbn [fst snd].
  destruct (Py.startswith t [BOM]); [discriminate|].
  destruct (existsb zero_width t) eqn:Hz; [discriminate|].
  intros _. apply filter_id_iff. rewrite forallb_negb_existsb, Hz. reflexivity.
Qed.

Lemma repair_pass_silent (t : text) :
  snd (repair_pass t) = [] -> fst (repair_pass t) = t.
Proof.
  unfold repair_pass.
  destruct (_remove_trailing_commas t) as [t1 a1] eqn:E1.
  destruct (_normalize_quotes t1) as [t2 a2] eqn:E2.
  destruct (_fix_unquoted_keys t2) as [t3 a3] eqn:E3.
  destruct (_cleanup_whitespace t3) as [t4 a4] eqn:E4.
  cbn [fst snd]. intros H.
  apply app_eq_nil in H. destruct H as [-> H].
  apply app_eq_nil in H. destruct H as [-> H].
  apply app_eq_nil in H. destruct H as [-> ->].
  assert (H1 : t1 = t).
  { unfold _remove_trailing_commas in E1.
    destruct (Py.eqt (Re.sub trailing_comma_pattern
                        (fun m => Re.group t m 1) t) t) eqn:E;
      cbn [negb] in E1; [|discriminate].
    apply eqt_true in E. congruence. }
  assert (H2 : t2 = t1).
  { destruct (normalize_quotes_spec t1) as (_ & Hs).
    rewrite E2 in Hs. cbn [fst snd] in Hs.
    destruct (Py.eqt t2 t1) eqn:E; [|discriminate].
    apply eqt_true in E. exact E. }
  assert (H3 : t3 = t2).
  { unfold _fix_unquoted_keys in E3.
    match type of E3 with
    | (?s, if negb (Py.eqt ?s t2) then _ else _) = _ =>
        destruct (Py.eqt s t2) eqn:E; cbn [negb] in E3; [|discriminate];
        apply eqt_true in E
    end.
    congruence. }
  assert (H4 : t4 = t3).
  { pose proof (cleanup_whitespace_silent t3) as H.
    rewrite E4 in H. apply H. reflexivity. }
  congruence.
Qed.

Lemma repair_loop_labels (n : nat) :
  forall t acc, exists l, snd (repair_loop n t acc) = acc ++ l.
Proof.
  induction n as [|n IH]; intros t acc; cbn [repair_loop].
  - exists []. rewrite app_nil_r. reflexivity.
  - destruct (repair_pass t) as [cur applied].
    destruct (Py.eqt cur t).
    + exists applied. reflexivity.
    + destruct (IH cur (acc ++ applied)) as [l Hl].
      exists (applied ++ l). rewrite Hl, app_assoc. reflexivity.
Qed.

Lemma repair_loop_silent (n : nat) (t : text) :
  snd (repair_loop n t []) = [] -> fst (repair_loop n t []) = t.
Proof.
  destruct n as [|n]; [reflexivity|].
  cbn [repair_loop].
  pose proof (repair_pass_silent t) as Hp.
  destruct (repair_pass t) as [cur applied]. cbn [fst snd app] in *.
  destruct (Py.eqt cur t) eqn:E.
  - apply eqt_true in E. intros _. exact E.
  - destruct (repair_loop_labels n cur applied) as [l Hl].
    rewrite Hl. intros H. apply app_eq_nil in H. destruct H as [-> _].
    rewrite Hp in E by reflexivity. rewrite eqt_refl in E. discriminate.
Qed.

Lemma complete_truncated_silent (t : text) :
  snd (_complete_truncated t) = [] -> fst (_complete_truncated t) = Py.rstrip t.
Proof.
  unfold _complete_truncated.
  destruct (cs_in_string _); cbn [fst snd app]; [discriminate|].
  destruct (cs_stack _); cbn [map]; [|discriminate].
  intros _. apply app_nil_r.
Qed.

(** X6: when [repair_json] reports no repair, it has changed nothing: the
    repaired text is the input, except that a text flagged as truncated
    comes back without its trailing blanks. *)
Theorem repair_without_label_keeps_text :
  forall (t : text) (max_iterations : nat),
    RepairResult.repairs_applied (repair_json t max_iterations) = [] ->
    RepairResult.repaired (repair_json t max_iterations)
    = if RepairResult.is_truncated (repair_json t max_iterations)
      then Py.rstrip t else t.
Proof.
  intros t n. unfold repair_json.
  pose proof (repair_loop_silent n t) as Hl.
  destruct (repair_loop n t []) as [cur labels]. cbn [fst snd] in Hl.
  destruct (is_truncated_json cur).
  - pose proof (complete_truncated_silent cur) as Hc.
    destruct (_complete_truncated cur) as [cur' applied].
    cbn [fst snd RepairResult.repairs_applied RepairResult.repaired
         RepairResult.is_truncated] in *.
    intros H. apply app_eq_nil in H. destruct H as [-> ->].
    rewrite Hc by reflexivity. rewrite Hl by reflexivity. reflexivity.
  - cbn [RepairResult.repairs_applied RepairResult.repaired
         RepairResult.is_truncated].
    intros ->. apply Hl. reflexivity.
Qed.

Lemma repair_without_label_keeps_text_witness :
  RepairResult.repaired (repair_json (Py.txt "{~a~: [1, 2]}  ") 5)
  = Py.txt "{~a~: [1, 2]}  ".
Proof.
  apply (repair_without_label_keeps_text (Py.txt "{~a~: [1, 2]}  ") 5).
  vm_compute. reflexivity.
Defined.

(* ================================================================== *)
(** * The candidate list *)
(* ================================================================== *)

Lemma substring_refl (t : text) : substring t t.
Proof. exists [], []. rewrite app_nil_r. reflexivity. Qed.

Lemma substring_trans (a b c : text) :
  substring a b -> substring b c -> substring a c.
Proof.
  intros (p1 & s1 & ->) (p2 & s2 & ->).
  exists (p2 ++ p1), (s1 ++ s2). rewrite <- !app_assoc. reflexivity.
Qed.

Lemma skipn_substring (n : nat) (t : text) : substring (skipn n t) t.
Proof.
  exists (firstn n t), []. rewrite app_nil_r. symmetry. apply firstn_skipn.
Qed.

Lemma firstn_substring (n : nat) (t : text) : substring (firstn n t) t.
Proof. exists [], (skipn n t). symmetry. apply firstn_skipn. Qed.

Lemma slice_substring (t : text) (a b : nat) : substring (Py.slice t a b) t.
Proof.
  unfold Py.slice. eapply substring_trans;
    [apply firstn_substring|apply skipn_substring].
Qed.

Lemma strip_substring (t : text) : substring (Py.strip t) t.
Proof.
  unfold Py.strip. apply (substring_trans _ (Py.lstrip t)).
  - destruct (rstrip_split (Py.lstrip t)) as [ws [E _]].
    exists [], ws. exact E.
  - destruct (lstrip_split t) as [ws [E _]].
    exists ws, []. rewrite app_nil_r. exact E.
Qed.

Lemma slice_all (t : text) : Py.slice t 0 (List.length t) = t.
Proof.
  unfold Py.slice. rewrite Nat.sub_0_r. cbn [skipn]. apply firstn_all.
Qed.

Lemma shape_substring (t : text) (c : Candidate.t) :
  candidate_shape t c -> substring (Candidate.raw c) t.
Proof.
  intros [_ ->]. eapply substring_trans;
    [apply strip_substring|apply slice_substring].
Qed.

Lemma substring_In (s t : text) (x : char) :
  substring s t -> In x s -> In x t.
Proof.
  intros (pre & suf & ->) H. apply in_app_iff. right.
  apply in_app_iff. left. exact H.
Qed.

Lemma span_direct_shape (raw : text) : balanced_span raw -> direct_shape raw.
Proof.
  intros (o & b & -> & Ho & _). exists o, b, (closer_of o).
  repeat split; [exact Ho|].
  destruct (opener_inv o Ho); subst; reflexivity.
Qed.

Lemma stripped_looks_like_json (g : text) :
  _looks_like_json (Py.strip g) = true -> direct_shape (Py.strip g).
Proof.
  intros H. apply (proj1 (looks_like_json_shape _)) in H.
  rewrite strip_idem in H. exact H.
Qed.

Lemma extract_direct_shaped (t : text) :
  exists l, extract_direct t = Ret l /\ Forall (candidate_shape t) l.
Proof.
  unfold extract_direct.
  destruct (Py.strip t) as [|c0 r] eqn:E;
    [exists []; split; [reflexivity|constructor]|].
  destruct (_looks_like_json (c0 :: r)) eqn:Hl;
    [|exists []; split; [reflexivity|constructor]].
  rewrite candidate_new_ok by reflexivity. cbn [bind].
  eexists. split; [reflexivity|].
  constructor; [|constructor].
  split; cbn [Candidate.raw Candidate.start_pos Candidate.end_pos].
  - rewrite <- E in *. apply stripped_looks_like_json. exact Hl.
  - rewrite <- E, slice_all. reflexivity.
Qed.

Lemma brace_matching_shaped (t : text) :
  exists l,
    extract_from_brace_matching t = Ret l
    /\ Forall (candidate_shape t) l
    /\ Forall (span_candidate t) l.
Proof.
  unfold extract_from_brace_matching.
  destruct (brace_loop_spans t (S (List.length t)) 0 [])
    as [l [E [H _]]]; try constructor.
  exists l. split; [exact E|]. split; [|exact H].
  eapply Forall_impl; [|exact H].
  intros c (Hspan & _ & Hraw & _). split.
  - apply span_direct_shape. exact Hspan.
  - rewrite <- Hraw. symmetry. apply span_strip. exact Hspan.
Qed.

Lemma fence_content_shaped (t : text) (m : Re.rmatch_obj) (c0 : char)
    (r : text) (meth : ExtractionMethod) (conf : float) :
  Py.strip (Re.group t m 1) = c0 :: r ->
  _looks_like_json (c0 :: r) = true ->
  candidate_shape t
    (Candidate.mk (c0 :: r) (Re.mstart m 1) (Re.mend m 1) meth conf).
Proof.
  intros E Hl.
  split; cbn [Candidate.raw Candidate.start_pos Candidate.end_pos].
  - rewrite <- E in *. apply stripped_looks_like_json. exact Hl.
  - rewrite <- E. reflexivity.
Qed.

Lemma fence_json_step_shaped (t : text) (acc : list Candidate.t)
    (m : Re.rmatch_obj) :
  Forall (candidate_shape t) acc ->
  exists acc',
    fence_json_step t acc m = Ret acc' /\ Forall (candidate_shape t) acc'.
Proof.
  intros Hacc. unfold fence_json_step.
  destruct (Py.strip (Re.group t m 1)) as [|c0 r] eqn:E;
    [exists acc; split; [reflexivity|exact Hacc]|].
  destruct (_looks_like_json (c0 :: r)) eqn:Hl;
    [|exists acc; split; [reflexivity|exact Hacc]].
  rewrite candidate_new_ok by reflexivity. cbn [bind].
  eexists. split; [reflexivity|].
  apply Forall_app. split; [exact Hacc|].
  constructor; [|constructor].
  apply (fence_content_shaped t m); assumption.
Qed.

Lemma fence_any_step_shaped (t : text) (acc : list Candidate.t)
    (m : Re.rmatch_obj) :
  Forall (candidate_shape t) acc ->
  exists acc',
    fence_any_step t acc m = Ret acc' /\ Forall (candidate_shape t) acc'.
Proof.
  intros Hacc. unfold fence_any_step.
  destruct (Py.strip (Re.group t m 1)) as [|c0 r] eqn:E;
    [exists acc; split; [reflexivity|exact Hacc]|].
  destruct (_looks_like_json (c0 :: r)) eqn:Hl;
    [|exists acc; split; [reflexivity|exact Hacc]].
  destruct (negb _); [|exists acc; split; [reflexivity|exact Hacc]].
  rewrite candidate_new_ok by reflexivity. cbn [bind].
  eexists. split; [reflexivity|].
  apply Forall_app. split; [exact Hacc|].
  constructor; [|constructor].
  apply (fence_content_shaped t m); assumption.
Qed.

Lemma heuristic_step_shaped (t : text) (acc : list Candidate.t)
    (m : Re.rmatch_obj) :
  Forall (candidate_shape t) acc ->
  exists acc',
    heuristic_step t acc m = Ret acc' /\ Forall (candidate_shape t) acc'.
Proof.
  intros Hacc. unfold heuristic_step.
  destruct (brace_matching_shaped (skipn (Re.m_end m) t)) as [l [E [_ H]]].
  rewrite E. cbn [bind].
  destruct l as [|bc l]; [exists acc; split; [reflexivity|exact Hacc]|].
  rewrite candidate_new_ok by reflexivity. cbn [bind].
  eexists. split; [reflexivity|].
  apply Forall_app. split; [exact Hacc|].
  constructor; [|constructor].
  inversion H as [|? ? (Hspan & _ & Hraw & Hlt & _) _]; subst.
  split; cbn [Candidate.raw Candidate.start_pos Candidate.end_pos].
  - apply span_direct_shape. exact Hspan.
  - rewrite <- (span_strip _ Hspan) at 1. f_equal. rewrite Hraw.
    unfold Py.slice. rewrite skipn_skipn. f_equal; [lia|].
    f_equal. lia.
Qed.

Lemma extract_heuristic_shaped (t : text) :
  exists l, extract_heuristic t = Ret l /\ Forall (candidate_shape t) l.
Proof.
  unfold extract_heuristic.
  apply (for_each_ok Re.regex (list Candidate.t) (Forall (candidate_shape t)));
    [|constructor].
  intros acc pattern Hacc.
  apply (for_each_ok Re.rmatch_obj (list Candidate.t)
           (Forall (candidate_shape t))); [|exact Hacc].
  intros acc' m Hacc'. apply heuristic_step_shaped. exact Hacc'.
Qed.

(** The duplicate removal keeps one candidate per raw text. *)
Lemma unique_by_raw_fresh (l : list Candidate.t) :
  forall seen,
    NoDup (map Candidate.raw (unique_by_raw l seen))
    /\ forall c, In c (unique_by_raw l seen) -> ~ In (Candidate.raw c) seen.
Proof.
  induction l as [|x l IH]; intros seen; cbn [unique_by_raw].
  - split; [constructor|intros c []].
  - destruct (existsb (Py.eqt (Candidate.raw x)) seen) eqn:E; [apply IH|].
    destruct (IH (Candidate.raw x :: seen)) as [Hnd Hfresh].
    split.
    + cbn [map]. constructor; [|exact Hnd].
      intros Hin. apply in_map_iff in Hin. destruct Hin as [c [Hc Hin]].
      apply (Hfresh c Hin). left. symmetry. exact Hc.
    + intros c [<-|Hin].
      * intros Hin. assert (Ht : existsb (Py.eqt (Candidate.raw x)) seen = true).
        { apply existsb_exists. exists (Candidate.raw x).
          split; [exact Hin|apply eqt_refl]. }
        congruence.
      * intros Hs. apply (Hfresh c Hin). right. exact Hs.
Qed.

(** ** The stable sort *)

Section SortedFacts.

Variables (A K : Type) (lt : K -> K -> bool) (key : A -> K).

Lemma insert_desc_perm (x : A) (l : list A) :
  Permutation (Py.insert_desc lt key x l) (x :: l).
Proof.
  induction l as [|y l IH]; cbn [Py.insert_desc]; [reflexivity|].
  destruct (lt (key x) (key y)); [|reflexivity].
  rewrite IH. apply perm_swap.
Qed.

Lemma sorted_desc_perm (l : list A) : Permutation (Py.sorted_desc lt key l) l.
Proof.
  induction l as [|x l IH]; cbn [Py.sorted_desc]; [reflexivity|].
  rewrite insert_desc_perm. constructor. exact IH.
Qed.

(** The keys met lie in a domain on which [lt] is a strict weak order. *)
Variable D : K -> Prop.
Hypothesis lt_asym :
  forall a b, D a -> D b -> lt a b = true -> lt b a = false.
Hypothesis lt_negtrans :
  forall a b c, D a -> D b -> D c ->
                lt a b = false -> lt b c = false -> lt a c = false.

Lemma insert_desc_sorted (x : A) (l : list A) :
  D (key x) -> Forall (fun y => D (key y)) l ->
  StronglySorted (not_below lt key) l ->
  StronglySorted (not_below lt key) (Py.insert_desc lt key x l).
Proof.
  intros Hx Hl Hs. induction Hs as [|y l Hs IH Hy]; cbn [Py.insert_desc].
  - constructor; constructor.
  - inversion Hl as [|? ? Dy Dl]; subst.
    destruct (lt (key x) (key y)) eqn:E.
    + constructor; [apply IH; exact Dl|].
      apply Forall_forall. intros z Hz.
      apply (proj1 (insert_desc_In _ _ _ _ _ _ _)) in Hz.
      destruct Hz as [->|Hz].
      * apply lt_asym; assumption.
      * rewrite Forall_forall in Hy. apply Hy. exact Hz.
    + constructor; [constructor; assumption|].
      constructor; [exact E|].
      rewrite Forall_forall in *. intros z Hz.
      apply (lt_negtrans (key x) (key y) (key z)); auto.
      apply Hy. exact Hz.
Qed.

Lemma sorted_desc_sorted (l : list A) :
  Forall (fun y => D (key y)) l ->
  StronglySorted (not_below lt key) (Py.sorted_desc lt key l).
Proof.
  induction l as [|x l IH]; intros Hl; cbn [Py.sorted_desc]; [constructor|].
  inversion Hl as [|? ? Dx Dl]; subst.
  apply insert_desc_sorted; [exact Dx| |apply IH; exact Dl].
  apply Forall_forall. intros y Hy.
  apply (proj1 (sorted_desc_In _ _ _ _ _ _)) in Hy.
  rewrite Forall_forall in Dl. apply Dl. exact Hy.
Qed.

End SortedFacts.

(** The comparisons of the detector's confidences, computed. *)
Lemma detector_order (a b c : float) :
  In a detector_confidences -> In b detector_confidences ->
  In c detector_confidences ->
  ((a <? b)%float = true -> (b <? a)%float = false)
  /\ ((a <? b)%float = false -> (b <? c)%float = false ->
      (a <? c)%float = false)
  /\ ((a <? b)%float = false -> (b <=? a)%float = true).
Proof.
  intros Ha Hb Hc.
  assert (Hall :
    forallb
      (fun a =>
         forallb
           (fun b =>
              forallb
                (fun c =>
                   (negb (a <? b)%float || negb (b <? a)%float)
                   && ((a <? b)%float || (b <? c)%float
                       || negb (a <? c)%float)
                   && ((a <? b)%float || (b <=? a)%float))
                detector_confidences)
           detector_confidences)
      detector_confidences = true) by (vm_compute; reflexivity).
  rewrite forallb_forall in Hall. specialize (Hall a Ha).
  rewrite forallb_forall in Hall. specialize (Hall b Hb).
  rewrite forallb_forall in Hall. specialize (Hall c Hc).
  destruct (a <? b)%float, (b <? a)%float, (b <? c)%float, (a <? c)%float,
    (b <=? a)%float; cbn in Hall; try discriminate;
    repeat split; intros; congruence.
Qed.

Section CandidateFacts.

Variable unicode_alnum : char -> bool.

Lemma markdown_fence_shaped (t : text) :
  exists l,
    extract_from_markdown_fence unicode_alnum t = Ret l
    /\ Forall (candidate_shape t) l.
Proof.
  unfold extract_from_markdown_fence.
  destruct (for_each_ok Re.rmatch_obj (list Candidate.t)
              (Forall (candidate_shape t)) (fence_json_step t)
              (fun s x H => fence_json_step_shaped t s x H)
              (Re.finditer _MARKDOWN_FENCE_JSON t) [] (Forall_nil _))
    as [l1 [E1 H1]].
  rewrite E1. cbn [bind].
  apply (for_each_ok Re.rmatch_obj (list Candidate.t)
           (Forall (candidate_shape t))); [|exact H1].
  intros acc m Hacc. apply fence_any_step_shaped. exact Hacc.
Qed.

(** Every candidate has the shape of [candidate_shape]. *)
Lemma candidates_shaped (t : text) :
  exists cands,
    extract_all_candidates unicode_alnum t = Ret cands
    /\ Forall (candidate_shape t) cands.
Proof.
  unfold extract_all_candidates.
  destruct (extract_direct_shaped t) as [l1 [E1 H1]].
  destruct (markdown_fence_shaped t) as [l2 [E2 H2]].
  destruct (brace_matching_shaped t) as [l3 [E3 [H3 _]]].
  destruct (extract_heuristic_shaped t) as [l4 [E4 H4]].
  rewrite E1, E2, E3, E4. cbn [bind].
  eexists. split; [reflexivity|].
  assert (Hall : Forall (candidate_shape t) (l1 ++ l2 ++ l3 ++ l4))
    by (repeat (apply Forall_app; split); assumption).
  apply Forall_forall. intros c Hc.
  apply (proj1 (sorted_desc_In _ _ _ _ _ _)) in Hc.
  apply unique_by_raw_In in Hc.
  rewrite Forall_forall in Hall. apply Hall. exact Hc.
Qed.

(** X7: on every text [extract_all_candidates] returns a list in which
    every raw text opens with a brace or bracket and ends with a closing
    brace or bracket, and is the trimmed slice of the input between the
    offsets of the candidate, hence a contiguous part of the input; no two
    candidates have the same raw text; and the confidences never increase
    along the list. *)
Theorem candidates_distinct_sorted_substrings :
  forall t : text,
  exists cands,
    extract_all_candidates unicode_alnum t = Ret cands
    /\ Forall
         (fun c =>
            direct_shape (Candidate.raw c)
            /\ Candidate.raw c
               = Py.strip
                   (Py.slice t (Candidate.start_pos c) (Candidate.end_pos c))
            /\ substring (Candidate.raw c) t)
         cands
    /\ NoDup (map Candidate.raw cands)
    /\ StronglySorted
         (fun a b =>
            (Candidate.confidence b <=? Candidate.confidence a)%float = true)
         cands.
Proof.
  intros t.
  destruct (extract_all_candidates_ok unicode_alnum t) as [cands [E Hdet]].
  exists cands. split; [exact E|].
  unfold extract_all_candidates in E.
  destruct (extract_direct_shaped t) as [l1 [E1 H1]].
  destruct (markdown_fence_shaped t) as [l2 [E2 H2]].
  destruct (brace_matching_shaped t) as [l3 [E3 [H3 _]]].
  destruct (extract_heuristic_shaped t) as [l4 [E4 H4]].
  rewrite E1, E2, E3, E4 in E. cbn [bind] in E. injection E as E.
  assert (Hall : Forall (candidate_shape t) (l1 ++ l2 ++ l3 ++ l4))
    by (repeat (apply Forall_app; split); assumption).
  split; [|split].
  - apply Forall_forall. intros c Hc. rewrite <- E in Hc.
    apply (proj1 (sorted_desc_In _ _ _ _ _ _)) in Hc.
    apply unique_by_raw_In in Hc.
    rewrite Forall_forall in Hall. specialize (Hall c Hc).
    destruct Hall as [H5 H6]. split; [exact H5|]. split; [exact H6|].
    apply shape_substring. split; assumption.
  - rewrite <- E.
    eapply Permutation_NoDup;
      [apply Permutation_map; symmetry; apply sorted_desc_perm|].
    apply unique_by_raw_fresh.
  - assert (Hs : StronglySorted
                   (not_below PrimFloat.ltb Candidate.confidence) cands).
    { rewrite <- E.
      apply (sorted_desc_sorted _ _ PrimFloat.ltb Candidate.confidence
               (fun x => In x detector_confidences)).
      - intros a b Ha Hb. apply (detector_order a b a Ha Hb Ha).
      - intros a b c Ha Hb Hc. apply (detector_order a b c Ha Hb Hc).
      - apply Forall_forall. intros c Hc.
        assert (Hin : In c cands).
        { rewrite <- E. apply sorted_desc_In. exact Hc. }
        rewrite Forall_forall in Hdet. apply (Hdet c Hin). }
    clear E. induction Hs as [|a l Hs IH Ha]; [constructor|].
    inversion Hdet as [|? ? Da Dl]; subst.
    constructor; [apply IH; exact Dl|].
    rewrite Forall_forall in *. intros b Hb.
    apply (detector_order (Candidate.confidence a) (Candidate.confidence b)
             (Candidate.confidence a) Da (Dl b Hb) Da).
    apply Ha. exact Hb.
Qed.

(** A text with no opening brace or bracket has no candidate. *)
Lemma no_opener_no_candidate (t : text) :
  (forall c, In c t -> is_opener c = false) ->
  extract_all_candidates unicode_alnum t = Ret [].
Proof.
  intros Hno.
  destruct (candidates_shaped t) as [cands [E H]].
  rewrite E. f_equal. destruct cands as [|c cs]; [reflexivity|].
  inversion H as [|? ? Hshape _]; subst.
  pose proof (shape_substring t c Hshape) as Hsub.
  destruct Hshape as [(o & mid & cl & Hraw & Ho & _) _].
  assert (Hin : In o t).
  { apply (substring_In _ _ _ Hsub). rewrite Hraw. left. reflexivity. }
  rewrite (Hno o Hin) in Ho. discriminate.
Qed.

End CandidateFacts.

(* ================================================================== *)
(** * The orchestrator on edge inputs, and what its result holds *)
(* ================================================================== *)

Lemma space_not_opener (c : char) : Py.isspace c = true -> is_opener c = false.
Proof.
  intros H. destruct (is_opener c) eqn:Ho; [|reflexivity].
  destruct (opener_inv c Ho); subst; discriminate.
Qed.

Lemma strip_nil_blank (t : text) :
  Py.strip t = [] <-> forallb Py.isspace t = true.
Proof.
  split; [|apply strip_blank].
  unfold Py.strip. intros H.
  destruct (lstrip_split t) as [ws1 [E1 H1]].
  destruct (rstrip_split (Py.lstrip t)) as [ws2 [E2 H2]].
  rewrite H in E2. cbn [app] in E2. rewrite E1, E2.
  rewrite forallb_app, H1, H2. reflexivity.
Qed.

Section EdgeFacts.

Variable unicode_alnum : char -> bool.
Variable V : Type.
Variable loads : text -> decoded V.

(** The result of a text without candidates. *)
Lemma no_candidate_result (t : text) (repair : bool) (strat : strategy) :
  extract_all_candidates unicode_alnum t = Ret [] ->
  extract_json_with_metadata unicode_alnum loads t repair strat
  = Ret (no_json_result V t).
Proof.
  intros E. unfold extract_json_with_metadata, no_json_result, no_json_error.
  destruct (Py.strip t) as [|c0 r] eqn:Hs.
  - apply (proj1 (strip_nil_blank t)) in Hs. rewrite Hs. reflexivity.
  - rewrite E. cbn [bind].
    destruct (forallb Py.isspace t) eqn:Hb; [|reflexivity].
    apply strip_blank in Hb. congruence.
Qed.

(** X8: a text that holds no opening brace or bracket gives a failure of
    kind [NO_JSON_FOUND] with no candidate counted, whatever the strategy
    and the repair flag: with the message [Empty input text] when the text
    is empty or blank, and [No JSON structure found in input] otherwise.
    [extract_json] then returns [None], or raises that error when
    [raise_on_error] is set. *)
Theorem no_opener_no_json :
  forall (t : text) (repair : bool) (strat : strategy),
    (forall c, In c t -> is_opener c = false) ->
    extract_json_with_metadata unicode_alnum loads t repair strat
    = Ret (no_json_result V t)
    /\ extract_json unicode_alnum loads t repair strat false = Ret None
    /\ extract_json unicode_alnum loads t repair strat true
       = Raise (ExtractErrorExn (no_json_error t)).
Proof.
  intros t repair strat Hno.
  pose proof (no_candidate_result t repair strat
                (no_opener_no_candidate unicode_alnum t Hno)) as E.
  split; [exact E|].
  unfold extract_json. rewrite E. cbn [bind]. split; reflexivity.
Qed.

(** A non-empty candidate list means the text is not blank. *)
Lemma candidates_not_blank (t : text) (cands : list Candidate.t) :
  extract_all_candidates unicode_alnum t = Ret cands -> cands <> [] ->
  Py.strip t <> [].
Proof.
  intros E Hne Hs. apply (proj1 (strip_nil_blank t)) in Hs.
  rewrite forallb_forall in Hs.
  rewrite (no_opener_no_candidate unicode_alnum t) in E.
  - injection E as <-. contradiction.
  - intros c Hc. apply space_not_opener. apply Hs. exact Hc.
Qed.

(** The loop of [_extract_first_valid] over candidates that all fail. *)
Lemma first_valid_loop_all_fail (l : list Candidate.t) :
  forall n repair all_repairs last_error,
    Forall (fails loads repair) l ->
    exists msg,
      first_valid_loop loads n repair l all_repairs last_error
      = Ret (ExtractResult.mk false None None 0.0 None
               (all_repairs
                ++ if repair then flat_map repair_labels l else [])
               n
               (Some {| message := msg; error_type := INVALID_JSON;
                        position := None |})).
Proof.
  induction l as [|c l IH]; intros n repair all_repairs last_error Hall.
  - cbn [first_valid_loop flat_map].
    rewrite result_new_ok by reflexivity.
    eexists. destruct repair; rewrite app_nil_r; reflexivity.
  - inversion Hall as [|? ? [e [He Hrep]] Hl]; subst.
    cbn [first_valid_loop flat_map]. rewrite He.
    destruct repair; cbn [negb].
    + destruct (Hrep eq_refl) as [e' He']. rewrite He'.
      destruct (IH n true (all_repairs ++ repair_labels c) (Some e') Hl)
        as [msg Hmsg].
      exists msg. unfold repair_labels in *. rewrite Hmsg.
      rewrite <- app_assoc. reflexivity.
    + destruct (IH n false all_repairs (Some e) Hl) as [msg Hmsg].
      exists msg. exact Hmsg.
Qed.

(** The loop of [_extract_all] over candidates that all fail. *)
Lemma extract_all_fold_all_fail (l : list Candidate.t) :
  forall repair s,
    Forall (fails loads repair) l ->
    fold_left (extract_all_step loads repair) l s
    = {| results := results s;
         as_all_repairs :=
           as_all_repairs s
           ++ (if repair then flat_map repair_labels l else []);
         successful_methods := successful_methods s;
         max_confidence := max_confidence s |}.
Proof.
  induction l as [|c l IH]; intros repair s Hall.
  - cbn [fold_left flat_map]. destruct s, repair; cbn; rewrite app_nil_r;
      reflexivity.
  - inversion Hall as [|? ? [e [He Hrep]] Hl]; subst.
    cbn [fold_left flat_map]. rewrite (IH repair _ Hl).
    unfold extract_all_step. rewrite He.
    destruct repair; cbn [negb].
    + destruct (Hrep eq_refl) as [e' He']. rewrite He'.
      cbn [results as_all_repairs successful_methods max_confidence].
      unfold repair_labels. rewrite <- app_assoc. reflexivity.
    + reflexivity.
Qed.

(** X9: when no candidate yields a value (its raw text does not decode and,
    with repair on, neither does its repaired text), the result is a
    failure of kind [INVALID_JSON] that counts the candidates and carries,
    with repair on, the repair labels of every candidate in the order of
    attempt, and none with repair off. *)
Theorem all_candidates_fail :
  forall (t : text) (repair : bool) (strat : strategy)
         (cands : list Candidate.t),
    extract_all_candidates unicode_alnum t = Ret cands ->
    cands <> [] ->
    Forall (fails loads repair) cands ->
    exists msg,
      extract_json_with_metadata unicode_alnum loads t repair strat
      = Ret (ExtractResult.mk false None None 0.0 None
               (if repair
                then flat_map repair_labels
                       (match strat with
                        | All => cands
                        | _ => attempt_order strat cands
                        end)
                else [])
               (List.length cands)
               (Some {| message := msg; error_type := INVALID_JSON;
                        position := None |})).
Proof.
  intros t repair strat cands E Hne Hall.
  pose proof (candidates_not_blank t cands E Hne) as Hs.
  assert (Hord : forall s, Forall (fails loads repair) (attempt_order s cands)).
  { intros s. apply Forall_forall. intros c Hc.
    apply attempt_order_In in Hc. rewrite Forall_forall in Hall.
    apply Hall. exact Hc. }
  unfold extract_json_with_metadata.
  destruct (Py.strip t) as [|c0 r0]; [contradiction|].
  rewrite E. cbn [bind]. destruct cands as [|c cs]; [contradiction|].
  destruct strat.
  - unfold _extract_first_valid. rewrite rank_candidates_length.
    apply (first_valid_loop_all_fail _ _ repair [] None (Hord First)).
  - unfold _extract_first_valid.
    rewrite rank_candidates_length, sort_by_size_length.
    apply (first_valid_loop_all_fail _ _ repair [] None (Hord Largest)).
  - unfold _extract_all.
    rewrite (extract_all_fold_all_fail (c :: cs) repair _ Hall).
    cbn [results as_all_repairs app].
    rewrite result_new_ok by reflexivity. eexists. reflexivity.
Qed.

(** ** What a result holds *)

Lemma first_valid_loop_holds (l : list Candidate.t) :
  forall n repair strat all_repairs last_error,
    strat <> All ->
    Forall from_detector l ->
    (repair = false -> all_repairs = []) ->
    exists r,
      first_valid_loop loads n repair l all_repairs last_error = Ret r
      /\ holds_well loads repair strat n r.
Proof.
  induction l as [|c l IH];
    intros n repair strat all_repairs last_error Hs Hall Hrep;
    cbn [first_valid_loop].
  - rewrite result_new_ok by reflexivity. eexists. split; [reflexivity|].
    unfold holds_well. cbn. repeat split; try discriminate. exact Hrep.
  - inversion Hall as [|? ? Hc Hl]; subst.
    destruct (detector_confidences_ok _ Hc) as (H1 & H2 & H3 & H4).
    destruct (loads (Candidate.raw c)) as [d|e] eqn:Hd.
    + rewrite result_new_ok by exact H1. eexists. split; [reflexivity|].
      unfold holds_well. cbn. repeat split; try discriminate.
      intros _. destruct strat; [| |contradiction];
        exists (Candidate.raw c), d; repeat split; try assumption;
        discriminate.
    + destruct repair; cbn [negb];
        [|apply IH; [exact Hs|exact Hl|exact Hrep]].
      destruct (loads (RepairResult.repaired _)) as [d|e'] eqn:Hd';
        [|apply IH; [exact Hs|exact Hl|discriminate]].
      destruct (RepairResult.repairs_applied _) eqn:Hlab,
        (RepairResult.is_truncated _);
        (rewrite result_new_ok by assumption);
        (eexists; split; [reflexivity|]);
        unfold holds_well; cbn; repeat split; try discriminate;
        intros _; (destruct strat; [| |contradiction]);
        eexists; exists d; repeat split; try exact Hd'; discriminate.
Qed.

Lemma extract_all_fold_holds (l : list Candidate.t) :
  forall repair s,
    (repair = false -> as_all_repairs s = []) ->
    let s' := fold_left (extract_all_step loads repair) l s in
    (repair = false -> as_all_repairs s' = [])
    /\ (results s <> [] -> results s' <> []).
Proof.
  induction l as [|c l IH]; intros repair s Hrep; cbn [fold_left].
  - split; [exact Hrep|tauto].
  - cbn zeta in IH.
    assert (Hstep :
      (repair = false ->
       as_all_repairs (extract_all_step loads repair s c) = [])
      /\ (results s <> [] ->
          results (extract_all_step loads repair s c) <> [])).
    { unfold extract_all_step.
      destruct (loads (Candidate.raw c)) as [d|e].
      - cbn. split; [exact Hrep|]. intros _ H.
        apply app_eq_nil in H. destruct H as [_ H]. discriminate.
      - destruct repair; cbn [negb]; [|split; [exact Hrep|tauto]].
        destruct (loads (RepairResult.repaired _)) as [d|e']; cbn.
        + split; [discriminate|]. intros _ H.
          apply app_eq_nil in H. destruct H as [_ H]. discriminate.
        + split; [discriminate|tauto]. }
    destruct Hstep as [Hr Hn].
    destruct (IH repair (extract_all_step loads repair s c) Hr) as [IH1 IH2].
    split; [exact IH1|]. intros H. apply IH2. apply Hn. exact H.
Qed.

Lemma extract_all_holds (l : list Candidate.t) (repair : bool) :
  Forall from_detector l ->
  exists r,
    _extract_all loads l repair = Ret r
    /\ holds_well loads repair All (List.length l) r.
Proof.
  intros Hall. unfold _extract_all.
  set (s0 := {| results := []; as_all_repairs := [];
                successful_methods := []; max_confidence := 0.0 |}).
  pose proof (extract_all_fold_ok V loads repair l s0 Hall eq_refl) as Hmax.
  destruct (extract_all_fold_holds l repair s0 (fun _ => eq_refl))
    as [Hrep _].
  destruct (results (fold_left (extract_all_step loads repair) l s0))
    as [|v vs] eqn:Hres.
  - rewrite result_new_ok by reflexivity. eexists. split; [reflexivity|].
    unfold holds_well. cbn. repeat split; try discriminate. exact Hrep.
  - rewrite result_new_ok by exact Hmax. eexists. split; [reflexivity|].
    unfold holds_well. cbn. repeat split; try discriminate; [exact Hrep|].
    exists (v :: vs). split; [discriminate|reflexivity].
Qed.

(** X10: on every text and configuration the result counts the candidates
    that detection found.  With repair off it carries no repair label.  A
    success under [first] or [largest] carries a raw text that the strict
    decoder accepts, the value it decodes to, and a method; a success under
    [all] carries a non-empty list of values and no raw text.  A failure
    carries no data, no raw text, no method and confidence 0.0. *)
Theorem result_holds_what_was_decoded :
  forall (t : text) (repair : bool) (strat : strategy),
  exists r cands,
    extract_all_candidates unicode_alnum t = Ret cands
    /\ extract_json_with_metadata unicode_alnum loads t repair strat = Ret r
    /\ ExtractResult.candidates_found r = List.length cands
    /\ (repair = false -> ExtractResult.repairs_applied r = [])
    /\ (ExtractResult.success r = true ->
        match strat with
        | All =>
            ExtractResult.raw_json r = None
            /\ exists vs, vs <> [] /\ ExtractResult.data r = Some (Many vs)
        | _ =>
            exists s d,
              ExtractResult.raw_json r = Some s /\ loads s = Decoded d
              /\ ExtractResult.data r = Some (One d)
              /\ ExtractResult.method r <> None
        end)
    /\ (ExtractResult.success r = false ->
        ExtractResult.data r = None /\ ExtractResult.raw_json r = None
        /\ ExtractResult.method r = None
        /\ ExtractResult.confidence r = 0.0%float).
Proof.
  intros t repair strat.
  destruct (extract_all_candidates_ok unicode_alnum t) as [cands [E Hall]].
  assert (H : exists r,
            extract_json_with_metadata unicode_alnum loads t repair strat
            = Ret r
            /\ holds_well loads repair strat (List.length cands) r).
  { destruct cands as [|c cs].
    - rewrite (no_candidate_result t repair strat E).
      eexists. split; [reflexivity|].
      unfold holds_well, no_json_result. cbn.
      repeat split; try discriminate.
    - pose proof (candidates_not_blank t (c :: cs) E ltac:(discriminate))
        as Hs.
      unfold extract_json_with_metadata.
      destruct (Py.strip t) as [|c0 r0]; [contradiction|].
      rewrite E. cbn [bind].
      assert (Hord : forall s,
                Forall from_detector (attempt_order s (c :: cs))).
      { intros s. apply Forall_forall. intros x Hx.
        apply attempt_order_In in Hx. rewrite Forall_forall in Hall.
        apply Hall. exact Hx. }
      destruct strat.
      + unfold _extract_first_valid. rewrite rank_candidates_length.
        apply (first_valid_loop_holds _ _ repair First [] None
                 ltac:(discriminate) (Hord First) (fun _ => eq_refl)).
      + unfold _extract_first_valid.
        rewrite rank_candidates_length, sort_by_size_length.
        apply (first_valid_loop_holds _ _ repair Largest [] None
                 ltac:(discriminate) (Hord Largest) (fun _ => eq_refl)).
      + apply extract_all_holds. exact Hall. }
  destruct H as [r [Er Hr]]. exists r, cands.
  split; [exact E|]. split; [exact Er|]. exact Hr.
Qed.

(** X11: [extract_json] hands out what [extract_json_with_metadata] found.
    On a success it returns the data, whatever [raise_on_error] is.  On a
    failure the result carries an error; [extract_json] returns [None]
    when [raise_on_error] is off and raises that very error when it is on:
    the fallback error of the code is never raised. *)
Theorem extract_json_follows_metadata :
  forall (t : text) (repair : bool) (strat : strategy),
  exists r,
    extract_json_with_metadata unicode_alnum loads t repair strat = Ret r
    /\ (ExtractResult.success r = true ->
        forall raise_on_error,
          extract_json unicode_alnum loads t repair strat raise_on_error
          = Ret (ExtractResult.data r))
    /\ (ExtractResult.success r = false ->
        extract_json unicode_alnum loads t repair strat false = Ret None
        /\ exists e,
             ExtractResult.error r = Some e
             /\ extract_json unicode_alnum loads t repair strat true
                = Raise (ExtractErrorExn e)).
Proof.
  intros t repair strat.
  destruct (extract_json_with_metadata_ok unicode_alnum V loads t repair
              strat) as [r [E (_ & Hf & _ & _)]].
  exists r. split; [exact E|]. unfold extract_json. rewrite E. cbn [bind].
  split.
  - intros Hs raise_on_error. rewrite Hs. reflexivity.
  - intros Hs. rewrite Hs. split; [reflexivity|].
    destruct (Hf Hs) as [_ He].
    destruct (ExtractResult.error r) as [e|]; [|contradiction].
    exists e. split; reflexivity.
Qed.

End EdgeFacts.

Lemma no_opener_no_json_witness :
  extract_json_with_metadata ascii_only Json.loads
    (Py.txt "no json here") true First
  = Ret (ExtractResult.mk false None None 0.0 None [] 0
           (Some {| message := "No JSON structure found in input";
                    error_type := NO_JSON_FOUND; position := None |})).
Proof.
  apply (no_opener_no_json ascii_only Json.value Json.loads
           (Py.txt "no json here") true First).
  intros c Hc. cbn in Hc.
  repeat (destruct Hc as [<-|Hc]; [reflexivity|]). contradiction.
Defined.

Lemma all_candidates_fail_witness :
  exists msg,
    extract_json_with_metadata ascii_only Json.loads (Py.txt "{:}") true First
    = Ret (ExtractResult.mk false None None 0.0 None [] 1
             (Some {| message := msg; error_type := INVALID_JSON;
                      position := None |})).
Proof.
  apply (all_candidates_fail ascii_only Json.value Json.loads
           (Py.txt "{:}") true First
           [Candidate.mk (Py.txt "{:}") 0 3 DIRECT_PARSE 1.0]).
  - vm_compute. reflexivity.
  - discriminate.
  - constructor; [|constructor].
    eexists. split; [vm_compute; reflexivity|].
    intros _. eexists. vm_compute. reflexivity.
Defined.

(* ================================================================== *)
(** * Truncation, detected and completed *)
(* ================================================================== *)

Lemma no_stray_pending (pend : list char) (s : text) :
  Pending pend s ->
  forall rest stk,
    no_stray_closer_from (CS stk false false) (s ++ rest)
    = no_stray_closer_from (CS (map closer_of pend ++ stk) false false) rest.
Proof.
  induction 1 as [b Hb|pend s o b _ IH Ho Hb]; intros rest stk.
  - apply no_stray_balanced. exact Hb.
  - rewrite <- app_assoc, IH. cbn [app no_stray_closer_from].
    rewrite stray_closer_unfold, (opener_not_closer_b o Ho).
    rewrite cs_open by exact Ho. cbn [negb andb map app].
    apply (no_stray_balanced b Hb).
Qed.

(** On trimmed text without stray closer, truncation is read off the end
    state of the stack machine. *)
Lemma truncated_by_replay (x : text) :
  Py.strip x = x -> no_stray_closer x = true ->
  is_truncated_json x
  = (cs_in_string (replay x)
     || match cs_stack (replay x) with [] => false | _ :: _ => true end
     || cs_escape_next (replay x)).
Proof.
  intros Hs Hn. rewrite is_truncated_json_count.
  rewrite count_truncated_replay by (rewrite Hs; exact Hn).
  unfold replay_truncated. rewrite Hs. reflexivity.
Qed.

Lemma strip_fixed (s : text) :
  Py.strip s = s -> Py.lstrip s = s /\ Py.rstrip s = s.
Proof.
  intros H. unfold Py.strip in H.
  destruct (lstrip_split s) as [ws1 [E1 _]].
  destruct (rstrip_split (Py.lstrip s)) as [ws2 [E2 _]].
  rewrite H in E2.
  assert (Hlen : List.length s
                 = List.length ws1 + (List.length s + List.length ws2)).
  { rewrite E1 at 1. rewrite E2. rewrite !length_app. reflexivity. }
  assert (H1 : ws1 = []) by (destruct ws1; [reflexivity|cbn in Hlen; lia]).
  assert (H2 : ws2 = []) by (destruct ws2; [reflexivity|cbn in Hlen; lia]).
  subst. cbn [app] in E1. rewrite app_nil_r in E2.
  split; [symmetry; exact E1|].
  rewrite <- E1 in H. exact H.
Qed.

Lemma strip_extended (s x : text) (c : char) :
  Py.strip s = s -> s <> [] -> Py.isspace c = false ->
  Py.strip (s ++ x ++ [c]) = s ++ x ++ [c].
Proof.
  intros Hs Hne Hc. destruct (strip_fixed s Hs) as [Hl _].
  destruct s as [|c0 r]; [contradiction|].
  assert (H0 : Py.isspace c0 = false)
    by (apply (lstrip_head_visible (c0 :: r) c0 r); exact Hl).
  unfold Py.strip. cbn [app]. rewrite (lstrip_head c0 _ H0).
  change (c0 :: r ++ x ++ [c]) with ((c0 :: r) ++ x ++ [c]).
  rewrite app_assoc. apply rstrip_snoc. exact Hc.
Qed.

Lemma balanced_not_truncated (b : text) :
  Balanced b -> Py.strip b = b -> is_truncated_json b = false.
Proof.
  intros Hb Hs. rewrite truncated_by_replay.
  - unfold replay. change complete_init with (CS [] false false).
    rewrite <- (app_nil_r b), (replay_balanced b Hb). reflexivity.
  - exact Hs.
  - unfold no_stray_closer. change complete_init with (CS [] false false).
    rewrite <- (app_nil_r b), (no_stray_balanced b Hb). reflexivity.
Qed.

Lemma pending_nonempty (o : char) (pend : list char) (s : text) :
  Pending (o :: pend) s -> s <> [].
Proof.
  intros H. inversion H; subst. intros E.
  apply app_eq_nil in E. destruct E as [_ E]. discriminate.
Qed.

Lemma closer_of_visible (o : char) : Py.isspace (closer_of o) = false.
Proof. unfold closer_of. destruct (Py.eqc o lbrace); reflexivity. Qed.

Lemma closers_snoc (o : char) (pend : list char) :
  exists x c, map closer_of (o :: pend) = x ++ [c] /\ Py.isspace c = false.
Proof.
  revert o. induction pend as [|p pend IH]; intros o.
  - exists [], (closer_of o). split; [reflexivity|apply closer_of_visible].
  - destruct (IH p) as (x & c & E & Hc).
    exists (closer_of o :: x), c. split; [|exact Hc].
    cbn [map app] in *. rewrite E. reflexivity.
Qed.

(** X12: detection and completion agree on text cut off in the middle.
    Let a trimmed text be properly paired up to openers that are still
    open.  [is_truncated_json] flags it exactly when some opener is open,
    and the text [_complete_truncated] returns for it is not flagged any
    more.  The same text cut off inside a string literal is flagged, and
    its completion is not. *)
Theorem truncation_detected_and_completed :
  forall (pend : list char) (s : text),
    Pending pend s ->
    (Py.strip s = s ->
     is_truncated_json s = match pend with [] => false | _ :: _ => true end
     /\ is_truncated_json (fst (_complete_truncated s)) = false)
    /\ forall sb,
         StrBody sb ->
         let t := s ++ dquote :: sb in
         Py.strip t = t ->
         is_truncated_json t = true
         /\ is_truncated_json (fst (_complete_truncated t)) = false.
Proof.
  intros pend s Hp. split.
  - intros Hs. destruct (strip_fixed s Hs) as [_ Hr]. split.
    + rewrite truncated_by_replay; [|exact Hs|].
      * rewrite (replay_pending_state pend s Hp).
        cbn [CS cs_in_string cs_stack cs_escape_next orb].
        destruct pend; reflexivity.
      * unfold no_stray_closer. change complete_init with (CS [] false false).
        rewrite <- (app_nil_r s), (no_stray_pending pend s Hp). reflexivity.
    + assert (E : fst (_complete_truncated s) = s ++ map closer_of pend).
      { rewrite complete_truncated_eq. cbn [fst]. rewrite Hr.
        rewrite (replay_pending_state pend s Hp).
        cbn [CS cs_in_string cs_stack]. rewrite app_nil_r. reflexivity. }
      rewrite E. apply balanced_not_truncated.
      * rewrite <- (app_nil_l (map closer_of pend)).
        apply (pending_closed pend s Hp []). constructor.
      * destruct pend as [|o pend]; [cbn [map]; rewrite app_nil_r; exact Hs|].
        destruct (closers_snoc o pend) as (x & c & Ex & Hc).
        rewrite Ex. apply strip_extended;
          [exact Hs|apply (pending_nonempty o pend s Hp)|exact Hc].
  - intros sb Hsb t Hs. destruct (strip_fixed t Hs) as [_ Hr]. split.
    + rewrite truncated_by_replay; [|exact Hs|].
      * unfold t. rewrite (replay_open_string_state pend s sb Hp Hsb).
        reflexivity.
      * unfold no_stray_closer, t.
        change complete_init with (CS [] false false).
        rewrite (no_stray_pending pend s Hp). cbn [no_stray_closer_from].
        rewrite stray_closer_unfold.
        change (complete_step (CS (map closer_of pend ++ []) false false)
                  dquote)
          with (CS (map closer_of pend ++ []) true false).
        cbn [negb andb]. rewrite <- (app_nil_r sb).
        rewrite (no_stray_string_units sb Hsb). reflexivity.
    + assert (E : fst (_complete_truncated t)
                  = t ++ dquote :: map closer_of pend).
      { rewrite complete_truncated_eq. cbn [fst]. rewrite Hr. unfold t.
        rewrite (replay_open_string_state pend s sb Hp Hsb).
        cbn [CS cs_in_string cs_stack]. rewrite <- app_assoc. reflexivity. }
      rewrite E.
      assert (Hne : t <> []).
      { unfold t. intros H. apply app_eq_nil in H. destruct H as [_ H].
        discriminate. }
      apply balanced_not_truncated.
      * unfold t.
        replace ((s ++ dquote :: sb) ++ dquote :: map closer_of pend)
          with (s ++ (dquote :: sb ++ dquote :: []) ++ map closer_of pend).
        -- apply (pending_closed pend s Hp).
           apply B_string; [exact Hsb|constructor].
        -- rewrite <- !app_assoc. cbn [app]. rewrite <- app_assoc.
           reflexivity.
      * destruct pend as [|o pend].
        -- cbn [map]. rewrite <- (app_nil_l [dquote]).
           apply strip_extended; [exact Hs|exact Hne|reflexivity].
        -- destruct (closers_snoc o pend) as (x & c & Ex & Hc).
           rewrite Ex.
           change (dquote :: x ++ [c]) with ((dquote :: x) ++ [c]).
           apply strip_extended; [exact Hs|exact Hne|exact Hc].
Qed.

Lemma sample_pending :
  Pending [lbracket; lbrace] (Py.txt "{~a~: [1, 2").
Proof.
  change (Py.txt "{~a~: [1, 2")
    with ((([] ++ lbrace :: Py.txt "~a~: ") ++ lbracket :: Py.txt "1, 2")).
  apply P_open; [|reflexivity|repeat (apply B_plain; [reflexivity|]); constructor].
  apply P_open; [apply P_done; constructor|reflexivity|].
  apply (@B_string (Py.txt "a") (Py.txt ": ")).
  - apply SB_char; [reflexivity|reflexivity|constructor].
  - repeat (apply B_plain; [reflexivity|]). constructor.
Qed.

Lemma truncation_detected_and_completed_witness :
  is_truncated_json (Py.txt "{~a~: [1, 2") = true
  /\ is_truncated_json (fst (_complete_truncated (Py.txt "{~a~: [1, 2")))
     = false.
Proof.
  apply (proj1 (truncation_detected_and_completed [lbracket; lbrace]
                  (Py.txt "{~a~: [1, 2") sample_pending)).
  vm_compute. reflexivity.
Defined.

Lemma complete_truncated_closes_witness :
  _complete_truncated (Py.txt "{~a~: [1, 2")
  = (Py.txt "{~a~: [1, 2]}",
     ["brace_completion"%string; "brace_completion"%string])
  /\ (Py.rstrip (Py.txt "{~a~: [1, 2") = Py.txt "{~a~: [1, 2" ->
      Balanced (fst (_complete_truncated (Py.txt "{~a~: [1, 2")))).
Proof.
  apply (proj1 (complete_truncated_closes [lbracket; lbrace]
                  (Py.txt "{~a~: [1, 2") sample_pending)).
Defined.

(* ================================================================== *)
(** * Trailing-comma removal, in full *)
(* ================================================================== *)

Lemma star_ws_nil (R : Type) (pos : nat) (caps : Re.caps)
    (k : text -> nat -> Re.caps -> option R) :
  Re.rmatch (Re.star Re.ws) [] pos caps k = k [] pos caps.
Proof. reflexivity. Qed.

(** Group 1 of the pattern, [\s*] and a closer, against a text. *)
Lemma tc_group_match (R : Type) (l : text) :
  forall (pos : nat) (caps : Re.caps)
         (k : text -> nat -> Re.caps -> option R),
    Re.rmatch (Re.star Re.ws) l pos caps
      (fun s' pos' c' => Re.rmatch (Re.cls "}]") s' pos' c' k)
    = if closer_follows l
      then k (skipn (blanks l + 1) l) (pos + blanks l + 1) caps
      else None.
Proof.
  induction l as [|c l IH]; intros pos caps k.
  - rewrite star_ws_nil. reflexivity.
  - cbn [closer_follows blanks]. destruct (Py.isspace c) eqn:Hc.
    + rewrite star_ws_space by exact Hc. rewrite IH.
      destruct (closer_follows l).
      * replace (S pos + blanks l + 1) with (pos + S (blanks l) + 1) by lia.
        cbn [Nat.add skipn].
        destruct (k (skipn (blanks l + 1) l) (pos + S (blanks l) + 1) caps)
          eqn:Hk; [reflexivity|].
        unfold Re.cls. cbn [Re.rmatch]. rewrite mem_closers2.
        destruct (space_not_special c Hc) as (_ & _ & _ & _ & H5).
        rewrite H5. reflexivity.
      * unfold Re.cls. cbn [Re.rmatch]. rewrite mem_closers2.
        destruct (space_not_special c Hc) as (_ & _ & _ & _ & H5).
        rewrite H5. reflexivity.
    + rewrite star_ws_nonspace by exact Hc.
      unfold Re.cls. cbn [Re.rmatch]. rewrite mem_closers2.
      destruct (is_closer c); [|reflexivity].
      cbn [Nat.add skipn]. f_equal. lia.
Qed.

(** The pattern at one position. *)
Lemma tc_rmatch_spec (x : char) (s : text) (pos : nat) :
  Re.rmatch trailing_comma_pattern (x :: s) pos []
    (fun _ e caps => Some (e, caps))
  = if Py.eqc x comma && closer_follows s
    then Some (pos + blanks s + 2, [(1, (S pos, pos + blanks s + 2))])
    else None.
Proof.
  destruct (Py.eqc x comma) eqn:Hx; cbn [andb].
  - apply eqc_true in Hx. subst x.
    unfold trailing_comma_pattern, Re.seq, Re.lit1.
    cbn [Re.rmatch]. rewrite eqc_refl.
    rewrite tc_group_match.
    destruct (closer_follows s); [|reflexivity].
    f_equal. f_equal; [lia|]. f_equal. f_equal. f_equal. lia.
  - apply tc_rmatch_fail. apply eqc_false. exact Hx.
Qed.

Lemma closer_follows_length (l : text) :
  closer_follows l = true -> blanks l + 1 <= List.length l.
Proof.
  induction l as [|c l IH]; cbn [closer_follows blanks List.length];
    [discriminate|].
  destruct (Py.isspace c); [|lia]. intros H. apply IH in H. lia.
Qed.

(** Blanks and the closer after them are no commas. *)
Lemma without_blanks (l : text) :
  closer_follows l = true ->
  without_trailing_commas l
  = firstn (blanks l + 1) l
    ++ without_trailing_commas (skipn (blanks l + 1) l).
Proof.
  induction l as [|c l IH];
    cbn [closer_follows blanks without_trailing_commas]; [discriminate|].
  destruct (Py.isspace c) eqn:Hc.
  - intros H.
    assert (Hn : Py.eqc c comma = false).
    { destruct (Py.eqc c comma) eqn:E; [|reflexivity].
      apply eqc_true in E. subst c. discriminate. }
    rewrite Hn. cbn [andb Nat.add firstn skipn app]. f_equal.
    apply IH. exact H.
  - intros H.
    assert (Hn : Py.eqc c comma = false).
    { destruct (closer_inv c H); subst c; reflexivity. }
    rewrite Hn. reflexivity.
Qed.

(** What a search from the head of [s] finds. *)
Lemma tc_search_cases (s : text) :
  forall pos,
    (Re.search trailing_comma_pattern s pos = None
     /\ without_trailing_commas s = s)
    \/ exists a l,
         s = a ++ comma :: l
         /\ closer_follows l = true
         /\ Re.search trailing_comma_pattern s pos
            = Some {| Re.m_start := pos + List.length a;
                      Re.m_end := pos + List.length a + blanks l + 2;
                      Re.m_caps :=
                        [(1, (S (pos + List.length a),
                              pos + List.length a + blanks l + 2))] |}
         /\ without_trailing_commas s = a ++ without_trailing_commas l.
Proof.
  induction s as [|x s IH]; intros pos.
  - left. split; reflexivity.
  - cbn [Re.search without_trailing_commas]. rewrite tc_rmatch_spec.
    destruct (Py.eqc x comma && closer_follows s) eqn:Hm.
    + right. apply andb_true_iff in Hm. destruct Hm as [Hx Hf].
      apply eqc_true in Hx. subst x.
      exists [], s. cbn [app List.length]. rewrite !Nat.add_0_r.
      repeat split. exact Hf.
    + destruct (IH (S pos)) as [[Hn Hw]|(a & l & -> & Hf & Hs & Hw)].
      * left. rewrite Hn, Hw. split; reflexivity.
      * right. exists (x :: a), l. cbn [app List.length].
        split; [reflexivity|]. split; [exact Hf|]. split.
        -- rewrite Hs. f_equal. f_equal; try lia.
           f_equal. f_equal. f_equal; lia.
        -- rewrite Hw. reflexivity.
Qed.

Lemma skipn_length_app (A : Type) (p s : list A) :
  skipn (List.length p) (p ++ s) = s.
Proof.
  rewrite skipn_app, skipn_all, Nat.sub_diag. reflexivity.
Qed.

Lemma slice_middle (p m q : text) (a b : nat) :
  a = List.length p -> b = List.length p + List.length m ->
  Py.slice (p ++ m ++ q) a b = m.
Proof.
  intros -> ->. unfold Py.slice. rewrite skipn_length_app.
  replace (List.length p + List.length m - List.length p)
    with (List.length m) by lia.
  rewrite firstn_app, firstn_all, Nat.sub_diag. cbn [firstn].
  apply app_nil_r.
Qed.

(** The substitution from an offset on. *)
Lemma tc_sub_from (n : nat) :
  forall (s pre : text) (fuel : nat),
    List.length s <= n -> List.length s < fuel ->
    Re.sub_from
      (Re.finditer_from fuel trailing_comma_pattern (pre ++ s)
         (List.length pre))
      (fun m => Re.group (pre ++ s) m 1) (pre ++ s) (List.length pre)
    = without_trailing_commas s.
Proof.
  induction n as [|n IH]; intros s pre fuel Hn Hfuel.
  - destruct s; [|cbn in Hn; lia].
    destruct fuel as [|fuel]; [lia|].
    cbn [Re.finditer_from]. rewrite skipn_length_app.
    cbn [Re.search]. rewrite tc_rmatch_nil. cbn [Re.sub_from].
    rewrite skipn_length_app. reflexivity.
  - destruct fuel as [|fuel]; [lia|].
    cbn [Re.finditer_from]. rewrite skipn_length_app.
    destruct (tc_search_cases s (List.length pre))
      as [[Hs Hw]|(a & l & Es & Hf & Hs & Hw)].
    + rewrite Hs. cbn [Re.sub_from]. rewrite skipn_length_app.
      symmetry. exact Hw.
    + rewrite Hs. cbn [Re.m_start Re.m_end].
      assert (Hlt : Nat.ltb (List.length pre + List.length a)
                      (List.length pre + List.length a + blanks l + 2) = true)
        by (apply Nat.ltb_lt; lia).
      rewrite Hlt. cbn [Re.sub_from Re.m_start Re.m_end].
      pose proof (closer_follows_length l Hf) as Hbl.
      set (g := firstn (blanks l + 1) l).
      set (s' := skipn (blanks l + 1) l).
      assert (El : l = g ++ s') by (symmetry; apply firstn_skipn).
      assert (Hg : List.length g = blanks l + 1)
        by (unfold g; rewrite length_firstn; lia).
      assert (Hsub : pre ++ s = (pre ++ a ++ comma :: g) ++ s').
      { rewrite Es, El. rewrite <- !app_assoc. reflexivity. }
      assert (Hend : List.length pre + List.length a + blanks l + 2
                     = List.length (pre ++ a ++ comma :: g)).
      { rewrite !length_app. cbn [List.length]. lia. }
      rewrite Hw, (without_blanks l Hf). fold g s'.
      f_equal; [|f_equal].
      * rewrite Es. apply slice_middle; [reflexivity|reflexivity].
      * unfold Re.group, Re.mstart, Re.mend.
        cbn [Re.m_caps Re.group_span Nat.eqb].
        replace (pre ++ s) with ((pre ++ a ++ [comma]) ++ g ++ s').
        -- apply slice_middle.
           ++ rewrite !length_app. cbn [List.length]. lia.
           ++ rewrite !length_app. cbn [List.length]. lia.
        -- rewrite Es, El. rewrite <- !app_assoc. reflexivity.
      * rewrite Hend.
        assert (Hs' : List.length s' <= n /\ List.length s' < fuel).
        { assert (List.length s = List.length a + 1 + List.length g
                                  + List.length s').
          { rewrite Es, El. rewrite !length_app. cbn [List.length].
            rewrite length_app. lia. }
          lia. }
        pose proof (IH s' (pre ++ a ++ comma :: g) fuel
                      (proj1 Hs') (proj2 Hs')) as H.
        rewrite <- Hsub in H.
        exact H.
Qed.

Lemma without_trailing_commas_keeps (t : text) :
  filter (fun c => negb (Py.eqc c comma)) (without_trailing_commas t)
  = filter (fun c => negb (Py.eqc c comma)) t.
Proof.
  induction t as [|c t IH]; [reflexivity|].
  cbn [without_trailing_commas].
  destruct (Py.eqc c comma) eqn:Hc; cbn [andb].
  - destruct (closer_follows t); cbn [filter]; rewrite Hc; cbn [negb];
      exact IH.
  - cbn [filter]. rewrite Hc. cbn [negb]. f_equal. exact IH.
Qed.

(** X13: [_remove_trailing_commas] deletes exactly the commas that are
    followed by blanks (any number, none included) and a closing brace or
    bracket, and nothing else: every other character stays, in order.  It
    reports [trailing_comma_removal] exactly when it deleted a comma. *)
Theorem remove_trailing_commas_characterised :
  forall t : text,
    fst (_remove_trailing_commas t) = without_trailing_commas t
    /\ snd (_remove_trailing_commas t)
       = (if Py.eqt (without_trailing_commas t) t then []
          else ["trailing_comma_removal"%string])
    /\ filter (fun c => negb (Py.eqc c comma)) (fst (_remove_trailing_commas t))
       = filter (fun c => negb (Py.eqc c comma)) t.
Proof.
  intros t.
  assert (E : Re.sub trailing_comma_pattern (fun m => Re.group t m 1) t
              = without_trailing_commas t).
  { unfold Re.sub, Re.finditer.
    apply (tc_sub_from (List.length t) t [] (S (List.length t))); lia. }
  unfold _remove_trailing_commas. cbn [fst snd]. rewrite E.
  split; [reflexivity|]. split.
  - destruct (Py.eqt (without_trailing_commas t) t); reflexivity.
  - apply without_trailing_commas_keeps.
Qed.

(* ================================================================== *)
(** * The matcher, and the quoting of keys *)
(* ================================================================== *)

(** A match of a pattern without groups consumes a prefix of the text and
    hands the captures on as they were. *)
Lemma rmatch_groupless (R : Type) (r : Re.regex) :
  groupless r = true ->
  forall (s : text) (pos : nat) (c : Re.caps)
         (k : text -> nat -> Re.caps -> option R) (x : R),
    Re.rmatch r s pos c k = Some x ->
    exists n, n <= List.length s /\ k (skipn n s) (pos + n) c = Some x.
Proof.
  induction r as [|p|r1 IH1 r2 IH2|r1 IH1 r2 IH2|g r1 IH1|m r1 IH1];
    intros Hg s pos c k x H; cbn [groupless] in Hg.
  - exists 0. cbn [Re.rmatch skipn] in *. rewrite Nat.add_0_r.
    split; [lia|exact H].
  - cbn [Re.rmatch] in H. destruct s as [|y s]; [discriminate|].
    destruct (p y); [|discriminate].
    exists 1. cbn [skipn List.length]. split; [lia|].
    replace (pos + 1) with (S pos) by lia. exact H.
  - apply andb_true_iff in Hg. destruct Hg as [Hg1 Hg2].
    cbn [Re.rmatch] in H.
    apply (IH1 Hg1) in H. destruct H as (n1 & Hn1 & H).
    apply (IH2 Hg2) in H. destruct H as (n2 & Hn2 & H).
    rewrite length_skipn in Hn2.
    exists (n1 + n2). split; [lia|].
    rewrite skipn_skipn in H.
    replace (n1 + n2) with (n2 + n1) by lia.
    replace (pos + (n2 + n1)) with (pos + n1 + n2) by lia. exact H.
  - apply andb_true_iff in Hg. destruct Hg as [Hg1 Hg2].
    cbn [Re.rmatch] in H.
    destruct (Re.rmatch r1 s pos c k) as [y|] eqn:E.
    + injection H as <-. apply (IH1 Hg1) in E. exact E.
    + apply (IH2 Hg2) in H. exact H.
  - cbn [Re.rmatch] in H. revert H.
    generalize (List.length s) at 1 as fuel. intros fuel.
    revert s pos c.
    induction fuel as [|fuel IHf]; intros s pos c H.
    + exists 0. cbn [skipn]. rewrite Nat.add_0_r. split; [lia|exact H].
    + assert (Hstop : k s pos c = Some x ->
        exists n, n <= List.length s /\ k (skipn n s) (pos + n) c = Some x).
      { intros Hk. exists 0. cbn [skipn]. rewrite Nat.add_0_r.
        split; [lia|exact Hk]. }
      cbn beta iota zeta in H. destruct g.
      * match type of H with
        | match ?a with Some _ => _ | None => _ end = _ =>
            destruct a as [y|] eqn:E
        end; [|apply Hstop; exact H].
        injection H as <-.
        apply (IH1 Hg) in E. destruct E as (n1 & Hn1 & Ha).
        destruct (Nat.ltb pos (pos + n1)); [|discriminate].
        apply IHf in Ha. destruct Ha as (n2 & Hn2 & Ha).
        rewrite length_skipn in Hn2.
        exists (n1 + n2). split; [lia|].
        rewrite skipn_skipn in Ha.
        replace (n1 + n2) with (n2 + n1) by lia.
        replace (pos + (n2 + n1)) with (pos + n1 + n2) by lia. exact Ha.
      * clear Hstop. destruct (k s pos c) as [y|] eqn:E.
        { injection H as <-. exists 0. cbn [skipn]. rewrite Nat.add_0_r.
          split; [lia|exact E]. }
        apply (IH1 Hg) in H. destruct H as (n1 & Hn1 & Ha).
        destruct (Nat.ltb pos (pos + n1)); [|discriminate].
        apply IHf in Ha. destruct Ha as (n2 & Hn2 & Ha).
        rewrite length_skipn in Hn2.
        exists (n1 + n2). split; [lia|].
        rewrite skipn_skipn in Ha.
        replace (n1 + n2) with (n2 + n1) by lia.
        replace (pos + (n2 + n1)) with (pos + n1 + n2) by lia. exact Ha.
  - discriminate.
Qed.

(** A group around a pattern without groups records the span it
    consumed. *)
Lemma rmatch_group (R : Type) (g : nat) (r : Re.regex) :
  groupless r = true ->
  forall (s : text) (pos : nat) (c : Re.caps)
         (k : text -> nat -> Re.caps -> option R) (x : R),
    Re.rmatch (Re.Grp g r) s pos c k = Some x ->
    exists n,
      n <= List.length s
      /\ k (skipn n s) (pos + n) ((g, (pos, pos + n)) :: c) = Some x.
Proof.
  intros Hg s pos c k x H. cbn [Re.rmatch] in H.
  apply (rmatch_groupless _ r Hg) in H. exact H.
Qed.

(** The match object of a search lies at or after the offset, inside the
    text, and holds what the pattern captured at its start. *)
Lemma search_sound (r : Re.regex) (s : text) :
  forall (pos : nat) (m : Re.rmatch_obj),
    Re.search r s pos = Some m ->
    exists a,
      Re.m_start m = pos + a /\ a <= List.length s
      /\ Re.rmatch r (skipn a s) (pos + a) []
           (fun _ e c => Some (e, c))
         = Some (Re.m_end m, Re.m_caps m).
Proof.
  induction s as [|x s IH]; intros pos m H; cbn [Re.search] in H.
  - destruct (Re.rmatch r [] pos [] (fun _ e c => Some (e, c)))
      as [[e c]|] eqn:E; [|discriminate].
    injection H as <-. exists 0. cbn [Re.m_start Re.m_end Re.m_caps skipn].
    rewrite Nat.add_0_r. split; [reflexivity|]. split; [lia|exact E].
  - destruct (Re.rmatch r (x :: s) pos [] (fun _ e c => Some (e, c)))
      as [[e c]|] eqn:E.
    + injection H as <-. exists 0.
      cbn [Re.m_start Re.m_end Re.m_caps skipn].
      rewrite Nat.add_0_r. split; [reflexivity|]. split; [lia|exact E].
    + apply IH in H. destruct H as (a & Hs & Ha & Hm).
      exists (S a). cbn [skipn List.length].
      replace (pos + S a) with (S pos + a) by lia.
      split; [exact Hs|]. split; [lia|exact Hm].
Qed.

(** The matches of [finditer] come in order and do not overlap, for a
    pattern whose matches are not empty and end inside the text. *)
Lemma finditer_from_matches (r : Re.regex) (subject : text)
    (P : Re.rmatch_obj -> Prop) :
  (forall a e c,
     a <= List.length subject ->
     Re.rmatch r (skipn a subject) a [] (fun _ e c => Some (e, c))
     = Some (e, c) ->
     a < e <= List.length subject
     /\ P {| Re.m_start := a; Re.m_end := e; Re.m_caps := c |}) ->
  forall fuel pos,
    pos <= List.length subject ->
    matches_from P (List.length subject) pos
      (Re.finditer_from fuel r subject pos).
Proof.
  intros Hr. induction fuel as [|fuel IH]; intros pos Hpos;
    cbn [Re.finditer_from matches_from]; [exact I|].
  destruct (Re.search r (skipn pos subject) pos) as [m|] eqn:E;
    cbn [matches_from]; [|exact I].
  apply search_sound in E. destruct E as (a & Hs & Ha & Hm).
  rewrite length_skipn in Ha. rewrite skipn_skipn in Hm.
  replace (a + pos) with (pos + a) in Hm by lia.
  destruct (Hr (pos + a) (Re.m_end m) (Re.m_caps m) ltac:(lia) Hm)
    as [Hbounds HP].
  destruct m as [ms me mc]. cbn [Re.m_start Re.m_end Re.m_caps] in *.
  subst ms. repeat split; try lia; [exact HP|].
  assert (Hlt : Nat.ltb (pos + a) me = true) by (apply Nat.ltb_lt; lia).
  rewrite Hlt. apply IH. lia.
Qed.

Lemma skipn_slice (t : text) (a b : nat) :
  a <= b -> skipn a t = Py.slice t a b ++ skipn b t.
Proof.
  intros H. unfold Py.slice.
  replace b with ((b - a) + a) at 2 by lia.
  rewrite <- skipn_skipn. symmetry. apply firstn_skipn.
Qed.

Lemma firstn_plus (A : Type) (n m : nat) :
  forall l : list A, firstn (n + m) l = firstn n l ++ firstn m (skipn n l).
Proof.
  induction n as [|n IH]; intros l; [reflexivity|].
  destruct l as [|x l]; cbn [Nat.add firstn skipn app].
  - rewrite firstn_nil. reflexivity.
  - f_equal. apply IH.
Qed.

Lemma slice_slice (t : text) (a b c : nat) :
  a <= b -> b <= c ->
  Py.slice t a c = Py.slice t a b ++ Py.slice t b c.
Proof.
  intros H1 H2. unfold Py.slice.
  replace (c - a) with ((b - a) + (c - b)) by lia.
  rewrite firstn_plus. f_equal.
  rewrite skipn_skipn. replace (b - a + a) with b by lia. reflexivity.
Qed.

(** A substitution whose replacements keep the characters that [f] keeps
    keeps them in the whole text. *)
Lemma sub_from_filter (f : char -> bool) (P : Re.rmatch_obj -> Prop)
    (repl : Re.rmatch_obj -> text) (subject : text) :
  (forall m,
     P m -> Re.m_start m <= Re.m_end m ->
     filter f (repl m)
     = filter f (Py.slice subject (Re.m_start m) (Re.m_end m))) ->
  forall ms pos,
    matches_from P (List.length subject) pos ms ->
    filter f (Re.sub_from ms repl subject pos)
    = filter f (skipn pos subject).
Proof.
  intros Hrepl. induction ms as [|m ms IH]; intros pos Hms;
    cbn [Re.sub_from]; [reflexivity|].
  cbn [matches_from] in Hms. destruct Hms as (H1 & H2 & H3 & HP & Hrest).
  rewrite (skipn_slice subject pos (Re.m_start m) H1).
  rewrite (skipn_slice subject (Re.m_start m) (Re.m_end m) H2).
  rewrite !filter_app. f_equal. f_equal.
  - apply Hrepl; assumption.
  - apply IH. exact Hrest.
Qed.

(** The three groups of the key pattern lie side by side and cover the
    match. *)
Lemma key_pattern_groups (s : text) (pos e : nat) (c : Re.caps) :
  Re.rmatch unquoted_key_pattern s pos [] (fun _ e c => Some (e, c))
  = Some (e, c) ->
  exists a b,
    pos < a /\ a < b /\ b < e /\ e <= pos + List.length s
    /\ c = [(3, (b, e)); (2, (a, b)); (1, (pos, a))].
Proof.
  unfold unquoted_key_pattern, Re.seq. intros H.
  cbn [Re.rmatch] in H.
  (* group 1: a delimiter and blanks *)
  destruct s as [|d s]; [discriminate|].
  unfold Re.cls in H at 1. cbn [Re.rmatch] in H.
  destruct (Py.mem d (Py.txt "{,")); [|discriminate].
  apply (rmatch_groupless _ (Re.star Re.ws) eq_refl) in H.
  destruct H as (n1 & Hn1 & H).
  (* group 2: an identifier *)
  destruct (skipn n1 s) as [|i0 s2] eqn:E2; [discriminate|].
  destruct (Re.ascii_alpha i0 || Py.eqc i0 95%N); [|discriminate].
  apply (rmatch_groupless _
           (Re.star (Re.Chr (fun x => Re.ascii_alpha x || Re.ascii_digit x
                                      || Py.eqc x 95%N))) eq_refl) in H.
  destruct H as (n2 & Hn2 & H).
  (* group 3: blanks and a colon *)
  apply (rmatch_groupless _ (Re.star Re.ws) eq_refl) in H.
  destruct H as (n3 & Hn3 & H).
  unfold Re.lit1 in H. cbn [Re.rmatch] in H.
  destruct (skipn n3 (skipn n2 s2)) as [|cl s4] eqn:E4; [discriminate|].
  destruct (Py.eqc colon cl); [|discriminate].
  injection H as <- <-.
  assert (L2 : List.length (skipn n1 s) = S (List.length s2))
    by (rewrite E2; reflexivity).
  rewrite length_skipn in L2.
  assert (L4 : List.length (skipn n3 (skipn n2 s2)) = S (List.length s4))
    by (rewrite E4; reflexivity).
  rewrite !length_skipn in L4.
  exists (S pos + n1), (S (S pos + n1) + n2).
  cbn [List.length]. repeat split; try lia.
Qed.

Lemma slice_length_le (t : text) (a b : nat) :
  List.length (Py.slice t a b) <= b - a.
Proof. unfold Py.slice. rewrite length_firstn. lia. Qed.

(** X14: [_fix_unquoted_keys] only adds double quotes: with the double
    quotes left out, the text it returns is its input with the double
    quotes left out, so no other character is added, dropped or moved.  It
    reports [unquoted_key_fix] exactly when the text it returns differs
    from its input. *)
Theorem fix_unquoted_keys_only_adds_quotes :
  forall t : text,
    filter (fun c => negb (Py.eqc c dquote)) (fst (_fix_unquoted_keys t))
    = filter (fun c => negb (Py.eqc c dquote)) t
    /\ List.length t <= List.length (fst (_fix_unquoted_keys t))
    /\ snd (_fix_unquoted_keys t)
       = (if Py.eqt (fst (_fix_unquoted_keys t)) t then []
          else ["unquoted_key_fix"%string]).
Proof.
  intros t.
  set (f := fun c => negb (Py.eqc c dquote)).
  set (repl := fun m =>
         Re.group t m 1 ++ [dquote] ++ Re.group t m 2 ++ [dquote]
         ++ Re.group t m 3).
  set (P := fun m : Re.rmatch_obj =>
         exists a b,
           Re.m_start m <= a /\ a <= b /\ b <= Re.m_end m
           /\ Re.m_caps m
              = [(3, (b, Re.m_end m)); (2, (a, b)); (1, (Re.m_start m, a))]).
  assert (Hms : matches_from P (List.length t) 0
                  (Re.finditer unquoted_key_pattern t)).
  { unfold Re.finditer. apply finditer_from_matches; [|lia].
    intros a e c Ha H. apply key_pattern_groups in H.
    destruct H as (x & y & H1 & H2 & H3 & H4 & ->).
    rewrite length_skipn in H4. split; [lia|].
    exists x, y. cbn [Re.m_start Re.m_end Re.m_caps].
    repeat split; lia. }
  assert (Hrepl : forall m,
            P m -> Re.m_start m <= Re.m_end m ->
            repl m
            = Py.slice t (Re.m_start m) (Re.mend m 1) ++ [dquote]
              ++ Py.slice t (Re.mend m 1) (Re.mend m 2) ++ [dquote]
              ++ Py.slice t (Re.mend m 2) (Re.m_end m)
            /\ Re.m_start m <= Re.mend m 1 /\ Re.mend m 1 <= Re.mend m 2
            /\ Re.mend m 2 <= Re.m_end m).
  { intros m (a & b & H1 & H2 & H3 & Hc) _. unfold repl, Re.group.
    unfold Re.mstart, Re.mend. rewrite Hc. cbn [Re.group_span Nat.eqb].
    repeat split; assumption. }
  assert (E : filter f (fst (_fix_unquoted_keys t)) = filter f t).
  { unfold _fix_unquoted_keys. cbn [fst]. fold repl. unfold Re.sub.
    rewrite (sub_from_filter f P repl t); [reflexivity| |exact Hms].
    intros m HP Hle. destruct (Hrepl m HP Hle) as (-> & H1 & H2 & H3).
    rewrite (slice_slice t (Re.m_start m) (Re.mend m 1) (Re.m_end m))
      by lia.
    rewrite (slice_slice t (Re.mend m 1) (Re.mend m 2) (Re.m_end m))
      by lia.
    rewrite !filter_app. cbn [filter]. unfold f at 2 4.
    rewrite eqc_refl. cbn [negb app]. reflexivity. }
  split; [exact E|]. split.
  - clear E. unfold _fix_unquoted_keys. cbn [fst]. fold repl. unfold Re.sub.
    assert (Hlen : forall ms pos,
              matches_from P (List.length t) pos ms ->
              List.length (skipn pos t)
              <= List.length (Re.sub_from ms repl t pos)).
    { induction ms as [|m ms IH]; intros pos H; cbn [Re.sub_from]; [lia|].
      cbn [matches_from] in H. destruct H as (H1 & H2 & H3 & HP & Hrest).
      destruct (Hrepl m HP H2) as (-> & G1 & G2 & G3).
      specialize (IH (Re.m_end m) Hrest).
      rewrite (skipn_slice t pos (Re.m_start m) H1).
      rewrite (skipn_slice t (Re.m_start m) (Re.m_end m) H2).
      rewrite (slice_slice t (Re.m_start m) (Re.mend m 1) (Re.m_end m))
        by lia.
      rewrite (slice_slice t (Re.mend m 1) (Re.mend m 2) (Re.m_end m))
        by lia.
      rewrite !length_app. cbn [List.length]. lia. }
    apply (Hlen _ 0 Hms).
  - unfold _fix_unquoted_keys. cbn [fst snd].
    destruct (Py.eqt _ t); reflexivity.
Qed.

(* ================================================================== *)
(** * The strategy [all], the two orders, and the repair labels *)
(* ================================================================== *)

Section CollectFacts.

Variable unicode_alnum : char -> bool.
Variable V : Type.
Variable loads : text -> decoded V.

Lemma extract_all_fold_values (l : list Candidate.t) (repair : bool) :
  forall s,
    results (fold_left (extract_all_step loads repair) l s)
    = results s ++ yielded_values loads repair l.
Proof.
  induction l as [|c l IH]; intros s; cbn [fold_left].
  - unfold yielded_values. cbn [flat_map]. rewrite app_nil_r. reflexivity.
  - rewrite IH. unfold yielded_values. cbn [flat_map].
    unfold extract_all_step, yielded.
    destruct (loads (Candidate.raw c)) as [d|e].
    + cbn [results]. rewrite <- app_assoc. reflexivity.
    + destruct repair; cbn [negb]; [|reflexivity].
      destruct (loads (RepairResult.repaired _)) as [d|e']; cbn [results].
      * rewrite <- app_assoc. reflexivity.
      * reflexivity.
Qed.

(** X15: under the strategy [all], the data of the result lists, in the
    order of the candidates, the value of every candidate that yields one
    (its raw text decodes or, with repair on, its repaired text does); the
    result is a success exactly when there is such a value. *)
Theorem all_collects_every_value :
  forall (t : text) (repair : bool) (cands : list Candidate.t),
    extract_all_candidates unicode_alnum t = Ret cands ->
    cands <> [] ->
    exists r,
      extract_json_with_metadata unicode_alnum loads t repair All = Ret r
      /\ ExtractResult.data r
         = match yielded_values loads repair cands with
           | [] => None
           | v :: vs => Some (Many (v :: vs))
           end
      /\ ExtractResult.success r
         = match yielded_values loads repair cands with
           | [] => false
           | _ :: _ => true
           end.
Proof.
  intros t repair cands E Hne.
  pose proof (candidates_not_blank unicode_alnum t cands E Hne) as Hs.
  destruct (extract_all_candidates_ok unicode_alnum t) as [cands' [E' Hall]].
  rewrite E in E'. injection E' as <-.
  unfold extract_json_with_metadata.
  destruct (Py.strip t) as [|c0 r0]; [contradiction|].
  rewrite E. cbn [bind]. destruct cands as [|c cs]; [contradiction|].
  unfold _extract_all.
  set (s0 := {| results := []; as_all_repairs := [];
                successful_methods := []; max_confidence := 0.0 |}).
  pose proof (extract_all_fold_ok V loads repair (c :: cs) s0 Hall eq_refl)
    as Hmax.
  rewrite (extract_all_fold_values (c :: cs) repair s0).
  change (results s0) with (@nil V). cbn [app].
  destruct (yielded_values loads repair (c :: cs)) as [|v vs];
    cbv beta iota.
  - rewrite result_new_ok by reflexivity. eexists.
    split; [reflexivity|]. split; reflexivity.
  - rewrite result_new_ok by exact Hmax. eexists.
    split; [reflexivity|]. split; reflexivity.
Qed.

End CollectFacts.


(** ** The labels of a repair *)

Lemma repair_pass_labels (t : text) :
  Forall (fun l => In l pass_label_names) (snd (repair_pass t)).
Proof.
  unfold repair_pass.
  destruct (_remove_trailing_commas t) as [t1 a1] eqn:E1.
  destruct (_normalize_quotes t1) as [t2 a2] eqn:E2.
  destruct (_fix_unquoted_keys t2) as [t3 a3] eqn:E3.
  destruct (_cleanup_whitespace t3) as [t4 a4] eqn:E4.
  cbn [snd].
  assert (H1 : a1 = snd (_remove_trailing_commas t))
    by (rewrite E1; reflexivity).
  assert (H2 : a2 = snd (_normalize_quotes t1)) by (rewrite E2; reflexivity).
  assert (H3 : a3 = snd (_fix_unquoted_keys t2)) by (rewrite E3; reflexivity).
  assert (H4 : a4 = snd (_cleanup_whitespace t3))
    by (rewrite E4; reflexivity).
  repeat (apply Forall_app; split).
  - rewrite H1. unfold _remove_trailing_commas. cbn [snd].
    destruct (negb _); [apply Forall_cons; [cbn; tauto|constructor]|constructor].
  - rewrite H2. unfold _normalize_quotes.
    destruct (normalize_quotes_loop t1 t1 0 false) as [r m]. cbn [snd].
    destruct m; [apply Forall_cons; [cbn; tauto|constructor]|constructor].
  - rewrite H3. unfold _fix_unquoted_keys. cbn [snd].
    destruct (negb _); [apply Forall_cons; [cbn; tauto|constructor]|constructor].
  - rewrite H4.
    rewrite (cleanup_whitespace_eq t3). cbn [snd].
    destruct (Py.startswith t3 [BOM]);
      [apply Forall_cons; [cbn; tauto|constructor]|].
    destruct (existsb zero_width t3); [apply Forall_cons; [cbn; tauto|constructor]|constructor].
Qed.

Lemma repair_loop_labels_known (n : nat) :
  forall t acc,
    Forall (fun l => In l pass_label_names) acc ->
    Forall (fun l => In l pass_label_names) (snd (repair_loop n t acc)).
Proof.
  induction n as [|n IH]; intros t acc Hacc; cbn [repair_loop].
  - exact Hacc.
  - pose proof (repair_pass_labels t) as Hp.
    destruct (repair_pass t) as [cur applied]. cbn [snd] in Hp.
    assert (Hacc' : Forall (fun l => In l pass_label_names) (acc ++ applied))
      by (apply Forall_app; split; assumption).
    destruct (Py.eqt cur t); [exact Hacc'|].
    apply IH. exact Hacc'.
Qed.

(** X17: every label [repair_json] reports is one of seven names: five for
    the rewrites of a pass and two for completion.  The completion labels
    come only with the truncation flag: a result that is not flagged
    carries labels of the rewrites only. *)
Theorem repair_labels_known :
  forall (t : text) (max_iterations : nat),
    Forall (fun l => In l (pass_label_names ++ completion_label_names))
      (RepairResult.repairs_applied (repair_json t max_iterations))
    /\ (RepairResult.is_truncated (repair_json t max_iterations) = false ->
        Forall (fun l => In l pass_label_names)
          (RepairResult.repairs_applied (repair_json t max_iterations))).
Proof.
  intros t n. unfold repair_json.
  pose proof (repair_loop_labels_known n t [] (Forall_nil _)) as Hl.
  destruct (repair_loop n t []) as [cur labels]. cbn [snd] in Hl.
  assert (Hl' : Forall
                  (fun l => In l (pass_label_names ++ completion_label_names))
                  labels).
  { eapply Forall_impl; [|exact Hl]. intros l H.
    apply in_app_iff. left. exact H. }
  destruct (is_truncated_json cur).
  - destruct (_complete_truncated cur) as [cur' applied] eqn:Ec.
    cbn [RepairResult.repairs_applied RepairResult.is_truncated].
    split; [|discriminate].
    apply Forall_app. split; [exact Hl'|].
    assert (Ha : applied = snd (_complete_truncated cur))
      by (rewrite Ec; reflexivity).
    rewrite Ha. unfold _complete_truncated.
    destruct (cs_in_string _); cbn [snd app].
    + constructor; [cbn; tauto|].
      apply Forall_forall. intros l Hin. apply in_map_iff in Hin.
      destruct Hin as [x [<- _]]. cbn. tauto.
    + apply Forall_forall. intros l Hin. apply in_map_iff in Hin.
      destruct Hin as [x [<- _]]. cbn. tauto.
  - cbn [RepairResult.repairs_applied RepairResult.is_truncated].
    split; [exact Hl'|]. intros _. exact Hl.
Qed.

(* ================================================================== *)
(** * Where the candidates come from *)
(* ================================================================== *)

Lemma extract_direct_provenance (t : text) :
  exists l,
    extract_direct t = Ret l /\ Forall (provenance t) l
    /\ (direct_shape (Py.strip t) ->
        l = [Candidate.mk (Py.strip t) 0 (List.length t) DIRECT_PARSE 1.0])
    /\ (~ direct_shape (Py.strip t) -> l = []).
Proof.
  unfold extract_direct.
  destruct (Py.strip t) as [|c0 r] eqn:E.
  - exists []. split; [reflexivity|]. split; [constructor|].
    split; [|reflexivity]. intros (o & mid & c & H & _). discriminate.
  - rewrite <- E.
    destruct (_looks_like_json (Py.strip t)) eqn:Hl.
    + rewrite candidate_new_ok by reflexivity. cbn [bind].
      eexists. split; [reflexivity|]. split; [|split; [reflexivity|]].
      * constructor; [|constructor]. reflexivity.
      * intros Hn. exfalso. apply Hn.
        apply stripped_looks_like_json. exact Hl.
    + exists []. split; [reflexivity|]. split; [constructor|].
      split; [|reflexivity]. intros Hs.
      assert (Ht : _looks_like_json (Py.strip t) = true)
        by (apply looks_like_json_shape; rewrite strip_idem; exact Hs).
      congruence.
Qed.

Lemma brace_matching_provenance (t : text) :
  exists l,
    extract_from_brace_matching t = Ret l /\ Forall (indirect t) l.
Proof.
  destruct (brace_matching_shaped t) as [l [E [_ Hspan]]].
  destruct (brace_match_confidence_formula_aux t) as [l' [E' Hok]].
  rewrite E in E'. injection E' as <-.
  exists l. split; [exact E|].
  rewrite Forall_forall in Hspan, Hok.
  apply Forall_forall. intros c Hc.
  destruct (Hspan c Hc) as (Hs & _ & Hraw & _).
  destruct (Hok c Hc) as (Hconf & Hm & _).
  unfold indirect, provenance. rewrite Hm.
  split; [discriminate|].
  split; [exact Hs|]. split; [exact Hraw|].
  rewrite calculate_confidence_formula. exact Hconf.
Qed.

Lemma fence_json_step_provenance (t : text) (acc : list Candidate.t)
    (m : Re.rmatch_obj) :
  Forall (indirect t) acc ->
  exists acc',
    fence_json_step t acc m = Ret acc' /\ Forall (indirect t) acc'.
Proof.
  intros Hacc. unfold fence_json_step.
  destruct (Py.strip (Re.group t m 1)) as [|c0 r];
    [exists acc; split; [reflexivity|exact Hacc]|].
  destruct (_looks_like_json (c0 :: r));
    [|exists acc; split; [reflexivity|exact Hacc]].
  rewrite candidate_new_ok by reflexivity. cbn [bind].
  eexists. split; [reflexivity|].
  apply Forall_app. split; [exact Hacc|].
  constructor; [|constructor].
  split; [discriminate|]. left. reflexivity.
Qed.

Lemma fence_any_step_provenance (t : text) (acc : list Candidate.t)
    (m : Re.rmatch_obj) :
  Forall (indirect t) acc ->
  exists acc',
    fence_any_step t acc m = Ret acc' /\ Forall (indirect t) acc'.
Proof.
  intros Hacc. unfold fence_any_step.
  destruct (Py.strip (Re.group t m 1)) as [|c0 r];
    [exists acc; split; [reflexivity|exact Hacc]|].
  destruct (_looks_like_json (c0 :: r));
    [|exists acc; split; [reflexivity|exact Hacc]].
  destruct (negb _); [|exists acc; split; [reflexivity|exact Hacc]].
  rewrite candidate_new_ok by reflexivity. cbn [bind].
  eexists. split; [reflexivity|].
  apply Forall_app. split; [exact Hacc|].
  constructor; [|constructor].
  split; [discriminate|]. right. reflexivity.
Qed.

Lemma heuristic_step_provenance (t : text) (acc : list Candidate.t)
    (m : Re.rmatch_obj) :
  Forall (indirect t) acc ->
  exists acc',
    heuristic_step t acc m = Ret acc' /\ Forall (indirect t) acc'.
Proof.
  intros Hacc. unfold heuristic_step.
  destruct (brace_matching_shaped (skipn (Re.m_end m) t)) as [l [E [_ H]]].
  rewrite E. cbn [bind].
  destruct l as [|bc l]; [exists acc; split; [reflexivity|exact Hacc]|].
  rewrite candidate_new_ok by reflexivity. cbn [bind].
  eexists. split; [reflexivity|].
  apply Forall_app. split; [exact Hacc|].
  constructor; [|constructor].
  inversion H as [|? ? (Hspan & _) _]; subst.
  split; [discriminate|]. split; [exact Hspan|reflexivity].
Qed.

Lemma extract_heuristic_provenance (t : text) :
  exists l, extract_heuristic t = Ret l /\ Forall (indirect t) l.
Proof.
  unfold extract_heuristic.
  apply (for_each_ok Re.regex (list Candidate.t) (Forall (indirect t)));
    [|constructor].
  intros acc pattern Hacc.
  apply (for_each_ok Re.rmatch_obj (list Candidate.t)
           (Forall (indirect t))); [|exact Hacc].
  intros acc' m Hacc'. apply heuristic_step_provenance. exact Hacc'.
Qed.

(** No confidence of the detector is above 1.0. *)
Lemma detector_top (x : float) :
  In x detector_confidences -> (1.0 <? x)%float = false.
Proof.
  intros Hin.
  assert (Hall : forallb (fun x => negb (1.0 <? x)%float)
                   detector_confidences = true) by (vm_compute; reflexivity).
  rewrite forallb_forall in Hall. specialize (Hall x Hin).
  apply negb_true_iff in Hall. exact Hall.
Qed.

Lemma insert_desc_top (A K : Type) (lt : K -> K -> bool) (key : A -> K)
    (x : A) (l : list A) :
  (forall y, In y l -> lt (key x) (key y) = false) ->
  Py.insert_desc lt key x l = x :: l.
Proof.
  intros H. destruct l as [|y l]; [reflexivity|].
  cbn [Py.insert_desc]. rewrite (H y (or_introl eq_refl)). reflexivity.
Qed.

Section ProvenanceFacts.

Variable unicode_alnum : char -> bool.

Lemma markdown_fence_provenance (t : text) :
  exists l,
    extract_from_markdown_fence unicode_alnum t = Ret l
    /\ Forall (indirect t) l.
Proof.
  unfold extract_from_markdown_fence.
  destruct (for_each_ok Re.rmatch_obj (list Candidate.t)
              (Forall (indirect t)) (fence_json_step t)
              (fun s x H => fence_json_step_provenance t s x H)
              (Re.finditer _MARKDOWN_FENCE_JSON t) [] (Forall_nil _))
    as [l1 [E1 H1]].
  rewrite E1. cbn [bind].
  apply (for_each_ok Re.rmatch_obj (list Candidate.t)
           (Forall (indirect t))); [|exact H1].
  intros acc m Hacc. apply fence_any_step_provenance. exact Hacc.
Qed.

(** X18: every candidate of [extract_all_candidates] is accounted for by
    its method.  A [DIRECT_PARSE] candidate is the trimmed text with
    offsets 0 and the length of the text, and confidence 1.0; a
    [MARKDOWN_FENCE] candidate has confidence 0.95 or 0.85; a
    [BRACE_MATCH] candidate is a balanced span, the slice of the text
    between its offsets, with the confidence of the brace formula; a
    [HEURISTIC] candidate is a balanced span with confidence 0.6.  When the
    trimmed text opens with a brace or bracket and ends with a closing one,
    the direct candidate heads the list; otherwise no candidate is
    direct. *)
Theorem candidate_provenance :
  forall t : text,
  exists cands,
    extract_all_candidates unicode_alnum t = Ret cands
    /\ Forall (provenance t) cands
    /\ (direct_shape (Py.strip t) ->
        exists rest,
          cands
          = Candidate.mk (Py.strip t) 0 (List.length t) DIRECT_PARSE 1.0
            :: rest)
    /\ (~ direct_shape (Py.strip t) ->
        Forall (fun c => Candidate.method c <> DIRECT_PARSE) cands).
Proof.
  intros t.
  destruct (extract_all_candidates_ok unicode_alnum t) as [cands [E Hdet]].
  exists cands. split; [exact E|].
  unfold extract_all_candidates in E.
  destruct (extract_direct_provenance t) as [l1 [E1 (H1 & Hyes & Hno)]].
  destruct (markdown_fence_provenance t) as [l2 [E2 H2]].
  destruct (brace_matching_provenance t) as [l3 [E3 H3]].
  destruct (extract_heuristic_provenance t) as [l4 [E4 H4]].
  rewrite E1, E2, E3, E4 in E. cbn [bind] in E. injection E as E.
  assert (Hothers : Forall (indirect t) (l2 ++ l3 ++ l4))
    by (repeat (apply Forall_app; split); assumption).
  assert (Hin : forall c, In c cands -> In c (l1 ++ l2 ++ l3 ++ l4)).
  { intros c Hc. rewrite <- E in Hc.
    apply (proj1 (sorted_desc_In _ _ _ _ _ _)) in Hc.
    apply unique_by_raw_In in Hc. exact Hc. }
  rewrite Forall_forall in H1, Hothers.
  split; [|split].
  - apply Forall_forall. intros c Hc. specialize (Hin c Hc).
    apply in_app_iff in Hin. destruct Hin as [Hin|Hin].
    + apply H1. exact Hin.
    + apply (Hothers c Hin).
  - intros Hs. rewrite (Hyes Hs) in E.
    cbn [app unique_by_raw existsb Py.sorted_desc] in E.
    rewrite insert_desc_top in E; [eexists; symmetry; exact E|].
    intros y Hy. cbn [Candidate.confidence]. apply detector_top.
    rewrite Forall_forall in Hdet. apply Hdet.
    rewrite <- E. apply insert_desc_In. right. exact Hy.
  - intros Hn. rewrite (Hno Hn) in Hin. cbn [app] in Hin.
    apply Forall_forall. intros c Hc.
    apply (Hothers c (Hin c Hc)).
Qed.

End ProvenanceFacts.

(* ================================================================== *)
(** * A fenced block is found *)
(* ================================================================== *)

(** A star over one character class, one character at a time. *)
Lemma star_chr_nil (R : Type) (g : bool) (p : char -> bool) (pos : nat)
    (c : Re.caps) (k : text -> nat -> Re.caps -> option R) :
  Re.rmatch (Re.Star g (Re.Chr p)) [] pos c k = k [] pos c.
Proof. reflexivity. Qed.

Lemma star_chr_cons (R : Type) (g : bool) (p : char -> bool) (x : char)
    (s : text) (pos : nat) (c : Re.caps)
    (k : text -> nat -> Re.caps -> option R) :
  Re.rmatch (Re.Star g (Re.Chr p)) (x :: s) pos c k
  = if p x then
      if g then
        match Re.rmatch (Re.Star g (Re.Chr p)) s (S pos) c k with
        | Some r => Some r
        | None => k (x :: s) pos c
        end
      else
        match k (x :: s) pos c with
        | Some r => Some r
        | None => Re.rmatch (Re.Star g (Re.Chr p)) s (S pos) c k
        end
    else k (x :: s) pos c.
Proof.
  cbn [Re.rmatch List.length].
  assert (E : Nat.ltb pos (S pos) = true) by (apply Nat.ltb_lt; lia).
  destruct (p x); [rewrite E; destruct g; reflexivity|].
  destruct g; [reflexivity|]. destruct (k (x :: s) pos c); reflexivity.
Qed.

(** What a star over a character class consumed satisfies the class. *)
Lemma star_chr_sound (R : Type) (g : bool) (p : char -> bool) (s : text) :
  forall (pos : nat) (c : Re.caps)
         (k : text -> nat -> Re.caps -> option R) (x : R),
    Re.rmatch (Re.Star g (Re.Chr p)) s pos c k = Some x ->
    exists n,
      n <= List.length s /\ forallb p (firstn n s) = true
      /\ k (skipn n s) (pos + n) c = Some x.
Proof.
  induction s as [|y s IH]; intros pos c k x H.
  - rewrite star_chr_nil in H. exists 0. cbn. rewrite Nat.add_0_r.
    repeat split; [lia|exact H].
  - rewrite star_chr_cons in H.
    destruct (p y) eqn:Hy.
    + destruct g.
      * destruct (Re.rmatch (Re.Star true (Re.Chr p)) s (S pos) c k)
          as [r|] eqn:E.
        -- injection H as <-. apply IH in E.
           destruct E as (n & Hn & Hp & Hk).
           exists (S n). cbn [List.length firstn skipn forallb].
           rewrite Hy, Hp. replace (pos + S n) with (S pos + n) by lia.
           repeat split; [lia|exact Hk].
        -- exists 0. cbn [firstn skipn forallb]. rewrite Nat.add_0_r.
           repeat split; [lia|exact H].
      * destruct (k (y :: s) pos c) as [r|] eqn:E.
        -- injection H as <-. exists 0. cbn [firstn skipn forallb].
           rewrite Nat.add_0_r. repeat split; [lia|exact E].
        -- apply IH in H. destruct H as (n & Hn & Hp & Hk).
           exists (S n). cbn [List.length firstn skipn forallb].
           rewrite Hy, Hp. replace (pos + S n) with (S pos + n) by lia.
           repeat split; [lia|exact Hk].
    + exists 0. cbn [firstn skipn forallb]. rewrite Nat.add_0_r.
      repeat split; [lia|exact H].
Qed.

(** A chain of single characters consumes a text that fits it, and fails
    on a first character that does not. *)
Lemma seq_chr_match (R : Type) (ps : list (char -> bool)) :
  forall (xs s : text) (pos : nat) (c : Re.caps)
         (k : text -> nat -> Re.caps -> option R),
    Forall2 (fun p x => p x = true) ps xs ->
    Re.rmatch (Re.seq (map Re.Chr ps)) (xs ++ s) pos c k
    = k s (pos + List.length xs) c.
Proof.
  induction ps as [|p ps IH]; intros xs s pos c k H.
  - inversion H; subst. cbn. rewrite Nat.add_0_r. reflexivity.
  - inversion H as [|? x ? xs' Hp Hrest]; subst.
    destruct ps as [|p' ps'].
    + inversion Hrest; subst. cbn [map Re.seq Re.rmatch app List.length].
      rewrite Hp. f_equal. lia.
    + change (Re.seq (map Re.Chr (p :: p' :: ps')))
        with (Re.Cat (Re.Chr p) (Re.seq (map Re.Chr (p' :: ps')))).
      cbn [Re.rmatch app List.length]. rewrite Hp.
      rewrite (IH xs' s (S pos) c k Hrest). f_equal. lia.
Qed.

Lemma seq_chr_fail (R : Type) (p : char -> bool) (ps : list (char -> bool))
    (x : char) (s : text) (pos : nat) (c : Re.caps)
    (k : text -> nat -> Re.caps -> option R) :
  p x = false ->
  Re.rmatch (Re.seq (map Re.Chr (p :: ps))) (x :: s) pos c k = None.
Proof.
  intros Hp. destruct ps as [|p' ps'].
  - cbn [map Re.seq Re.rmatch]. rewrite Hp. reflexivity.
  - change (Re.seq (map Re.Chr (p :: p' :: ps')))
      with (Re.Cat (Re.Chr p) (Re.seq (map Re.Chr (p' :: ps')))).
    cbn [Re.rmatch]. rewrite Hp. reflexivity.
Qed.

Lemma lit_i_chain (s : string) :
  Re.lit_i s = Re.seq (map Re.Chr (map Re.ieq (Py.txt s))).
Proof. unfold Re.lit_i, Re.lit1_i. rewrite map_map. reflexivity. Qed.

(** The lazy star over any character hands on at the first offset where
    the rest of the pattern matches. *)
Lemma lazy_any_hit (R : Type) (v : text) (pos : nat) (c : Re.caps)
    (k : text -> nat -> Re.caps -> option R) (r : R) :
  k v pos c = Some r ->
  Re.rmatch (Re.lazy_star Re.any) v pos c k = Some r.
Proof.
  intros H. unfold Re.lazy_star, Re.any. destruct v as [|x v].
  - rewrite star_chr_nil. exact H.
  - rewrite star_chr_cons. rewrite H. reflexivity.
Qed.

Lemma lazy_any_skip (R : Type) (u : text) :
  forall (v : text) (pos : nat) (c : Re.caps)
         (k : text -> nat -> Re.caps -> option R),
    (forall i, i < List.length u ->
               k (skipn i u ++ v) (pos + i) c = None) ->
    Re.rmatch (Re.lazy_star Re.any) (u ++ v) pos c k
    = Re.rmatch (Re.lazy_star Re.any) v (pos + List.length u) c k.
Proof.
  induction u as [|x u IH]; intros v pos c k H.
  - cbn [app List.length]. rewrite Nat.add_0_r. reflexivity.
  - cbn [app List.length]. unfold Re.lazy_star, Re.any.
    rewrite star_chr_cons.
    pose proof (H 0 ltac:(cbn [List.length]; lia)) as H0.
    cbn [skipn app] in H0. rewrite Nat.add_0_r in H0. rewrite H0.
    fold Re.any. fold (Re.lazy_star Re.any).
    rewrite IH.
    + f_equal. lia.
    + intros i Hi. specialize (H (S i) ltac:(cbn [List.length]; lia)).
      cbn [skipn] in H. replace (S pos + i) with (pos + S i) by lia.
      exact H.
Qed.

(** A search passes over the characters at which the pattern cannot
    start. *)
Lemma search_skip (r : Re.regex) (pre : text) :
  forall (rest : text) (pos : nat),
    Forall
      (fun x => forall s p,
         Re.rmatch r (x :: s) p [] (fun _ e c => Some (e, c)) = None)
      pre ->
    Re.search r (pre ++ rest) pos = Re.search r rest (pos + List.length pre).
Proof.
  induction pre as [|x pre IH]; intros rest pos H.
  - cbn [app List.length]. rewrite Nat.add_0_r. reflexivity.
  - inversion H as [|? ? Hx Hpre]; subst.
    cbn [app Re.search]. rewrite Hx. rewrite (IH rest (S pos) Hpre).
    f_equal. cbn [List.length]. lia.
Qed.

Lemma ieq_backtick (x : char) : Re.ieq backtick x = Py.eqc x backtick.
Proof. reflexivity. Qed.

(** The fenced pattern starts at a backtick. *)
Lemma fence_json_head (R : Type) (x : char) (s : text) (pos : nat)
    (c : Re.caps) (k : text -> nat -> Re.caps -> option R) :
  x <> backtick ->
  Re.rmatch _MARKDOWN_FENCE_JSON (x :: s) pos c k = None.
Proof.
  intros Hx. unfold _MARKDOWN_FENCE_JSON.
  change (Re.seq
            [Re.lit_i "```json"; Re.star Re.ws; Re.lit1 newline;
             Re.Grp 1 (Re.lazy_star Re.any); Re.lit1 newline;
             Re.star Re.ws; Re.lit_i "```"])
    with (Re.Cat (Re.lit_i "```json")
            (Re.seq
               [Re.star Re.ws; Re.lit1 newline;
                Re.Grp 1 (Re.lazy_star Re.any); Re.lit1 newline;
                Re.star Re.ws; Re.lit_i "```"])).
  cbn [Re.rmatch]. rewrite lit_i_chain.
  change (map Re.ieq (Py.txt "```json"))
    with (Re.ieq backtick :: map Re.ieq (Py.txt "``json")).
  apply seq_chr_fail. rewrite ieq_backtick. apply eqc_false. exact Hx.
Qed.

Lemma direct_shape_ends (core : text) :
  direct_shape core ->
  exists o u c,
    core = o :: u /\ core = (o :: removelast u) ++ [c]
    /\ Py.isspace o = false /\ Py.isspace c = false
    /\ Py.strip core = core /\ _looks_like_json core = true.
Proof.
  intros Hd. pose proof Hd as (o & mid & c & E & Ho & Hc).
  assert (Hos : Py.isspace o = false)
    by (destruct (opener_inv o Ho); subst; reflexivity).
  assert (Hcs : Py.isspace c = false)
    by (apply closer_not_space; exact Hc).
  assert (Hstrip : Py.strip core = core).
  { rewrite E. unfold Py.strip. rewrite (lstrip_head o _ Hos).
    change (o :: mid ++ [c]) with ((o :: mid) ++ [c]).
    apply rstrip_snoc. exact Hcs. }
  exists o, (mid ++ [c]), c. repeat split; try assumption.
  - rewrite E, removelast_last. reflexivity.
  - apply looks_like_json_shape. rewrite Hstrip. exact Hd.
Qed.

(** The end of the pattern, a line break, blanks and the closing fence,
    does not match inside the block. *)
Lemma fence_tail_fails (R : Type) (u v : text) (pos : nat) (c : Re.caps)
    (k : text -> nat -> Re.caps -> option R) :
  ~ In backtick u ->
  (exists u' z, u = u' ++ [z] /\ Py.isspace z = false) ->
  Re.rmatch (Re.lit1 newline) (u ++ v) pos c
    (fun s0 p0 c0 =>
       Re.rmatch (Re.star Re.ws) s0 p0 c0
         (fun s1 p1 c1 => Re.rmatch (Re.lit_i "```") s1 p1 c1 k))
  = None.
Proof.
  intros Hnb (u' & z & Eu & Hz).
  destruct u as [|x u1]; [destruct u'; discriminate|].
  unfold Re.lit1 at 1. cbn [app Re.rmatch].
  destruct (Py.eqc newline x) eqn:Ex; [|reflexivity].
  apply eqc_true in Ex. subst x.
  match goal with |- ?lhs = None => destruct lhs as [r|] eqn:E end;
    [|reflexivity].
  exfalso. unfold Re.star, Re.ws in E.
  apply star_chr_sound in E. destruct E as (n & Hn & Hp & Hk).
  rewrite lit_i_chain in Hk.
  change (map Re.ieq (Py.txt "```"))
    with (Re.ieq backtick :: map Re.ieq (Py.txt "``")) in Hk.
  destruct (Nat.lt_ge_cases n (List.length u1)) as [Hlt|Hge].
  - rewrite skipn_app in Hk.
    replace (n - List.length u1) with 0 in Hk by lia. cbn [skipn] in Hk.
    destruct (skipn n u1) as [|y w] eqn:Es.
    + assert (L : List.length (skipn n u1) = 0) by (rewrite Es; reflexivity).
      rewrite length_skipn in L. lia.
    + cbn [app] in Hk. rewrite seq_chr_fail in Hk; [discriminate|].
      rewrite ieq_backtick. apply eqc_false. intros ->.
      apply Hnb. right.
      assert (Hin : In backtick (skipn n u1))
        by (rewrite Es; left; reflexivity).
      clear - Hin. revert n Hin. induction u1 as [|a u1 IH]; intros n Hin.
      * destruct n; cbn in Hin; contradiction.
      * destruct n as [|n]; [exact Hin|]. right. apply (IH n). exact Hin.
  - destruct u' as [|a u''].
    + cbn [app] in Eu. injection Eu as Ez _. rewrite <- Ez in Hz.
      discriminate.
    + cbn [app] in Eu. injection Eu as _ Eu.
      rewrite firstn_app in Hp. rewrite forallb_app in Hp.
      apply andb_true_iff in Hp. destruct Hp as [Hp _].
      rewrite firstn_all2 in Hp by lia. rewrite Eu in Hp.
      rewrite forallb_app in Hp. apply andb_true_iff in Hp.
      destruct Hp as [_ Hp]. cbn [forallb] in Hp. rewrite Hz in Hp.
      discriminate.
Qed.

(** The pattern at the opening fence of a block. *)
Lemma fence_json_match (core suf : text) (pos : nat) :
  direct_shape core -> ~ In backtick core ->
  Re.rmatch _MARKDOWN_FENCE_JSON
    (fence_open ++ core ++ fence_close ++ suf) pos []
    (fun _ e c => Some (e, c))
  = Some (pos + 8 + List.length core + 4,
          [(1, (pos + 8, pos + 8 + List.length core))]).
Proof.
  intros Hd Hnb.
  destruct (direct_shape_ends core Hd)
    as (o & u & z & Ecore & Elast & Ho & Hz & _ & _).
  unfold _MARKDOWN_FENCE_JSON, fence_open, fence_close.
  change (Re.seq
            [Re.lit_i "```json"; Re.star Re.ws; Re.lit1 newline;
             Re.Grp 1 (Re.lazy_star Re.any); Re.lit1 newline;
             Re.star Re.ws; Re.lit_i "```"])
    with (Re.Cat (Re.lit_i "```json")
            (Re.Cat (Re.star Re.ws)
               (Re.Cat (Re.lit1 newline)
                  (Re.Cat (Re.Grp 1 (Re.lazy_star Re.any))
                     (Re.Cat (Re.lit1 newline)
                        (Re.Cat (Re.star Re.ws) (Re.lit_i "```"))))))).
  cbn [Re.rmatch]. rewrite lit_i_chain at 1.
  rewrite <- app_assoc.
  rewrite seq_chr_match by (repeat constructor).
  (* the greedy blanks take the line break and give it back *)
  cbn [app]. unfold Re.star at 1, Re.ws at 1.
  rewrite star_chr_cons.
  change (Py.isspace newline) with true. cbv beta iota.
  rewrite Ecore at 1. cbn [app].
  rewrite star_chr_cons, Ho.
  unfold Re.lit1 at 1. cbn [Re.rmatch].
  assert (Eo : Py.eqc newline o = false).
  { apply eqc_false. intros <-. discriminate. }
  rewrite Eo.
  unfold Re.lit1 at 1. cbn [Re.rmatch]. rewrite eqc_refl.
  (* the lazy content runs to the line break before the closing fence *)
  rewrite lazy_any_skip.
  - apply lazy_any_hit.
    unfold Re.lit1. cbn [Re.rmatch]. rewrite eqc_refl.
    change (Py.txt "```" ++ suf)
      with (backtick :: (Py.txt "``" ++ suf)).
    unfold Re.star, Re.ws. rewrite star_chr_cons.
    change (Py.isspace backtick) with false. cbv beta iota.
    change (backtick :: (Py.txt "``" ++ suf)) with (Py.txt "```" ++ suf).
    rewrite lit_i_chain.
    rewrite seq_chr_match by (repeat constructor).
    change (List.length (Py.txt "```json")) with 7.
    change (List.length (Py.txt "```")) with 3.
    f_equal. f_equal; [lia|]. f_equal. f_equal. f_equal; lia.
  - intros i Hi.
    apply fence_tail_fails.
    + intros Hin. apply Hnb.
      clear - Hin. revert i Hin.
      induction core as [|a core IH]; intros i Hin.
      * destruct i; cbn in Hin; contradiction.
      * destruct i as [|i]; [exact Hin|]. right. apply (IH i). exact Hin.
    + rewrite Elast.
      destruct (Nat.eq_dec i (List.length (o :: removelast u))) as [->|Hne].
      * exists [], z. rewrite skipn_app, skipn_all, Nat.sub_diag.
        split; [reflexivity|exact Hz].
      * exists (skipn i (o :: removelast u)), z.
        assert (Hlen : List.length core
                       = List.length (o :: removelast u) + 1).
        { rewrite Elast at 1. rewrite length_app. reflexivity. }
        rewrite skipn_app.
        replace (i - List.length (o :: removelast u)) with 0 by lia.
        split; [reflexivity|exact Hz].
Qed.

Lemma search_hit (r : Re.regex) (s : text) (pos e : nat) (c : Re.caps) :
  Re.rmatch r s pos [] (fun _ e c => Some (e, c)) = Some (e, c) ->
  Re.search r s pos
  = Some {| Re.m_start := pos; Re.m_end := e; Re.m_caps := c |}.
Proof. intros H. destruct s; cbn [Re.search]; rewrite H; reflexivity. Qed.

Lemma finditer_first (r : Re.regex) (t : text) (m : Re.rmatch_obj) :
  Re.search r t 0 = Some m -> exists ms, Re.finditer r t = m :: ms.
Proof.
  intros H. unfold Re.finditer. cbn [Re.finditer_from skipn]. rewrite H.
  eexists. reflexivity.
Qed.

(** The steps of the two loops only add candidates at the end. *)
Lemma fence_json_step_appends (t : text) (acc : list Candidate.t)
    (m : Re.rmatch_obj) :
  exists extra, fence_json_step t acc m = Ret (acc ++ extra).
Proof.
  unfold fence_json_step.
  destruct (Py.strip (Re.group t m 1)) as [|c0 r];
    [exists []; rewrite app_nil_r; reflexivity|].
  destruct (_looks_like_json (c0 :: r));
    [|exists []; rewrite app_nil_r; reflexivity].
  rewrite candidate_new_ok by reflexivity. cbn [bind].
  eexists. reflexivity.
Qed.

Lemma fence_any_step_appends (t : text) (acc : list Candidate.t)
    (m : Re.rmatch_obj) :
  exists extra, fence_any_step t acc m = Ret (acc ++ extra).
Proof.
  unfold fence_any_step.
  destruct (Py.strip (Re.group t m 1)) as [|c0 r];
    [exists []; rewrite app_nil_r; reflexivity|].
  destruct (_looks_like_json (c0 :: r));
    [|exists []; rewrite app_nil_r; reflexivity].
  destruct (negb _); [|exists []; rewrite app_nil_r; reflexivity].
  rewrite candidate_new_ok by reflexivity. cbn [bind].
  eexists. reflexivity.
Qed.

Lemma fence_json_step_first (t : text) (m : Re.rmatch_obj) (core : text) :
  Py.strip (Re.group t m 1) = core -> _looks_like_json core = true ->
  fence_json_step t [] m
  = Ret [Candidate.mk core (Re.mstart m 1) (Re.mend m 1) MARKDOWN_FENCE 0.95].
Proof.
  intros E Hl. unfold fence_json_step. rewrite E.
  destruct core as [|c0 r]; [discriminate Hl|].
  rewrite Hl. rewrite candidate_new_ok by reflexivity. reflexivity.
Qed.

Lemma for_each_appends (A B : Type) (body : list B -> A -> res (list B)) :
  (forall acc x, exists extra, body acc x = Ret (acc ++ extra)) ->
  forall l acc, exists extra, for_each body l acc = Ret (acc ++ extra).
Proof.
  intros Hbody. induction l as [|x l IH]; intros acc; cbn [for_each].
  - exists []. rewrite app_nil_r. reflexivity.
  - destruct (Hbody acc x) as [e1 E1]. rewrite E1. cbn [bind].
    destruct (IH (acc ++ e1)) as [e2 E2]. rewrite E2.
    exists (e1 ++ e2). rewrite app_assoc. reflexivity.
Qed.

Lemma strip_keeps_visible (x : char) (t : text) :
  In x t -> Py.isspace x = false -> In x (Py.strip t).
Proof.
  intros Hin Hx. unfold Py.strip.
  destruct (lstrip_split t) as [ws1 [E1 H1]].
  destruct (rstrip_split (Py.lstrip t)) as [ws2 [E2 H2]].
  rewrite E1, E2 in Hin.
  rewrite forallb_forall in H1, H2.
  apply in_app_iff in Hin. destruct Hin as [Hin|Hin].
  - rewrite (H1 x Hin) in Hx. discriminate.
  - apply in_app_iff in Hin. destruct Hin as [Hin|Hin]; [exact Hin|].
    rewrite (H2 x Hin) in Hx. discriminate.
Qed.

(** The duplicate removal keeps a candidate whose raw text was not met
    before it. *)
Lemma unique_by_raw_keeps (l1 : list Candidate.t) :
  forall (c : Candidate.t) (l2 : list Candidate.t) (seen : list text),
    ~ In (Candidate.raw c) seen ->
    Forall (fun c' => Candidate.raw c' <> Candidate.raw c) l1 ->
    In c (unique_by_raw (l1 ++ c :: l2) seen).
Proof.
  induction l1 as [|x l1 IH]; intros c l2 seen Hseen Hl1;
    cbn [app unique_by_raw].
  - assert (E : existsb (Py.eqt (Candidate.raw c)) seen = false).
    { destruct (existsb _ seen) eqn:E; [|reflexivity].
      apply existsb_exists in E. destruct E as [y [Hy Ey]].
      apply eqt_true in Ey. subst y. contradiction. }
    rewrite E. left. reflexivity.
  - inversion Hl1 as [|? ? Hx Hrest]; subst.
    destruct (existsb (Py.eqt (Candidate.raw x)) seen).
    + apply IH; assumption.
    + right. apply IH; [|exact Hrest].
      intros [E|Hin]; [apply Hx; exact E|contradiction].
Qed.

Section FenceFacts.

Variable unicode_alnum : char -> bool.

(** X19: a block fenced with three backticks and the tag [json] is found.
    Let the text hold, after a part without backtick, the opening fence
    and a line break, then a block that opens with a brace or bracket,
    ends with a closing one and holds no backtick, then a line break and
    the closing fence.  [extract_from_markdown_fence] returns the block as
    its first candidate, with the offsets of the block, method
    [MARKDOWN_FENCE] and confidence 0.95, and [extract_all_candidates]
    returns this candidate among its candidates. *)
Theorem fenced_json_is_found :
  forall pre core suf : text,
    ~ In backtick pre ->
    direct_shape core ->
    ~ In backtick core ->
    let t :=
      pre ++ Py.txt "```json" ++ [newline] ++ core ++ [newline]
        ++ Py.txt "```" ++ suf in
    let c :=
      Candidate.mk core (List.length pre + 8)
        (List.length pre + 8 + List.length core) MARKDOWN_FENCE 0.95 in
    (exists rest, extract_from_markdown_fence unicode_alnum t = Ret (c :: rest))
    /\ exists cands,
         extract_all_candidates unicode_alnum t = Ret cands /\ In c cands.
Proof.
  intros pre core suf Hpre Hd Hnb t c.
  assert (Et : t = pre ++ fence_open ++ core ++ fence_close ++ suf).
  { unfold t, fence_open, fence_close. rewrite <- !app_assoc. reflexivity. }
  destruct (direct_shape_ends core Hd)
    as (o & u & z & Ecore & _ & _ & _ & Hstrip & Hlooks).
  (* the first match of the pattern *)
  assert (Hsearch :
    Re.search _MARKDOWN_FENCE_JSON t 0
    = Some {| Re.m_start := List.length pre;
              Re.m_end := List.length pre + 8 + List.length core + 4;
              Re.m_caps :=
                [(1, (List.length pre + 8,
                      List.length pre + 8 + List.length core))] |}).
  { rewrite Et. rewrite search_skip.
    - apply search_hit. apply fence_json_match; assumption.
    - apply Forall_forall. intros x Hx s p. apply fence_json_head.
      intros ->. contradiction. }
  assert (Hgroup : Py.slice t (List.length pre + 8)
                     (List.length pre + 8 + List.length core) = core).
  { rewrite Et.
    replace (pre ++ fence_open ++ core ++ fence_close ++ suf)
      with ((pre ++ fence_open) ++ core ++ (fence_close ++ suf))
      by (rewrite <- !app_assoc; reflexivity).
    apply slice_middle; rewrite length_app; reflexivity. }
  assert (Hfence : exists rest,
            extract_from_markdown_fence unicode_alnum t = Ret (c :: rest)).
  { unfold extract_from_markdown_fence.
    destruct (finditer_first _ t _ Hsearch) as [ms Ems]. rewrite Ems.
    cbn [for_each].
    rewrite (fence_json_step_first t _ core);
      [|unfold Re.group, Re.mstart, Re.mend;
        cbn [Re.m_caps Re.group_span Nat.eqb]; rewrite Hgroup; exact Hstrip
       |exact Hlooks].
    unfold Re.mstart, Re.mend. cbn [Re.m_caps Re.group_span Nat.eqb bind].
    fold c.
    destruct (for_each_appends _ _ (fence_json_step t)
                (fence_json_step_appends t) ms [c]) as [e1 E1].
    rewrite E1. cbn [bind].
    destruct (for_each_appends _ _ (fence_any_step t)
                (fence_any_step_appends t)
                (Re.finditer (_MARKDOWN_FENCE_ANY unicode_alnum) t)
                ([c] ++ e1)) as [e2 E2].
    rewrite E2.
    eexists. cbn [app]. reflexivity. }
  split; [exact Hfence|].
  destruct Hfence as [rest Efence].
  unfold extract_all_candidates. rewrite Efence.
  destruct (extract_direct_provenance t) as [l1 [E1 (H1 & _)]].
  destruct (brace_matching_ok t) as [l3 [E3 _]].
  destruct (extract_heuristic_ok t) as [l4 [E4 _]].
  rewrite E1, E3, E4. cbn [bind]. eexists. split; [reflexivity|].
  apply sorted_desc_In.
  replace (l1 ++ (c :: rest) ++ l3 ++ l4)
    with (l1 ++ c :: (rest ++ l3 ++ l4)) by reflexivity.
  apply unique_by_raw_keeps; [intros []|].
  (* a direct candidate is the trimmed text, which holds a backtick *)
  assert (Hdirect : forall x, In x l1 -> Candidate.raw x = Py.strip t).
  { unfold extract_direct in E1.
    destruct (Py.strip t) as [|c0 r0] eqn:Es.
    - injection E1 as <-. intros x [].
    - destruct (_looks_like_json (c0 :: r0)).
      + rewrite candidate_new_ok in E1 by reflexivity. cbn [bind] in E1.
        injection E1 as <-. intros x [<-|[]]. reflexivity.
      + injection E1 as <-. intros x []. }
  apply Forall_forall. intros x Hx Hraw.
  rewrite (Hdirect x Hx) in Hraw. cbn [Candidate.raw c] in Hraw.
  apply Hnb. rewrite <- Hraw.
  apply strip_keeps_visible; [|reflexivity].
  unfold t. apply in_app_iff. right. left. reflexivity.
Qed.

End FenceFacts.

Lemma sample_object_shape : direct_shape (Py.txt "{~k~: 1}").
Proof.
  exists lbrace, (Py.txt "~k~: 1"), rbrace. repeat split.
Qed.

(** The fenced block of [Result: ```json / {~k~: 1} / ``` done], the bars
    standing for line breaks. *)
Lemma fenced_json_is_found_witness :
  exists rest,
    extract_from_markdown_fence ascii_only
      (Py.txt "Result: " ++ Py.txt "```json" ++ [newline]
         ++ Py.txt "{~k~: 1}" ++ [newline] ++ Py.txt "```"
         ++ Py.txt " done")
    = Ret (Candidate.mk (Py.txt "{~k~: 1}") 16 24 MARKDOWN_FENCE 0.95
             :: rest).
Proof.
  apply (proj1 (fenced_json_is_found ascii_only (Py.txt "Result: ")
                  (Py.txt "{~k~: 1}") (Py.txt " done")
                  ltac:(vm_compute; intuition discriminate)
                  sample_object_shape
                  ltac:(vm_compute; intuition discriminate))).
Defined.

(* ================================================================== *)
(** * The command line *)
(* ================================================================== *)

Section CliFacts.

Variable unicode_alnum : char -> bool.
Variable V : Type.
Variable loads : text -> decoded V.
Variable dumps : bool -> option (payload V) -> option string.
Variable format_2f : float -> string.

(** X20: the exit code of the command line tells what happened.  When
    [main] returns, either the exit code is 0, the extraction on the
    input text succeeded and the one thing printed to standard output is
    the encoded data; or the exit code is 1 and nothing is printed to
    standard output, and then either there was no input and the message
    about missing input is on standard error, or the extraction failed
    and standard error holds [Error: ] followed by the message of the
    error the result carries (the fallback message of the code is never
    printed). *)
Theorem main_exit_code :
  forall (w : Cli.World) (args : Cli.Namespace) (run : Cli.Run),
    Cli.main unicode_alnum loads dumps format_2f w args = Cli.Returns run ->
    let strat :=
      if Cli.ns_all args then All
      else if Cli.ns_largest args then Largest
      else Cli.ns_strategy args in
    (Cli.exit_code run = 0
     /\ exists t printed r out,
          Cli._get_input_text w args = Cli.Returns (Some t, printed)
          /\ extract_json_with_metadata unicode_alnum loads t
               (negb (Cli.ns_no_repair args)) strat = Ret r
          /\ ExtractResult.success r = true
          /\ dumps (Cli.ns_pretty args) (ExtractResult.data r) = Some out
          /\ Cli.stdout run = [out])
    \/ (Cli.exit_code run = 1 /\ Cli.stdout run = []
        /\ ((exists printed,
               Cli._get_input_text w args = Cli.Returns (None, printed)
               /\ In "Error: No input provided. Use text argument, -f file, or pipe input."%string
                    (Cli.stderr run))
            \/ exists t printed r e,
                 Cli._get_input_text w args = Cli.Returns (Some t, printed)
                 /\ extract_json_with_metadata unicode_alnum loads t
                      (negb (Cli.ns_no_repair args)) strat = Ret r
                 /\ ExtractResult.success r = false
                 /\ ExtractResult.error r = Some e
                 /\ In ("Error: " ++ message e)%string (Cli.stderr run))).
Proof.
  intros w args run H strat. unfold Cli.main in H.
  destruct (Cli._get_input_text w args) as [[[t|] printed]|] eqn:Ein;
    [| |discriminate].
  - fold strat in H.
    destruct (extract_json_with_metadata_ok unicode_alnum V loads t
                (negb (Cli.ns_no_repair args)) strat)
      as [r [Er (_ & Hf & _ & _)]].
    rewrite Er in H.
    destruct (ExtractResult.success r) eqn:Hs; cbn [negb] in H.
    + unfold Cli._format_output in H.
      assert (Hd : (if Cli.ns_pretty args
                    then dumps true (ExtractResult.data r)
                    else dumps false (ExtractResult.data r))
                   = dumps (Cli.ns_pretty args) (ExtractResult.data r))
        by (destruct (Cli.ns_pretty args); reflexivity).
      rewrite Hd in H.
      destruct (dumps (Cli.ns_pretty args) (ExtractResult.data r))
        as [out|] eqn:Eout; [|discriminate].
      injection H as <-. left. split; [reflexivity|].
      exists t, printed, r, out. repeat split; assumption.
    + destruct (Hf eq_refl) as [_ He].
      destruct (ExtractResult.error r) as [e|] eqn:Ee; [|contradiction].
      injection H as <-. right. split; [reflexivity|].
      split; [reflexivity|]. right.
      exists t, printed, r, e. repeat split; try assumption.
      cbn [Cli.stderr]. apply in_app_iff. right. left. reflexivity.
  - injection H as <-. right. split; [reflexivity|].
    split; [reflexivity|]. left.
    exists printed. split; [reflexivity|].
    cbn [Cli.stderr]. apply in_app_iff. right. left. reflexivity.
Qed.

End CliFacts.

(** The tool on the argument [{~key~: ~value~}], with an encoder that
    prints a fixed line. *)
Lemma main_exit_code_witness :
  Cli.main ascii_only Json.loads (fun _ _ => Some "<json>"%string)
    (fun _ => "1.00"%string) sample_world sample_args
  = Cli.Returns sample_run
  /\ (Cli.exit_code sample_run = 0 \/ Cli.exit_code sample_run = 1).
Proof.
  split; [vm_compute; reflexivity|].
  pose proof
    (main_exit_code ascii_only Json.value Json.loads
       (fun _ _ => Some "<json>"%string) (fun _ => "1.00"%string)
       sample_world sample_args sample_run
       ltac:(vm_compute; reflexivity)) as H.
  destruct H as [[H _]|[H _]]; [left|right]; exact H.
Defined.

(* ================================================================== *)
(** * Closed examples *)
(* ================================================================== *)

Lemma sample_members_balanced : Balanced (Py.txt "~k~: 1").
Proof.
  change (Balanced (dquote :: Py.txt "k" ++ dquote :: Py.txt ": 1")).
  apply B_string.
  - apply SB_char; [reflexivity|reflexivity|apply SB_nil].
  - repeat (apply B_plain; [reflexivity|]). apply B_nil.
Qed.

(** The brace matcher on [see {~k~: 1} ok]. *)
Lemma single_span_single_candidate_witness :
  extract_from_brace_matching (Py.txt "see {~k~: 1} ok")
  = Ret [Candidate.mk (Py.txt "{~k~: 1}") 4 12 BRACE_MATCH
           (_calculate_brace_match_confidence (Py.txt "{~k~: 1}"))].
Proof.
  apply (single_span_single_candidate (Py.txt "see ") lbrace
           (Py.txt "~k~: 1") (Py.txt " ok")).
  - repeat constructor.
  - repeat constructor.
  - reflexivity.
  - exact sample_members_balanced.
Defined.

(** The strategy [all] on [[1] and {~a~: 2,}], repair on: the object
    yields its value after repair, the array as it stands, and the text as
    a whole yields none. *)
Lemma all_collects_every_value_witness :
  exists r,
    extract_json_with_metadata ascii_only Json.loads
      (Py.txt "[1] and {~a~: 2,}") true All = Ret r
    /\ ExtractResult.data r
       = Some (Many [Json.JObject [(Py.txt "a", Json.JNumber (Py.txt "2"))];
                     Json.JArray [Json.JNumber (Py.txt "1")]])
    /\ ExtractResult.success r = true.
Proof.
  apply (all_collects_every_value ascii_only Json.value Json.loads
           (Py.txt "[1] and {~a~: 2,}") true
           (match extract_all_candidates ascii_only
                    (Py.txt "[1] and {~a~: 2,}") with
            | Ret cands => cands
            | Raise _ => []
            end)).
  - vm_compute. reflexivity.
  - vm_compute. discriminate.
Defined.
